(** * DRIVE-THRU: the session controller of [drive_thru_system.py]

    A shallow embedding of the dialogue engine of [DriveThruSystem]:
    [listen], [announce_offers], the three order-capture flows,
    the two hand-off functions, [process_customer] and the [run] loop,
    followed by the properties of the specification that concern them.

    Conventions of the embedding.
    - Python [str] values are modelled by [string]; a character is a code
      point below 256.  [lower], [strip] and [in] are written out below.
    - A method of [DriveThruSystem] that mutates [self] or talks to a
      device is a computation in the monad [M]: it takes the mutable
      fields ([State]) and gives back a [result] (a value, or the
      exception that propagates), the new fields and the list of
      externally visible events it produced, oldest first.
    - What the outside world answers is an [Env]: the n-th call of an
      external function gets the n-th element of its stream.
    - Time is not modelled: [time.sleep], the timeouts passed to the
      recognizer and the console output leave no trace here.  Whether a
      sentence handed to the speech engine is actually heard is outside
      the model as well: [speak] records the request. *)

From Stdlib Require Import String Ascii List Bool Arith Lia DecimalString.
Import ListNotations.
Open Scope string_scope.

(* ================================================================== *)
(** ** Python string operations *)
(* ================================================================== *)

Module PyStr.

(** [str.isspace] on one code point below 256. *)
Definition is_space (c : ascii) : bool :=
  let n := nat_of_ascii c in
  (((9 <=? n) && (n <=? 13)) || ((28 <=? n) && (n <=? 32))
   || (n =? 133) || (n =? 160))%nat.

(** [str.lower] on one code point below 256: [A-Z] and the Latin-1
    capitals (all of 0xC0..0xDE but the multiplication sign). *)
Definition lower_char (c : ascii) : ascii :=
  let n := nat_of_ascii c in
  if (((65 <=? n) && (n <=? 90))
      || ((192 <=? n) && (n <=? 222) && negb (n =? 215)))%nat
  then ascii_of_nat (n + 32) else c.

(** [s.lower()] *)
Fixpoint lower (s : string) : string :=
  match s with
  | EmptyString => EmptyString
  | String c s' => String (lower_char c) (lower s')
  end.

(** [s.lstrip()] *)
Fixpoint lstrip (s : string) : string :=
  match s with
  | EmptyString => EmptyString
  | String c s' => if is_space c then lstrip s' else s
  end.

(** [s.rstrip()] *)
Fixpoint rstrip (s : string) : string :=
  match s with
  | EmptyString => EmptyString
  | String c s' =>
      match rstrip s' with
      | EmptyString => if is_space c then EmptyString else String c EmptyString
      | r => String c r
      end
  end.

(** [s.strip()] *)
Definition strip (s : string) : string := rstrip (lstrip s).

(** [s.startswith(p)] *)
Fixpoint startswith (p s : string) : bool :=
  match p, s with
  | EmptyString, _ => true
  | String _ _, EmptyString => false
  | String a p', String b s' => Ascii.eqb a b && startswith p' s'
  end.

(** [p in s] *)
Fixpoint contains (p s : string) : bool :=
  startswith p s
  || match s with
     | EmptyString => false
     | String _ s' => contains p s'
     end.

(** [bool(s)]: a string is truthy when it is not empty. *)
Definition truthy (s : string) : bool :=
  match s with EmptyString => false | String _ _ => true end.

(** [s[n:]] *)
Fixpoint drop (n : nat) (s : string) : string :=
  match n, s with
  | 0, _ => s
  | S _, EmptyString => EmptyString
  | S n', String _ s' => drop n' s'
  end.

(** [s.split(sep, 1)[1]] when [sep] occurs in [s]: what follows the
    first occurrence of [sep]. *)
Fixpoint after_first (sep s : string) : option string :=
  if startswith sep s then Some (drop (String.length sep) s)
  else match s with
       | EmptyString => None
       | String _ s' => after_first sep s'
       end.

(** [str(n)] for a non-negative [int]. *)
Definition str (n : nat) : string := NilEmpty.string_of_uint (Nat.to_uint n).

(** [sep.join(parts)] *)
Fixpoint join (sep : string) (parts : list string) : string :=
  match parts with
  | [] => EmptyString
  | [p] => p
  | p :: rest => p ++ sep ++ join sep rest
  end.

(** [s.split(sep)] for a non-empty [sep], read left to right: [acc] is
    the piece being collected and [skip] the number of characters of a
    separator just recognised that are still to be passed over. *)
Fixpoint split_from (sep : string) (skip : nat) (acc s : string) : list string :=
  match s with
  | EmptyString => [acc]
  | String c s' =>
      match skip with
      | S k => split_from sep k acc s'
      | 0 =>
          if startswith sep s
          then acc :: split_from sep (String.length sep - 1) EmptyString s'
          else split_from sep 0 (acc ++ String c EmptyString) s'
      end
  end.

Definition split (sep s : string) : list string :=
  split_from sep 0 EmptyString s.

(** [any(w in s for w in words)] *)
Definition any_in (words : list string) (s : string) : bool :=
  existsb (fun w => contains w s) words.

End PyStr.
Import PyStr.

(* ================================================================== *)
(** ** Exceptions, dictionaries, events *)
(* ================================================================== *)

(** The exception classes that matter to the controller. *)
Inductive exception : Type :=
| WaitTimeoutError              (* sr.WaitTimeoutError: nobody spoke in time *)
| UnknownValueError             (* sr.UnknownValueError: speech not understood *)
| RequestError (msg : string)   (* sr.RequestError: recognition service failed *)
| IndexError                    (* list index out of range *)
| OtherError (msg : string).    (* any other exception class, e.g. OSError *)

(** What a call gives back: a value, or an exception that propagates. *)
Inductive result (A : Type) : Type :=
| Ok (a : A)
| Raise (e : exception).
Arguments Ok {A} a.
Arguments Raise {A} e.

(** The order dictionary the three capture flows return.  The keys
    [car_number], [order_id] and [cancelled] exist only in the simple
    flow; every reader goes through [dict.get], which gives [None] for a
    missing key, so a missing key is [None] here. *)
Record order_data : Type := mk_order {
  full_order_text : option string;
  selected_offer : option nat;
  order_phrases : list string;
  car_number : option nat;
  order_id : option string;
  cancelled : option bool
}.

(** The dictionary [handoff_to_operator] builds and puts on the queue. *)
Record operator_record : Type := mk_record {
  h_customer_id : string;
  h_order_id : string;
  h_car_number : option nat;
  h_timestamp : string;
  h_full_order_text : option string;
  h_order_phrases : list string;
  h_selected_offer : option nat;
  h_offer_details : option string;
  h_status : string
}.

(** What the hand-off functions return: the short dictionary of a
    cancelled order, or the operator record. *)
Inductive handoff_info : Type :=
| CancelledInfo (customer_id : string)
| OperatorInfo (r : operator_record).

(** Externally visible actions, in the order they happen. *)
Inductive event : Type :=
| Spoke (text : string)            (* speak(text), menu voice *)
| SpokeOrder (text : string)       (* speak_order(text), order voice *)
| Announcing                       (* announce_offers() starts: the console banner *)
| Listened (r : option string)     (* listen() returned r *)
| Notified (r : operator_record)   (* _notify_operator(r) *)
| NewCustomer (id : string)        (* self.current_customer = id *)
| CustomerDone                     (* self.current_customer = None *)
| Sampled (b : bool).              (* detect_car_approach() returned b *)

(** The mutable fields of [DriveThruSystem] the controller touches, and
    how many times each external function has been called so far. *)
Record State : Type := mk_state {
  _car_number : nat;
  current_customer : option string;
  order_queue : list operator_record;     (* oldest first *)
  n_listen : nat;                         (* recognizer.listen calls *)
  n_continuous : nat;                     (* listen_continuous calls *)
  n_ollama : nat;                         (* ollama_client.generate calls *)
  n_now : nat                             (* datetime.now calls *)
}.

(** The fields fixed by [__init__] from [config.json] and the devices. *)
Record Config : Type := mk_config {
  special_offers : list string;
  simple_flow : bool;
  use_continuous_listening : bool;
  operator_notification : bool;
  microphone : bool;          (* self.microphone is not None *)
  use_whisper : bool;
  whisper_model : bool;       (* self.whisper_model is not None *)
  use_ollama : bool;
  ollama_client : bool        (* self.ollama_client is not None *)
}.

(** What one call of [listen] meets at the microphone and recognizers. *)
Record capture : Type := mk_capture {
  audio : result unit;          (* recognizer.listen(source, ...) *)
  whisper : option string;      (* transcribe(...)["text"]; None: it raised *)
  google : result string        (* recognizer.recognize_google(audio) *)
}.

(** What [ollama_client.generate] returns. *)
Inductive ollama_response : Type :=
| RespDict (response : option string)   (* a dict, with or without 'response' *)
| RespOther (as_str : string).          (* anything else, through str() *)

(** The outside world. *)
Record Env : Type := mk_env {
  mic : nat -> capture;
  continuous : nat -> result (list string);
  ollama : nat -> result ollama_response;
  now : nat -> string
}.

(* ================================================================== *)
(** ** The monad of the controller *)
(* ================================================================== *)

(** A computation: from the fields, a result, the fields afterwards and
    the events produced.  The fields are kept when an exception
    propagates, as in Python. *)
Definition M (A : Type) : Type := State -> result A * State * list event.

Definition ret {A} (a : A) : M A := fun st => (Ok a, st, []).

Definition bind {A B} (m : M A) (f : A -> M B) : M B :=
  fun st =>
    match m st with
    | (Ok a, st1, ev1) =>
        match f a st1 with
        | (r, st2, ev2) => (r, st2, (ev1 ++ ev2)%list)
        end
    | (Raise e, st1, ev1) => (Raise e, st1, ev1)
    end.

Definition raise {A} (e : exception) : M A := fun st => (Raise e, st, []).

Definition emit (e : event) : M unit := fun st => (Ok tt, st, [e]).

Definition gets {A} (f : State -> A) : M A := fun st => (Ok (f st), st, []).

Definition modify (f : State -> State) : M unit := fun st => (Ok tt, f st, []).

(** A value that may be an exception, brought into the monad. *)
Definition lift {A} (r : result A) : M A := fun st => (r, st, []).

Declare Scope monad_scope.
Delimit Scope monad_scope with monad.
Notation "x <- c ;; k" := (bind c (fun x => k))
  (at level 61, c at next level, right associativity) : monad_scope.
Notation "c ;; k" := (bind c (fun _ => k))
  (at level 61, right associativity) : monad_scope.
Open Scope monad_scope.

(** The three components of a run. *)
Definition outcome {A} (x : result A * State * list event) : result A := fst (fst x).
Definition final {A} (x : result A * State * list event) : State := snd (fst x).
Definition events {A} (x : result A * State * list event) : list event := snd x.

(** How a loop body ends: [continue] (or falling off its end), or a
    [return] / [break] carrying a value. *)
Inductive flow (A : Type) : Type :=
| Continue
| Return (a : A).
Arguments Continue {A}.
Arguments Return {A} a.

(** Field updates. *)
Definition set_car_number (n : nat) (st : State) : State :=
  mk_state n (current_customer st) (order_queue st)
           (n_listen st) (n_continuous st) (n_ollama st) (n_now st).
Definition set_current_customer (c : option string) (st : State) : State :=
  mk_state (_car_number st) c (order_queue st)
           (n_listen st) (n_continuous st) (n_ollama st) (n_now st).
Definition queue_put (r : operator_record) (st : State) : State :=
  mk_state (_car_number st) (current_customer st) (order_queue st ++ [r])%list
           (n_listen st) (n_continuous st) (n_ollama st) (n_now st).
Definition tick_listen (st : State) : State :=
  mk_state (_car_number st) (current_customer st) (order_queue st)
           (S (n_listen st)) (n_continuous st) (n_ollama st) (n_now st).
Definition tick_continuous (st : State) : State :=
  mk_state (_car_number st) (current_customer st) (order_queue st)
           (n_listen st) (S (n_continuous st)) (n_ollama st) (n_now st).
Definition tick_ollama (st : State) : State :=
  mk_state (_car_number st) (current_customer st) (order_queue st)
           (n_listen st) (n_continuous st) (S (n_ollama st)) (n_now st).
Definition tick_now (st : State) : State :=
  mk_state (_car_number st) (current_customer st) (order_queue st)
           (n_listen st) (n_continuous st) (n_ollama st) (S (n_now st)).

(* ================================================================== *)
(** ** The controller *)
(* ================================================================== *)

Section Controller.

Variable cfg : Config.
Variable env : Env.

(** [speak]: every failure of the speech engine is caught inside, so the
    caller only ever sees the request go out. *)
Definition speak (text : string) : M unit := emit (Spoke text).

(** [speak_order]: the order voice, or the menu voice when it fails. *)
Definition speak_order (text : string) : M unit := emit (SpokeOrder text).

(** The [try] block of [listen]: capture, then Whisper when enabled
    (any failure of it falls through), then Google. *)
Definition transcribe (c : capture) : result string :=
  match audio c with
  | Raise e => Raise e
  | Ok _ =>
      match (if use_whisper cfg && whisper_model cfg then whisper c else None) with
      | Some text => Ok (strip text)
      | None => google c
      end
  end.

(** The [except] clauses of [listen]. *)
Definition listen_handlers (r : result string) : result (option string) :=
  match r with
  | Ok text => Ok (Some text)
  | Raise WaitTimeoutError => Ok None
  | Raise UnknownValueError => Ok None
  | Raise (RequestError _) => Ok None
  | Raise e => Raise e
  end.

(** [listen(timeout, phrase_time_limit)] *)
Definition listen : M (option string) :=
  if negb (microphone cfg) then
    emit (Listened None) ;; ret None
  else
    n <- gets n_listen ;;
    modify tick_listen ;;
    r <- lift (listen_handlers (transcribe (mic env n))) ;;
    emit (Listened r) ;;
    ret r.

(** [listen_continuous(max_duration)]: its loop runs against the wall
    clock, so its result is taken from the environment. *)
Definition listen_continuous : M (list string) :=
  n <- gets n_continuous ;;
  modify tick_continuous ;;
  lift (continuous env n).

(** [datetime.now()], already formatted. *)
Definition datetime_now : M string :=
  n <- gets n_now ;;
  modify tick_now ;;
  ret (now env n).

(** [_number_to_word] *)
Definition _number_to_word (num : nat) : string :=
  match num with
  | 0 => "zero"
  | 1 => "one" | 2 => "two" | 3 => "three" | 4 => "four"
  | 5 => "five" | 6 => "six" | 7 => "seven" | 8 => "eight"
  | 9 => "nine" | 10 => "ten"
  | _ => str num
  end.

(** [str(i) in text or self._number_to_word(i) in text] *)
Definition mentions (i : nat) (text : string) : bool :=
  contains (str i) text || contains (_number_to_word i) text.

(** [for i in range(1, n + 1): if <mentions i>: selected_offer = i; break] *)
Definition first_mentioned (n : nat) (text : string) : option nat :=
  find (fun i => mentions i text) (seq 1 n).

(** The item text announced for one offer: the [Number N: ] prefix is
    dropped. *)
Definition to_speak (offer : string) : string :=
  let t := strip offer in
  if startswith "number " (lower t) && contains ": " t
  then match after_first ": " t with Some rest => rest | None => t end
  else t.

(** The local constant of [announce_offers] and
    [get_customer_order_simple]. *)
Definition menu_choices : nat := 4.

(** [self.special_offers[:menu_choices] if self.special_offers else []] *)
Definition offers_to_announce : list string := firstn menu_choices (special_offers cfg).

Fixpoint speak_each (texts : list string) : M unit :=
  match texts with
  | [] => ret tt
  | t :: rest => speak t ;; speak_each rest
  end.

(** The fixed sentences of the announcement. *)
Definition greeting : string :=
  "Welcome to KFC drive thru. These are the specials of the day.".
Definition not_configured : string :=
  "I'm sorry, but our menu system is not configured. Please tell our staff member what you'd like to order.".
Definition menu_prompt : string :=
  "Say 1, 2, 3, or 4 for your choice. Say 0 to hear the menu again. Say 6 to cancel your order. I am listening now.".

(** [announce_offers].  The health checks of the pyttsx3 engine between
    two items concern the speech engine and are left out. *)
Definition announce_offers : M unit :=
  emit Announcing ;;
  speak greeting ;;
  match offers_to_announce with
  | [] => speak not_configured
  | offers =>
      speak_each (map to_speak offers) ;;
      speak menu_prompt
  end.

(* ------------------------------------------------------------------ *)
(** *** The simple flow *)

(** The local constant of [get_customer_order_simple]. *)
Definition max_repeats : nat := 3.

(** What is said after a silence, and after an utterance without any
    code. *)
Definition reprompt_silence : string :=
  "Say 1, 2, 3, 4, or 5 to order. Say 0 to repeat the menu. Say 6 to cancel. I am listening now.".
Definition reprompt_unknown : string :=
  "Say 1, 2, 3, 4, or 5 for your choice. Say 0 to hear the menu again. Say 6 to cancel. I am listening now.".

(** The dictionary returned on cancel, and the one returned when the
    loop runs out. *)
Definition cancelled_order : order_data :=
  mk_order None None [] None None (Some true).
Definition no_order : order_data :=
  mk_order None None [] None None (Some false).

(** [response.strip() if response else None], then [if not order_text] *)
Definition order_text_of (response : option string) : option string :=
  match response with
  | Some r => if truthy r then
                (if truthy (strip r) then Some (strip r) else None)
              else None
  | None => None
  end.

(** The test of the [# 0 = repeat menu] branch. *)
Definition asks_repeat (response_lower : string) : bool :=
  contains (str 0) response_lower
  || contains "zero" response_lower
  || (contains "repeat" response_lower && (String.length response_lower <? 15)%nat).

(** The test of the [# 6 = cancel order] branch. *)
Definition asks_cancel (response_lower : string) : bool :=
  contains (str 6) response_lower || contains "six" response_lower.

(** [lst[i]] for [i >= 0] *)
Definition index {A} (l : list A) (i : nat) : result A :=
  match nth_error l i with
  | Some a => Ok a
  | None => Raise IndexError
  end.

(** [offers[selected_offer - 1] if selected_offer and offers else order_text] *)
Definition order_display (order_text : string) (selected : nat) : result string :=
  match selected, offers_to_announce with
  | S i, _ :: _ => index offers_to_announce i
  | _, _ => Ok order_text
  end.

(** What follows a recognised choice: lines 1054-1066. *)
Definition confirm_order (order_text : string) (selected : nat) : M order_data :=
  modify (fun st => set_car_number (_car_number st + 1) st) ;;
  n <- gets _car_number ;;
  speak ("Order confirmed. Car number " ++ _number_to_word n ++ ".") ;;
  order_display <- lift (order_display order_text selected) ;;
  ret (mk_order (Some order_display) (Some selected) [order_display]
                (Some n) (Some ("Car " ++ str n)) (Some false)).

(** One turn of the [for _ in range(max_repeats + 1)] loop. *)
Definition simple_turn : M (flow order_data) :=
  response <- listen ;;
  match order_text_of response with
  | None => speak reprompt_silence ;; ret Continue
  | Some order_text =>
      let response_lower := strip (lower order_text) in
      if asks_repeat response_lower then
        speak "Repeating the menu." ;;
        announce_offers ;;
        ret Continue
      else if asks_cancel response_lower then
        speak "Order cancelled." ;;
        ret (Return cancelled_order)
      else
        match first_mentioned menu_choices response_lower with
        | None => speak reprompt_unknown ;; ret Continue
        | Some selected =>
            d <- confirm_order order_text selected ;;
            ret (Return d)
        end
  end.

(** The loop, with [turns] turns left. *)
Fixpoint simple_loop (turns : nat) : M order_data :=
  match turns with
  | 0 => ret no_order
  | S turns' =>
      f <- simple_turn ;;
      match f with
      | Continue => simple_loop turns'
      | Return d => ret d
      end
  end.

(** [get_customer_order_simple] *)
Definition get_customer_order_simple : M order_data :=
  simple_loop (max_repeats + 1).

(* ------------------------------------------------------------------ *)
(** *** The full flows *)

(** The local constant of [get_customer_order]. *)
Definition max_attempts : nat := 3.

(** How an attempt of [get_customer_order] leaves the loop. *)
Definition continue : bool := false.
Definition break : bool := true.

(** The order text and the offer number [get_customer_order] carries
    from one attempt to the next. *)
Definition heard_so_far : Type := (option string * option nat)%type.

(** One attempt of [get_customer_order]; [attempt] is the loop index.
    The result tells whether the attempt ended in [break], with the
    variables as it leaves them. *)
Definition order_attempt (attempt : nat) (vars : heard_so_far)
  : M (bool * heard_so_far) :=
  let '(order_text, selected) := vars in
  response <- listen ;;
  match response with
  | None =>
      (if (attempt <? max_attempts - 1)%nat
       then speak "I didn't catch that. Could you please tell me your order again?"
       else ret tt) ;;
      ret (continue, vars)
  | Some response =>
      let selected :=
        match first_mentioned (List.length (special_offers cfg)) (lower response) with
        | Some i => Some i
        | None => selected
        end in
      if (attempt <? max_attempts - 1)%nat then
        speak ("I heard: " ++ response ++ ". Is that correct? Say yes to confirm, or tell me if you want to add anything else.") ;;
        confirmation <- listen ;;
        match confirmation with
        | Some (String c0 c') =>
            let confirmation := String c0 c' in
            let conf_lower := lower confirmation in
            if any_in ["yes"; "correct"; "right"; "that's it"; "that's all"] conf_lower then
              speak "Great! Is there anything else you'd like to add to your order?" ;;
              additional <- listen ;;
              match additional with
              | Some (String a0 a') =>
                  let additional := String a0 a' in
                  if any_in ["no"; "that's all"; "nothing"; "no thanks"; "that's it"]
                            (lower additional)
                  then ret (break, (Some response, selected))
                  else ret (break, (Some (response ++ ". " ++ additional), selected))
              | _ => ret (break, (Some response, selected))
              end
            else if any_in ["no"; "wrong"; "change"] conf_lower then
              speak "No problem. Please tell me your order again." ;;
              ret (continue, (Some response, selected))
            else
              ret (break, (Some (response ++ ". " ++ confirmation), selected))
        | _ => ret (continue, (Some response, selected))
        end
      else ret (break, (Some response, selected))
  end.

Fixpoint order_attempts (attempts : list nat) (vars : heard_so_far) : M heard_so_far :=
  match attempts with
  | [] => ret vars
  | attempt :: rest =>
      x <- order_attempt attempt vars ;;
      let '(stop, vars') := x in
      if stop then ret vars' else order_attempts rest vars'
  end.

(** [get_customer_order] *)
Definition get_customer_order : M order_data :=
  vars <- order_attempts (seq 0 max_attempts) (None, None) ;;
  let '(order_text, selected) := vars in
  ret (mk_order order_text selected
         (match order_text with
          | Some (String c t) => split ". " (String c t)
          | _ => []
          end)
         None None None).

(** [response.get('response', '')] for a dict, [str(response)] otherwise. *)
Definition response_text (response : ollama_response) : string :=
  match response with
  | RespDict (Some t) => t
  | RespDict None => EmptyString
  | RespOther s => s
  end.

(** [_process_order_with_ollama]: every exception is caught inside. *)
Definition _process_order_with_ollama (order_text : string) : M string :=
  if ollama_client cfg then
    n <- gets n_ollama ;;
    modify tick_ollama ;;
    match ollama env n with
    | Raise _ => ret order_text
    | Ok response =>
        let processed := strip (response_text response) in
        if truthy processed && negb (String.eqb (lower processed) (lower order_text))
        then ret processed
        else ret order_text
    end
  else ret order_text.

(** [get_customer_order_continuous] *)
Definition get_customer_order_continuous : M order_data :=
  speak "Please tell me your complete order. You can take your time. Say 'done' or 'that's all' when you're finished." ;;
  phrases <- listen_continuous ;;
  match phrases with
  | [] =>
      speak "I didn't catch your order. Let me connect you with our team member." ;;
      ret (mk_order None None [] None None None)
  | _ =>
      let full_order := join ". " phrases in
      let selected :=
        first_mentioned (List.length (special_offers cfg)) (lower full_order) in
      speak ("I captured your order. Let me repeat it back: " ++ full_order ++ ". Is that correct?") ;;
      confirmation <- listen ;;
      (match confirmation with
       | Some (String c0 c') =>
           if any_in ["no"; "wrong"; "change"; "not quite"] (lower (String c0 c'))
           then speak "No problem. Let me connect you with our team member who can help clarify your order."
           else speak "Perfect! I've captured your order."
       | _ => ret tt
       end) ;;
      full_order <-
        (if use_ollama cfg && ollama_client cfg && truthy full_order then
           processed <- _process_order_with_ollama full_order ;;
           ret (if truthy processed then processed else full_order)
         else ret full_order) ;;
      ret (mk_order (Some full_order) selected phrases None None None)
  end.

(* ------------------------------------------------------------------ *)
(** *** Hand-off *)

(** [bool(order_data.get("cancelled"))] *)
Definition is_cancelled (d : order_data) : bool :=
  match cancelled d with Some true => true | _ => false end.

(** [bool(x)] for an optional string. *)
Definition truthy_opt (x : option string) : bool :=
  match x with Some s => truthy s | None => false end.

(** [self.special_offers[selected_offer - 1] if selected_offer else None] *)
Definition offer_details (d : order_data) : result (option string) :=
  match selected_offer d with
  | Some (S i) =>
      match index (special_offers cfg) i with
      | Ok o => Ok (Some o)
      | Raise e => Raise e
      end
  | _ => Ok None
  end.

(** [handoff_to_operator] *)
Definition handoff_to_operator (customer_id : string) (d : order_data) : M handoff_info :=
  if is_cancelled d then ret (CancelledInfo customer_id)
  else
    let order_id :=
      match order_id d with
      | Some (String c s) => String c s
      | _ => customer_id
      end in
    timestamp <- datetime_now ;;
    offer_details <- lift (offer_details d) ;;
    let handoff :=
      mk_record customer_id order_id (car_number d) timestamp
                (full_order_text d) (order_phrases d) (selected_offer d)
                offer_details "ready_for_operator" in
    modify (queue_put handoff) ;;
    (if operator_notification cfg then emit (Notified handoff) else ret tt) ;;
    (if truthy_opt (full_order_text d)
     then speak "Thank you! Your order is on the screen. Our team is preparing it. Please drive to the pick-up window to collect your order and pay."
     else speak "Please drive to the pick-up window. Our team will help you there.") ;;
    ret (OperatorInfo handoff).

(** [handoff_to_operator_simple] *)
Definition handoff_to_operator_simple (customer_id : string) (d : order_data)
  : M handoff_info :=
  if is_cancelled d then ret (CancelledInfo customer_id)
  else
    let text :=
      match full_order_text d with
      | Some (String c s) => String c s
      | _ => "No order captured"
      end in
    speak_order ("Your order is. " ++ text) ;;
    handoff_to_operator customer_id d.

(* ------------------------------------------------------------------ *)
(** *** One customer, and the main loop *)

(** The [if simple_flow: ... else: ...] block of [process_customer]. *)
Definition serve (customer_id : string) : M handoff_info :=
  if simple_flow cfg then
    announce_offers ;;
    d <- get_customer_order_simple ;;
    handoff_to_operator_simple customer_id d
  else
    announce_offers ;;
    d <- (if use_continuous_listening cfg
          then get_customer_order_continuous
          else get_customer_order) ;;
    handoff_to_operator customer_id d.

(** [process_customer] *)
Definition process_customer : M handoff_info :=
  t <- datetime_now ;;
  let customer_id := "CUST_" ++ t in
  modify (set_current_customer (Some customer_id)) ;;
  emit (NewCustomer customer_id) ;;
  info <- serve customer_id ;;
  modify (set_current_customer None) ;;
  emit CustomerDone ;;
  ret info.

(** The [while self.running] loop of [run], over the values
    [detect_car_approach] returns one after the other; the loop ends
    when [self.running] is cleared, here when the samples end. *)
Fixpoint run_loop (samples : list bool) (car_detected : bool) : M unit :=
  match samples with
  | [] => ret tt
  | detected :: rest =>
      emit (Sampled detected) ;;
      if detected then
        if negb car_detected then
          process_customer ;;
          run_loop rest true
        else run_loop rest true
      else run_loop rest false
  end.

(** [run] *)
Definition run (samples : list bool) : M unit := run_loop samples false.

End Controller.

(** A freshly constructed system: [__init__]. *)
Definition init_state : State := mk_state 0 None [] 0 0 0 0.

(* ================================================================== *)
(** ** Concrete worlds, for the examples *)
(* ================================================================== *)

(** The customer says [t] and Google transcribes it. *)
Definition says (t : string) : capture := mk_capture (Ok tt) None (Ok t).

(** Nobody speaks before the timeout. *)
Definition silence : capture :=
  mk_capture (Raise WaitTimeoutError) None (Raise UnknownValueError).

(** The recognition service is unreachable. *)
Definition service_down : capture :=
  mk_capture (Ok tt) None (Raise (RequestError "connection failed")).

(** A dialogue: the captures of the successive [listen] calls, silence
    once they are used up. *)
Definition script (l : list capture) : nat -> capture := fun n => nth n l silence.

Definition menu4 : list string :=
  ["Number 1: Streetwise two"; "Number 2: Zinger burger";
   "Number 3: Family bucket"; "Number 4: Twister wrap"].

(** The defaults of [config.json] with a four-item menu and a microphone. *)
Definition config4 : Config :=
  mk_config menu4 true true true true false false false false.

Definition world (l : list capture) : Env :=
  mk_env (script l) (fun _ => Ok [])
         (fun _ => Raise (OtherError "ollama not running"))
         (fun n => "t" ++ str n).

(* ================================================================== *)
(** ** Vocabulary of the properties *)
(* ================================================================== *)

Definition is_listen (e : event) : bool :=
  match e with Listened _ => true | _ => false end.

Definition is_speech (e : event) : bool :=
  match e with Spoke _ | SpokeOrder _ => true | _ => false end.

Definition is_announcing (e : event) : bool :=
  match e with Announcing => true | _ => false end.

Definition is_new_customer (e : event) : bool :=
  match e with NewCustomer _ => true | _ => false end.

(** The events of a dialogue, as opposed to those of [process_customer]
    and [run] around it. *)
Definition inner (e : event) : bool :=
  match e with
  | NewCustomer _ | CustomerDone | Sampled _ => false
  | _ => true
  end.

(** How many times [listen] returned. *)
Definition listens (evs : list event) : nat := List.length (filter is_listen evs).

(** What was said, in order. *)
Definition spoken (evs : list event) : list event := filter is_speech evs.

(** How many times the menu announcement was started. *)
Definition announcements (evs : list event) : nat :=
  List.length (filter is_announcing evs).

(** How many sessions were opened. *)
Definition sessions_started (evs : list event) : nat :=
  List.length (filter is_new_customer evs).

(** What [announce_offers] says; it reads no mutable field. *)
Definition announcement (cfg : Config) : list event :=
  (Announcing :: Spoke greeting ::
   match offers_to_announce cfg with
   | [] => [Spoke not_configured]
   | offers => map Spoke (map to_speak offers) ++ [Spoke menu_prompt]
   end)%list.

(** The three ways a session ends. *)
Inductive terminal : Type := Confirmed | Cancelled | Abandoned.

(** The terminal state an order dictionary of the simple flow stands for. *)
Definition session_outcome (d : order_data) : terminal :=
  if is_cancelled d then Cancelled
  else match selected_offer d with
       | Some _ => Confirmed
       | None => Abandoned
       end.

(** The terminal state a hand-off result shows. *)
Definition record_outcome (info : handoff_info) : terminal :=
  match info with
  | CancelledInfo _ => Cancelled
  | OperatorInfo r =>
      match h_selected_offer r with
      | Some _ => Confirmed
      | None => Abandoned
      end
  end.

(** The car number a hand-off result carries, if any. *)
Definition carried_number (info : handoff_info) : option nat :=
  match info with
  | CancelledInfo _ => None
  | OperatorInfo r => h_car_number r
  end.

(** The state in which [process_customer] starts its dialogue, and the
    customer id it has made by then. *)
Definition customer_id_at (env : Env) (st : State) : string :=
  "CUST_" ++ now env (n_now st).
Definition arrival (env : Env) (st : State) : State :=
  set_current_customer (Some (customer_id_at env st)) (tick_now st).

(** *** Terminal exclusivity, as the specification words it *)

(** Every completed session puts exactly one record on the queue. *)
Definition one_record_per_session (cfg : Config) (env : Env) (st : State) : Prop :=
  forall info st' evs,
    process_customer cfg env st = (Ok info, st', evs) ->
    exists r, order_queue st' = (order_queue st ++ [r])%list.

(** *** Bounded attempts *)

(** A capture that does not end the session: a timeout, something not
    understood, an unrecognised utterance or a repeat request. *)
Definition keeps_waiting (cfg : Config) (c : capture) : bool :=
  match listen_handlers (transcribe cfg c) with
  | Raise _ => false
  | Ok r =>
      match order_text_of r with
      | None => true
      | Some t =>
          let response_lower := strip (lower t) in
          asks_repeat response_lower
          || (negb (asks_cancel response_lower)
              && match first_mentioned menu_choices response_lower with
                 | None => true
                 | Some _ => false
                 end)
      end
  end.

(** *** Single flight *)

(** The trace shows one session at a time: [active] tells whether a
    session is open, [clear] whether the sensor has read [False] since
    the last session was opened.  A session opens only on a clear lane
    with none open, and the sensor is only read between sessions. *)
Fixpoint single_flight (active clear : bool) (evs : list event) : bool :=
  match evs with
  | [] => true
  | NewCustomer _ :: rest => negb active && clear && single_flight true false rest
  | CustomerDone :: rest => active && single_flight false clear rest
  | Sampled b :: rest => negb active && single_flight active (clear || negb b) rest
  | _ :: rest => single_flight active clear rest
  end.

(** The arrival edges of a sample sequence; [prev] is the sample before. *)
Fixpoint rising_edges (prev : bool) (samples : list bool) : nat :=
  match samples with
  | [] => 0
  | s :: rest => (if s && negb prev then 1 else 0) + rising_edges s rest
  end.

(** *** Code equivalence *)

(** The codes of the menu: repeat, the choices, cancel. *)
Definition codes : list nat := (0 :: seq 1 menu_choices ++ [6])%list.

(** The same world, but the [n]-th capture is [c]. *)
Definition with_capture (env : Env) (n : nat) (c : capture) : Env :=
  mk_env (fun k => if (k =? n)%nat then c else mic env k)
         (continuous env) (ollama env) (now env).

(** [get_customer_order_simple] when the next thing heard is [utterance]. *)
Definition hears (cfg : Config) (env : Env) (st : State) (utterance : string)
  : result order_data * State * list event :=
  get_customer_order_simple cfg (with_capture env (n_listen st) (says utterance)) st.

(** Same returned value, same fields afterwards, same things said. *)
Definition same_transition {A} (x y : result A * State * list event) : Prop :=
  outcome x = outcome y /\ final x = final y /\ spoken (events x) = spoken (events y).

(** The digit string and the number word of code [c], inside the
    carrier text [pre ... post], are interchangeable. *)
Definition code_equivalence (cfg : Config) (env : Env) (st : State)
                            (c : nat) (pre post : string) : Prop :=
  same_transition (hears cfg env st (pre ++ str c ++ post))
                  (hears cfg env st (pre ++ _number_to_word c ++ post)).

(** A test made before the test of code [c] fires on the text. *)
Definition preempted (c : nat) (response_lower : string) : bool :=
  match c with
  | 0 => false
  | 6 => asks_repeat response_lower
  | _ => asks_repeat response_lower
         || asks_cancel response_lower
         || existsb (fun j => mentions j response_lower) (seq 1 (c - 1))
  end.

(** *** The repeat policy, as the specification words it *)

(** [listen] returned a repeat request. *)
Definition is_repeat_request (r : option string) : bool :=
  match order_text_of r with
  | Some t => asks_repeat (strip (lower t))
  | None => false
  end.

(** The events before the next [listen]. *)
Fixpoint until_listen (evs : list event) : list event :=
  match evs with
  | [] => []
  | Listened _ :: _ => []
  | e :: rest => e :: until_listen rest
  end.

(** Modelled on the specification's repeat rule, to be compared with the
    trace of the code: each repeat request increments [used]; while the
    count is below [limit] the menu is announced again before the next
    [listen], and once it is reached nothing more is announced or
    listened to. *)
Fixpoint repeat_policy (limit used : nat) (evs : list event) : bool :=
  match evs with
  | [] => true
  | Listened r :: rest =>
      if is_repeat_request r then
        if (S used <? limit)%nat
        then existsb is_announcing (until_listen rest)
             && existsb is_listen rest
             && repeat_policy limit (S used) rest
        else negb (existsb is_announcing rest) && negb (existsb is_listen rest)
      else repeat_policy limit used rest
  | _ :: rest => repeat_policy limit used rest
  end.

(** *** Listening: time-outs and failures *)

(** The caller of [listen] can tell a time-out from a failure of the
    recognition service. *)
Definition timeout_and_failure_distinguishable (cfg : Config) : Prop :=
  forall env1 env2 st msg,
    audio (mic env1 (n_listen st)) = Raise WaitTimeoutError ->
    transcribe cfg (mic env2 (n_listen st)) = Raise (RequestError msg) ->
    outcome (listen cfg env1 st) <> outcome (listen cfg env2 st).

(** *** Sequence numbers *)

(** Every completed session carries a car number, set before anything
    is announced. *)
Definition numbered_at_arrival (cfg : Config) (env : Env) (st : State) : Prop :=
  forall info st' evs,
    process_customer cfg env st = (Ok info, st', evs) ->
    carried_number info = Some (S (_car_number st)).

(** *** The post-processor *)

(** The same configuration with the post-processor switched off. *)
Definition without_ollama (cfg : Config) : Config :=
  mk_config (special_offers cfg) (simple_flow cfg) (use_continuous_listening cfg)
            (operator_notification cfg) (microphone cfg) (use_whisper cfg)
            (whisper_model cfg) false (ollama_client cfg).

(** The same world with another post-processor behind it. *)
Definition with_ollama (env : Env) (o : nat -> result ollama_response) : Env :=
  mk_env (mic env) (continuous env) o (now env).

(** Everything but the formatted text (and the count of calls to the
    post-processor). *)
Definition forget_record (r : operator_record) : operator_record :=
  mk_record (h_customer_id r) (h_order_id r) (h_car_number r) (h_timestamp r)
            None (h_order_phrases r) (h_selected_offer r) (h_offer_details r)
            (h_status r).
Definition forget_info (i : handoff_info) : handoff_info :=
  match i with
  | CancelledInfo id => CancelledInfo id
  | OperatorInfo r => OperatorInfo (forget_record r)
  end.
Definition forget_event (e : event) : event :=
  match e with
  | Notified r => Notified (forget_record r)
  | e => e
  end.
Definition forget_state (st : State) : State :=
  mk_state (_car_number st) (current_customer st)
           (map forget_record (order_queue st))
           (n_listen st) (n_continuous st) 0 (n_now st).
Definition forget_order (d : order_data) : order_data :=
  mk_order None (selected_offer d) (order_phrases d) (car_number d)
           (order_id d) (cancelled d).
Definition forget {A} (f : A -> A) (x : result A * State * list event)
  : result A * State * list event :=
  (match outcome x with Ok a => Ok (f a) | Raise e => Raise e end,
   forget_state (final x), map forget_event (events x)).

(** *** Car numbers *)

(** What [get_customer_order_simple] guarantees about the dictionary it
    returns; [before] and [after] are the values of [_car_number]. *)
Definition order_invariant (before : nat) (d : order_data) (after : nat) : Prop :=
  match selected_offer d with
  | Some i =>
      1 <= i <= menu_choices /\ car_number d = Some after
      /\ after = S before /\ cancelled d = Some false
  | None => car_number d = None /\ after = before
  end.

(** Four repeat requests in a row. *)
Definition four_zeros : list capture :=
  [says "zero"; says "zero"; says "zero"; says "zero"].


(** What the turn does once code [c] is recognised; nothing in it
    depends on how the code was said. *)
Definition code_transition (cfg : Config) (c : nat) (st : State)
  : result (flow order_data) * State * list event :=
  match c with
  | 0 => (Ok Continue, tick_listen st,
          Spoke "Repeating the menu." :: announcement cfg)
  | 6 => (Ok (Return cancelled_order), tick_listen st, [Spoke "Order cancelled."])
  | _ =>
      match confirm_order cfg EmptyString c (tick_listen st) with
      | (Ok d, st2, said) => (Ok (Return d), st2, said)
      | (Raise e, st2, said) => (Raise e, st2, said)
      end
  end.


(** *** Frames *)

(** [m] respects [P]: [P] relates the fields before and after any run of
    [m], with its events. *)
Definition respects (P : State -> State -> list event -> Prop) {A} (m : M A) : Prop :=
  forall st, P st (final (m st)) (events (m st)).

(** A dialogue leaves the queue and the current customer alone. *)
Definition keeps_queue (st st' : State) (_ : list event) : Prop :=
  order_queue st' = order_queue st /\ current_customer st' = current_customer st.

(** A full-flow dialogue leaves the car number alone. *)
Definition keeps_car_number (st st' : State) (_ : list event) : Prop :=
  _car_number st' = _car_number st.

(** Serving a customer produces dialogue events only. *)
Definition quiet (_ _ : State) (evs : list event) : Prop :=
  forallb inner evs = true.


(** The full flow with continuous listening and the post-processor on. *)
Definition config_full : Config :=
  mk_config menu4 false true true true false false true true.

(** A world for the full flow: what [listen_continuous] returns and what
    the post-processor answers. *)
Definition world_full (l : list capture) (phrases : list string)
                      (answer : result ollama_response) : Env :=
  mk_env (script l) (fun _ => Ok phrases) (fun _ => answer)
         (fun n => "t" ++ str n).


(** A capture [listen] has no handler for: it raises something other
    than the three exceptions of the speech library. *)
Definition unhandled (cfg : Config) (c : capture) : bool :=
  match listen_handlers (transcribe cfg c) with
  | Ok _ => false
  | Raise _ => true
  end.

(** The next [k] captures from [from] on are all handled by [listen]
    (or there is no microphone, and [listen] captures nothing). *)
Definition mic_handled (cfg : Config) (env : Env) (from k : nat) : bool :=
  negb (microphone cfg)
  || forallb (fun n => negb (unhandled cfg (mic env n))) (seq from k).

(** A three-item menu. *)
Definition menu3 : list string :=
  ["Number 1: Streetwise two"; "Number 2: Zinger burger";
   "Number 3: Family bucket"].
Definition config3 : Config :=
  mk_config menu3 true true true true false false false false.

(** [m] returns a result satisfying [Q] after at most [k] calls of
    [listen], whenever the captures those calls consume are handled. *)
Definition returns_within (cfg : Config) (env : Env) (k : nat) {A}
    (Q : A -> Prop) (m : M A) : Prop :=
  forall st, mic_handled cfg env (n_listen st) k = true ->
    exists a st' evs,
      m st = (Ok a, st', evs) /\ Q a
      /\ n_listen st <= n_listen st' <= n_listen st + k
      /\ listens evs <= k.

(** An offer number the menu has. *)
Definition in_menu (cfg : Config) (selected : option nat) : Prop :=
  match selected with
  | Some i => 1 <= i <= List.length (special_offers cfg)
  | None => True
  end.

(** The [listen] calls one attempt of [get_customer_order] can make. *)
Definition attempt_listens (attempt : nat) : nat :=
  if (attempt <? max_attempts - 1)%nat then 3 else 1.

(** What the full flows need from the devices: the continuous capture
    does not raise, and the captures of the [listen] calls that follow
    are handled. *)
Definition devices_handled (cfg : Config) (env : Env) (st : State) : bool :=
  if use_continuous_listening cfg then
    match continuous env (n_continuous st) with
    | Ok _ => mic_handled cfg env (n_listen st) 1
    | Raise _ => false
    end
  else mic_handled cfg env (n_listen st)
         (list_sum (map attempt_listens (seq 0 max_attempts))).

(** The full flow with confirmation questions instead of continuous
    listening. *)
Definition config_questions : Config :=
  mk_config menu3 false false true true false false false false.

(* ------------------------------------------------------------------ *)
(** *** Text handed to the speech engine *)

(** [s.replace(old, new)] for a non-empty [old], read left to right:
    [skip] is the number of characters of an occurrence just replaced
    that are still to be passed over. *)
Fixpoint replace_from (old new : string) (skip : nat) (s : string) : string :=
  match s with
  | EmptyString => EmptyString
  | String c s' =>
      match skip with
      | S k => replace_from old new k s'
      | 0 =>
          if startswith old s
          then new ++ replace_from old new (String.length old - 1) s'
          else String c (replace_from old new 0 s')
      end
  end.

Definition replace (old new s : string) : string := replace_from old new 0 s.

(** [s.split()]: the maximal runs without white space; [acc] is the
    run being collected. *)
Fixpoint words_from (acc s : string) : list string :=
  match s with
  | EmptyString => if truthy acc then [acc] else []
  | String c s' =>
      if is_space c
      then (if truthy acc then acc :: words_from EmptyString s'
            else words_from EmptyString s')
      else words_from (acc ++ String c EmptyString) s'
  end.

Definition words (s : string) : list string := words_from EmptyString s.

(** [_clean_text_for_speech] *)
Definition _clean_text_for_speech (text : string) : string :=
  let text := replace "$" " dollars " text in
  let text := replace " - " ". " text in
  let text := replace ": " ". " text in
  join " " (words text).

(** The one-character string [ch]. *)
Definition char (ch : ascii) : string := String ch EmptyString.

(** [if chunk.strip(): self._sapi_speak_with_retry(chunk.strip())]: the
    text handed to the engine, if any. *)
Definition flush (chunk : string) : list string :=
  if truthy (strip chunk) then [strip chunk] else [].

(** The loop of [_speak_sapi_in_chunks] and of [speak_order]: the texts
    handed to the engine one after the other, as long as the engine
    accepts them; [chunk] is the chunk collected so far. *)
Fixpoint sapi_chunks (max_length : nat) (parts : list string) (chunk : string)
  : list string :=
  match parts with
  | [] => flush chunk
  | part :: rest =>
      if (String.length chunk + String.length part + 2 <=? max_length)%nat
      then sapi_chunks max_length rest (chunk ++ part ++ ". ")
      else (flush chunk ++ sapi_chunks max_length rest (part ++ ". "))%list
  end.

(** [_speak_sapi_in_chunks] *)
Definition _speak_sapi_in_chunks (text : string) (max_length : nat) : list string :=
  sapi_chunks max_length (split ". " text) EmptyString.

(** The local constant of [speak]. *)
Definition SAPI_MAX_CHARS : nat := 80.

(** The Windows SAPI branch of [speak]: what is handed to the engine. *)
Definition sapi_texts (text : string) : list string :=
  let cleaned_text := _clean_text_for_speech text in
  if (SAPI_MAX_CHARS <? String.length cleaned_text)%nat
  then _speak_sapi_in_chunks cleaned_text SAPI_MAX_CHARS
  else [cleaned_text].

(** The values of [chunk] each time the loop of [sapi_chunks] reaches a
    [flush], blank ones included. *)
Fixpoint pieces (max_length : nat) (parts : list string) (chunk : string)
  : list string :=
  match parts with
  | [] => [chunk]
  | part :: rest =>
      if (String.length chunk + String.length part + 2 <=? max_length)%nat
      then pieces max_length rest (chunk ++ part ++ ". ")
      else chunk :: pieces max_length rest (part ++ ". ")
  end.

(* ------------------------------------------------------------------ *)
(** *** The loop of [listen_continuous] *)

(** The local constant of [listen_continuous]. *)
Definition max_silence : nat := 4.

(** The phrases that end a continuous capture. *)
Definition completion_phrases : list string :=
  ["done"; "that's all"; "that's it"; "finished"; "that will be all"; "complete"].

(** The [while] loop of [listen_continuous] over the captures made
    before [max_duration] has passed, one for each iteration. *)
Fixpoint continuous_loop (cfg : Config) (captures : list capture)
    (phrases : list string) (silence_count : nat) : result (list string) :=
  match captures with
  | [] => Ok phrases
  | c :: rest =>
      match transcribe cfg c with
      | Ok text =>
          if any_in completion_phrases (lower text)
          then Ok (phrases ++ [text])%list
          else continuous_loop cfg rest (phrases ++ [text])%list 0
      | Raise WaitTimeoutError =>
          if (max_silence <=? silence_count + 1)%nat then Ok phrases
          else continuous_loop cfg rest phrases (silence_count + 1)
      | Raise UnknownValueError => continuous_loop cfg rest phrases silence_count
      | Raise (RequestError _) => Ok phrases
      | Raise e => Raise e
      end
  end.

(** [listen_continuous(max_duration)], given the captures its loop
    makes before the time is up. *)
Definition listen_continuous_loop (cfg : Config) (captures : list capture)
  : result (list string) :=
  if negb (microphone cfg) then Ok [] else continuous_loop cfg captures [] 0.

(** What is transcribed from a list of captures. *)
Definition transcriptions (cfg : Config) (captures : list capture) : list string :=
  flat_map (fun c => match transcribe cfg c with Ok text => [text] | Raise _ => [] end)
           captures.

(** The capture times out, or is not understood. *)
Definition is_timeout (cfg : Config) (c : capture) : bool :=
  match transcribe cfg c with Raise WaitTimeoutError => true | _ => false end.
Definition is_quiet (cfg : Config) (c : capture) : bool :=
  match transcribe cfg c with
  | Raise WaitTimeoutError | Raise UnknownValueError => true
  | _ => false
  end.

(** The capture is transcribed, and holds no completion phrase. *)
Definition is_phrase (cfg : Config) (c : capture) : bool :=
  match transcribe cfg c with
  | Ok text => negb (any_in completion_phrases (lower text))
  | Raise _ => false
  end.

(** Speech that is not understood. *)
Definition mumble : capture := mk_capture (Ok tt) None (Raise UnknownValueError).

(* ------------------------------------------------------------------ *)
(** *** The voice-only simulation ([simulate_loop.py]) *)

Definition wake_words : list string :=
  ["hello"; "start"; "ready"; "here"; "order"; "hi"; "yes"].
Definition quit_words : list string :=
  ["goodbye"; "exit"; "quit"; "stop"; "done"; "bye"].

Definition voice_intro : string :=
  "Voice only mode. Respond using your voice. Say hello or start when you are ready to order. When I read the menu, say a number or say repeat. Say goodbye or exit when you are done.".
Definition voice_again : string :=
  "Say hello or start when you want to order again. Say goodbye to exit.".
Definition voice_goodbye : string := "Goodbye. Have a nice day.".
Definition voice_unknown : string :=
  "Say hello or start to order, or goodbye to exit.".

(** The [while True] loop of [simulate_car_approach], for at most
    [turns] iterations: [true] when the loop was left by [break],
    [false] when it is still running after [turns] iterations. *)
Fixpoint voice_loop (cfg : Config) (env : Env) (turns : nat) : M bool :=
  match turns with
  | 0 => ret false
  | S turns' =>
      said <- listen cfg env ;;
      match said with
      | None => voice_loop cfg env turns'
      | Some said =>
          let said_lower := strip (lower said) in
          if any_in wake_words said_lower then
            process_customer cfg env ;;
            speak voice_again ;;
            voice_loop cfg env turns'
          else if any_in quit_words said_lower then
            speak voice_goodbye ;;
            ret true
          else
            speak voice_unknown ;;
            voice_loop cfg env turns'
      end
  end.

(** [simulate_car_approach] *)
Definition simulate_car_approach (cfg : Config) (env : Env) (turns : nat) : M bool :=
  speak voice_intro ;;
  voice_loop cfg env turns.

(** [listen] returns [None] on this capture. *)
Definition hears_nothing (cfg : Config) (c : capture) : bool :=
  match listen_handlers (transcribe cfg c) with
  | Ok None => true
  | _ => false
  end.

(* ------------------------------------------------------------------ *)
(** *** The address of the post-processor ([_setup_ollama]) *)

(** [l[0]] and [l[-1]] of the non-empty list a [split] returns. *)
Definition first_part (l : list string) : string := hd EmptyString l.
Definition last_part (l : list string) : string := last l EmptyString.

(** The [host:port] string [_setup_ollama] hands to [ollama.Client]. *)
Definition ollama_address (base_url : string) : string :=
  let host :=
    first_part (split ":" (replace "https://" EmptyString
                             (replace "http://" EmptyString base_url))) in
  let port :=
    if contains ":" base_url then last_part (split ":" base_url) else "11434" in
  host ++ ":" ++ port.

(* ------------------------------------------------------------------ *)
(** *** The configuration dictionary ([_load_config]) *)

(** What [json.load] can return; a number is kept as its literal. *)
#[warnings="-register-all"] Inductive json : Type :=
| JNull
| JBool (b : bool)
| JNumber (literal : string)
| JString (s : string)
| JArray (items : list json)
| JObject (members : list (string * json)).

(** A [dict] as the program reads it: the values under its string
    keys, in insertion order.  Every look-up in the configuration is by
    a string literal, so an entry stored under a key of another type (a
    number, a boolean, [None]) is not kept here. *)
Definition dict : Type := list (string * json).

(** [d.get(k)] *)
Fixpoint dict_get (d : dict) (k : string) : option json :=
  match d with
  | [] => None
  | (k', v) :: d' => if String.eqb k k' then Some v else dict_get d' k
  end.

(** [d[k] = v] for a string [k] *)
Fixpoint dict_set (d : dict) (k : string) (v : json) : dict :=
  match d with
  | [] => [(k, v)]
  | (k', v') :: d' =>
      if String.eqb k k' then (k', v) :: d' else (k', v') :: dict_set d' k v
  end.

(** [d.get(k, default)] *)
Definition dict_get_default (d : dict) (k : string) (default : json) : json :=
  match dict_get d k with
  | Some v => v
  | None => default
  end.

(** The dictionary [json.load] builds from the members of an object:
    a name written twice keeps its first place and its last value. *)
Definition dict_of (members : list (string * json)) : dict :=
  fold_left (fun d kv => dict_set d (fst kv) (snd kv)) members [].

(** The one-character strings [iter(s)] yields. *)
Fixpoint characters (s : string) : list json :=
  match s with
  | EmptyString => []
  | String c s' => JString (String c EmptyString) :: characters s'
  end.

(** What [dict.update] makes of one element of a sequence: the list of
    what iterating the element yields (the items of a list, the
    characters of a string, the keys of a dictionary); [None] stands
    for the [TypeError] of an element that cannot be iterated. *)
Definition sequence_of (item : json) : option (list json) :=
  match item with
  | JArray items => Some items
  | JString s => Some (characters s)
  | JObject members => Some (map (fun kv => JString (fst kv)) (dict_of members))
  | JNull | JBool _ | JNumber _ => None
  end.

(** [d[key] = value]; [None] stands for the [TypeError] of a key that
    cannot be hashed. *)
Definition dict_setitem (d : dict) (key value : json) : option dict :=
  match key with
  | JString k => Some (dict_set d k value)
  | JNull | JBool _ | JNumber _ => Some d
  | JArray _ | JObject _ => None
  end.

(** [d.update(items)] for a sequence: the pairs are stored one after
    the other; the first element that is not a pair, or whose key
    cannot be hashed, raises, and what was stored before it stays.
    The result is the dictionary afterwards and whether [update]
    returned. *)
Fixpoint update_from_sequence (d : dict) (items : list json) : dict * bool :=
  match items with
  | [] => (d, true)
  | item :: rest =>
      match sequence_of item with
      | Some [key; value] =>
          match dict_setitem d key value with
          | Some d' => update_from_sequence d' rest
          | None => (d, false)
          end
      | _ => (d, false)
      end
  end.

(** [d.update(other)] for whatever [json.load] returned: a mapping is
    merged, a list or a string is read as a sequence of pairs, anything
    else raises at once. *)
Definition dict_update (d : dict) (other : json) : dict * bool :=
  match other with
  | JObject members =>
      (fold_left (fun d kv => dict_set d (fst kv) (snd kv)) (dict_of members) d, true)
  | JArray items => update_from_sequence d items
  | JString s => update_from_sequence d (characters s)
  | JNull | JBool _ | JNumber _ => (d, false)
  end.

Definition default_config : dict :=
  [("special_offers", JArray []);
   ("loop_detector_pin", JNumber "18");
   ("detection_interval", JNumber "3.0");
   ("voice_timeout", JNumber "8.0");
   ("operator_notification", JBool true);
   ("use_raspberry_pi", JBool true);
   ("use_ollama_whisper", JBool false);
   ("whisper_model", JString "base");
   ("use_ollama_for_processing", JBool false);
   ("ollama_base_url", JString "http://localhost:11434");
   ("ollama_model", JString "llama2")].

(** [_load_config]: [file] is [None] when the file does not exist,
    [Some (Raise e)] when opening or parsing it raises, [Some (Ok j)]
    when [json.load] returns [j].  [update] runs inside the [try]: when
    it raises, the exception is caught like the others, and the
    defaults are returned with what [update] had stored by then. *)
Definition _load_config (file : option (result json)) : dict :=
  match file with
  | Some (Ok config) => fst (dict_update default_config config)
  | _ => default_config
  end.

(** Some element that [update] may store under the key [k]. *)
Definition binds_key (config : json) (k : string) : bool :=
  match config with
  | JObject members => existsb (fun kv => String.eqb k (fst kv)) members
  | JArray items =>
      existsb (fun item =>
                 match sequence_of item with
                 | Some (JString k' :: _) => String.eqb k k'
                 | _ => false
                 end) items
  | _ => false
  end.

(* ------------------------------------------------------------------ *)
(** *** The drawing simulation ([car_simulation.py]) *)

Definition MENU_CHOICES : nat := 4.

Definition MENU_ITEMS : list string :=
  ["Streetwise 2 plus coleslaw - 350 KES";
   "Mango crusher - 450 KES";
   "Zinger burger with 350ml coke - 500 KES";
   "Speak to Cashier"].

(** [s[:n]] *)
Fixpoint take (n : nat) (s : string) : string :=
  match n, s with
  | 0, _ => EmptyString
  | S _, EmptyString => EmptyString
  | S n', String c s' => String c (take n' s')
  end.

(** The label of one offer: its first and last [ - ] segments, or its
    first 45 characters. *)
Definition menu_label (o : string) : string :=
  if contains " - " o then
    let parts := split " - " o in
    if (2 <=? List.length parts)%nat
    then first_part parts ++ " - " ++ last_part parts
    else take 45 o
  else take 45 o.

(** [load_menu_from_config]: [data] is what [data.get("special_offers")]
    finds in the file, [Raise] when the file cannot be read. *)
Definition load_menu_from_config (data : result (option (list string)))
  : list string :=
  match data with
  | Ok (Some (o :: offers)) => map menu_label (firstn MENU_CHOICES (o :: offers))
  | _ => MENU_ITEMS
  end.

(** The fields of [DriveThruSimulation] that [add_to_order] and [reset]
    write, the widgets left out. *)
Record simulation : Type := mk_simulation {
  menu_items : list string;
  sim_car_number : nat;
  order_items : list (nat * string);
  order_confirmed : bool;
  client_response : string
}.

Definition quote : string := String (ascii_of_nat 34) EmptyString.

(** [add_to_order(index)] for a button index. *)
Definition add_to_order (index : nat) (sim : simulation) : simulation :=
  let name :=
    match nth_error (menu_items sim) index with
    | Some name => name
    | None => "Item " ++ str (index + 1)
    end in
  mk_simulation
    (menu_items sim)
    (match sim_car_number sim with 0 => 1 | n => n end)
    (order_items sim ++ [(index, name)])
    true
    (if (String.length name <=? 30)%nat
     then quote ++ name ++ quote
     else quote ++ "Number " ++ str (index + 1) ++ quote).

(** [reset] *)
Definition reset (sim : simulation) : simulation :=
  mk_simulation (menu_items sim) 0 [] false EmptyString.

(** The car numbers on the records of a queue, in queue order. *)
Definition car_numbers (q : list operator_record) : list nat :=
  flat_map (fun r => match h_car_number r with Some n => [n] | None => [] end) q.

(** [detect_car_approach]: [gpio] tells whether the Raspberry Pi pins
    are in use ([use_raspberry_pi and GPIO_AVAILABLE]), [pin_high]
    whether the loop detector pin reads high. *)
Definition detect_car_approach (gpio pin_high : bool) : bool :=
  if gpio then pin_high else false.

(** Nothing is heard during the order dialogue of a full flow: the
    continuous capture comes back empty, or every attempt of
    [get_customer_order] ends without an utterance. *)
Definition nothing_heard (cfg : Config) (env : Env) (st : State) : bool :=
  if use_continuous_listening cfg then
    match continuous env (n_continuous st) with
    | Ok [] => true
    | _ => false
    end
  else
    negb (microphone cfg)
    || forallb (fun k => hears_nothing cfg (mic env (n_listen st + k)))
               (seq 0 max_attempts).

(** What [get_customer_order] says after a silent attempt. *)
Definition didnt_catch : string :=
  "I didn't catch that. Could you please tell me your order again?".

(* ------------------------------------------------------------------ *)
(** *** Choosing the voices ([_setup_tts], Windows SAPI) *)

(** What [_setup_tts] reads of an installed voice. *)
Record voice : Type := mk_voice {
  description : string;
  gender : string;
  language : string
}.

(** The score of one voice in the search for the menu voice;
    [lang_pref] is the lowercased [voice_language_preference]. *)
Definition voice_score (lang_pref : string) (v : voice) : nat :=
  let voice_name := lower (description v) in
  let language := lower (language v) in
  (if contains "female" voice_name || contains "woman" voice_name
      || String.eqb (gender v) "Female"
   then 10 else 0)
  + (if contains lang_pref language then 20
     else if contains "ke" language || contains "kenya" language then 15
     else if contains "africa" voice_name || contains "african" language then 10
     else 0)
  + (if contains "zira" voice_name then 5 else 0).

(** The search loop, with the best voice and the best score so far. *)
Fixpoint best_voice_from (lang_pref : string) (voices : list voice)
    (best_voice : option voice) (best_score : nat) : option voice :=
  match voices with
  | [] => best_voice
  | v :: rest =>
      let score := voice_score lang_pref v in
      if (best_score <? score)%nat
      then best_voice_from lang_pref rest (Some v) score
      else best_voice_from lang_pref rest best_voice best_score
  end.

(** The first voice whose description holds [name], in any letter case. *)
Definition voice_named (name : string) (voices : list voice) : option voice :=
  find (fun v => contains (lower name) (lower (description v))) voices.

(** The menu voice: the configured one when it is installed, the best
    scoring one otherwise; [None] leaves the default voice. *)
Definition menu_voice (voice_name : option string) (lang_pref : string)
    (voices : list voice) : option voice :=
  match (match voice_name with
         | Some (String c s) => voice_named (String c s) voices
         | _ => None
         end) with
  | Some v => Some v
  | None => best_voice_from lang_pref voices None 0
  end.

(** The test of the search for a male voice. *)
Definition sounds_male (v : voice) : bool :=
  contains "male" (lower (description v)) || contains "david" (lower (description v)).

(** The voice of the order read-back: the configured one, or else the
    first male one; [None] when no name is configured, when there is a
    single voice, or when nothing is found. *)
Definition order_voice (order_voice_name : option string) (voices : list voice)
  : option voice :=
  match order_voice_name with
  | Some (String c s) =>
      if (1 <? List.length voices)%nat then
        match voice_named (String c s) voices with
        | Some v => Some v
        | None => find sounds_male voices
        end
      else None
  | _ => None
  end.

(** *** Bounded attempts and command order, as the claims word them *)

(** Whatever is heard that does not end the session, the order function
    returns with no more menu announcements than the number of repeats
    its constant [max_repeats] names. *)
Definition terminal_within_repeats (cfg : Config) (env : Env) (st : State) : Prop :=
  (forall n, keeps_waiting cfg (mic env n) = true) ->
  exists d,
    outcome (get_customer_order_simple cfg env st) = Ok d
    /\ announcements (events (get_customer_order_simple cfg env st)) <= max_repeats.

(** An utterance without "0" and without "zero" that contains "6" or
    "six" cancels the order. *)
Definition cancel_when_no_zero (cfg : Config) (env : Env) (st : State)
    (response : string) : Prop :=
  outcome (listen cfg env st) = Ok (Some response) ->
  contains "0" (lower response) || contains "zero" (lower response) = false ->
  contains "6" (lower response) || contains "six" (lower response) = true ->
  outcome (simple_turn cfg env st) = Ok (Return cancelled_order).

(** A pattern without white space: [strip] cannot cut into it. *)
Fixpoint solid (p : string) : bool :=
  match p with
  | EmptyString => true
  | String c p' => negb (is_space c) && solid p'
  end.

(** [response_lower] as [get_customer_order_simple] computes it from
    what [listen] returned. *)
Definition response_lower_of (response : string) : string :=
  strip (lower (strip response)).

(* ================================================================== *)
(** ** Facts about the string operations *)
(* ================================================================== *)

Lemma append_nil_r (s : string) : s ++ EmptyString = s.
Proof. induction s as [|c s IH]; simpl; [reflexivity | now rewrite IH]. Qed.

Lemma append_assoc (a b c : string) : (a ++ b) ++ c = a ++ b ++ c.
Proof. induction a as [|x a IH]; simpl; [reflexivity | now rewrite IH]. Qed.

Lemma startswith_app (p s : string) : startswith p (p ++ s) = true.
Proof.
  induction p as [|c p IH]; simpl; [reflexivity|].
  now rewrite Ascii.eqb_refl, IH.
Qed.

Lemma startswith_split (p s : string) :
  startswith p s = true -> exists b, s = p ++ b.
Proof.
  revert s; induction p as [|c p IH]; intros s H.
  - now exists s.
  - destruct s as [|d s]; simpl in H; [discriminate|].
    apply andb_true_iff in H as [Hc Hp].
    apply Ascii.eqb_eq in Hc; subst d.
    destruct (IH _ Hp) as [b ->]. now exists b.
Qed.

Lemma contains_startswith (p s : string) :
  startswith p s = true -> contains p s = true.
Proof. intros H. destruct s; simpl; now rewrite H. Qed.

Lemma contains_app (p a b : string) : contains p (a ++ p ++ b) = true.
Proof.
  induction a as [|c a IH]; simpl.
  - apply contains_startswith, startswith_app.
  - rewrite IH. apply orb_true_r.
Qed.

Lemma contains_split (p s : string) :
  contains p s = true -> exists a b, s = a ++ p ++ b.
Proof.
  induction s as [|c s IH]; simpl; intros H.
  - rewrite orb_false_r in H. apply startswith_split in H as [b ->].
    now exists EmptyString, b.
  - apply orb_true_iff in H as [H|H].
    + apply startswith_split in H as [b ->]. now exists EmptyString, b.
    + destruct (IH H) as (a & b & ->). now exists (String c a), b.
Qed.

Lemma contains_truthy (p s : string) :
  contains p s = true -> truthy p = true -> truthy s = true.
Proof.
  intros H Hp. apply contains_split in H as (a & b & ->).
  destruct a; [|reflexivity]. destruct p; [discriminate|reflexivity].
Qed.

Lemma lower_app (a b : string) : lower (a ++ b) = lower a ++ lower b.
Proof. induction a as [|c a IH]; simpl; [reflexivity | now rewrite IH]. Qed.

Lemma is_space_lower_char (c : ascii) : is_space (lower_char c) = is_space c.
Proof.
  destruct c as [[] [] [] [] [] [] [] []]; vm_compute; reflexivity.
Qed.

Lemma lstrip_lower (s : string) : lstrip (lower s) = lower (lstrip s).
Proof.
  induction s as [|c s IH]; simpl; [reflexivity|].
  rewrite is_space_lower_char. destruct (is_space c); [assumption|reflexivity].
Qed.

Lemma rstrip_lower (s : string) : rstrip (lower s) = lower (rstrip s).
Proof.
  induction s as [|c s IH]; simpl; [reflexivity|].
  rewrite IH, is_space_lower_char.
  destruct (rstrip s); simpl; [destruct (is_space c)|]; reflexivity.
Qed.

Lemma strip_lower (s : string) : strip (lower s) = lower (strip s).
Proof. unfold strip. now rewrite lstrip_lower, rstrip_lower. Qed.

Lemma rstrip_solid (p b : string) :
  solid p = true -> rstrip (p ++ b) = p ++ rstrip b.
Proof.
  induction p as [|c p IH]; simpl; intros H; [reflexivity|].
  apply andb_true_iff in H as [Hc Hp].
  rewrite (IH Hp). apply negb_true_iff in Hc. rewrite Hc.
  destruct (p ++ rstrip b); reflexivity.
Qed.

Lemma rstrip_app (a x : string) :
  truthy (rstrip x) = true -> rstrip (a ++ x) = a ++ rstrip x.
Proof.
  intros H. induction a as [|c a IH]; simpl; [reflexivity|].
  rewrite IH. destruct (a ++ rstrip x) eqn:E; [|reflexivity].
  destruct a; simpl in E; [|discriminate].
  rewrite E in H. discriminate.
Qed.

Lemma lstrip_keeps (p a b : string) :
  solid p = true -> truthy p = true ->
  exists a', lstrip (a ++ p ++ b) = a' ++ p ++ b.
Proof.
  intros Hs Hp. induction a as [|c a IH]; simpl.
  - exists EmptyString. destruct p as [|d p]; [discriminate|].
    simpl in *. apply andb_true_iff in Hs as [Hd _].
    apply negb_true_iff in Hd. now rewrite Hd.
  - destruct (is_space c); [exact IH|]. now exists (String c a).
Qed.

(** [strip] keeps every occurrence of a pattern without white space. *)
Lemma contains_strip (p s : string) :
  solid p = true -> truthy p = true ->
  contains p s = true -> contains p (strip s) = true.
Proof.
  intros Hs Hp H. apply contains_split in H as (a & b & ->).
  unfold strip. destruct (lstrip_keeps p a b Hs Hp) as [a' ->].
  assert (E : rstrip (p ++ b) = p ++ rstrip b) by now apply rstrip_solid.
  rewrite rstrip_app; rewrite E.
  - apply contains_app.
  - destruct p; [discriminate|reflexivity].
Qed.

(** A pattern found in the lowercased utterance is found in
    [response_lower]. *)
Lemma contains_response_lower (p response : string) :
  solid p = true -> truthy p = true ->
  contains p (lower response) = true ->
  contains p (response_lower_of response) = true.
Proof.
  intros Hs Hp H. unfold response_lower_of.
  rewrite <- strip_lower.
  apply contains_strip; trivial. apply contains_strip; trivial.
Qed.

(** Such an utterance survives [strip]: it counts as an order text. *)
Lemma truthy_strip (p response : string) :
  solid p = true -> truthy p = true ->
  contains p (lower response) = true ->
  truthy response = true /\ truthy (strip response) = true.
Proof.
  intros Hs Hp H.
  assert (H1 : contains p (lower (strip response)) = true)
    by (rewrite <- strip_lower; apply contains_strip; trivial).
  destruct p as [|c p]; [discriminate|].
  split.
  - destruct response; [discriminate H|reflexivity].
  - destruct (strip response); [discriminate H1|reflexivity].
Qed.

(* ================================================================== *)
(** ** Facts about the monad *)
(* ================================================================== *)

Section MonadFacts.
Context {A B : Type}.

Lemma bind_ok (m : M A) (f : A -> M B) st a st1 e1 :
  m st = (Ok a, st1, e1) ->
  bind m f st =
  (outcome (f a st1), final (f a st1), (e1 ++ events (f a st1))%list).
Proof.
  unfold bind, outcome, final, events. intros ->.
  now destruct (f a st1) as [[r s] e].
Qed.

Lemma bind_raise (m : M A) (f : A -> M B) st x st1 e1 :
  m st = (Raise x, st1, e1) -> bind m f st = (Raise x, st1, e1).
Proof. unfold bind. now intros ->. Qed.

Lemma bind_inv_ok (m : M A) (f : A -> M B) st b st2 evs :
  bind m f st = (Ok b, st2, evs) ->
  exists a st1 e1 e2,
    m st = (Ok a, st1, e1) /\ f a st1 = (Ok b, st2, e2) /\ evs = (e1 ++ e2)%list.
Proof.
  unfold bind. destruct (m st) as [[[a|x] st1] e1]; [|discriminate].
  destruct (f a st1) as [[r s] e2] eqn:E. intros [= -> -> <-].
  now exists a, st1, e1, e2.
Qed.

Lemma run_eta (x : result A * State * list event) :
  x = (outcome x, final x, events x).
Proof. now destruct x as [[r s] e]. Qed.

End MonadFacts.

(* ================================================================== *)
(** ** What each function of the controller does, step by step *)
(* ================================================================== *)

Section Runs.
Variable cfg : Config.
Variable env : Env.

Lemma speak_each_run texts st :
  speak_each texts st = (Ok tt, st, map Spoke texts).
Proof.
  induction texts as [|t r IH]; [reflexivity|].
  simpl. unfold bind, speak, emit. now rewrite IH.
Qed.

Lemma announce_offers_run st :
  announce_offers cfg st = (Ok tt, st, announcement cfg).
Proof.
  unfold announce_offers, announcement, bind, speak, emit.
  destruct (offers_to_announce cfg) as [|o os]; [reflexivity|].
  rewrite speak_each_run. reflexivity.
Qed.

Lemma listen_run st :
  listen cfg env st =
  if microphone cfg then
    match listen_handlers (transcribe cfg (mic env (n_listen st))) with
    | Ok r => (Ok r, tick_listen st, [Listened r])
    | Raise e => (Raise e, tick_listen st, [])
    end
  else (Ok None, st, [Listened None]).
Proof.
  unfold listen. destruct (microphone cfg); simpl; [|reflexivity].
  unfold bind, gets, modify, lift, emit, ret; simpl.
  destruct (listen_handlers _); reflexivity.
Qed.

Lemma confirm_order_run order_text selected st :
  confirm_order cfg order_text selected st =
  let n := _car_number st + 1 in
  let said := [Spoke ("Order confirmed. Car number " ++ _number_to_word n ++ ".")] in
  match order_display cfg order_text selected with
  | Ok o =>
      (Ok (mk_order (Some o) (Some selected) [o] (Some n)
                    (Some ("Car " ++ str n)) (Some false)),
       set_car_number n st, said)
  | Raise e => (Raise e, set_car_number n st, said)
  end.
Proof.
  unfold confirm_order, bind, modify, gets, speak, emit, lift, ret; simpl.
  destruct (order_display cfg order_text selected); reflexivity.
Qed.

(** One turn of the simple flow, case by case. *)
Lemma simple_turn_run st :
  simple_turn cfg env st =
  match listen cfg env st with
  | (Raise e, st1, heard) => (Raise e, st1, heard)
  | (Ok response, st1, heard) =>
      match order_text_of response with
      | None => (Ok Continue, st1, heard ++ [Spoke reprompt_silence])
      | Some order_text =>
          let response_lower := strip (lower order_text) in
          if asks_repeat response_lower then
            (Ok Continue, st1,
             heard ++ Spoke "Repeating the menu." :: announcement cfg)
          else if asks_cancel response_lower then
            (Ok (Return cancelled_order), st1, heard ++ [Spoke "Order cancelled."])
          else
            match first_mentioned menu_choices response_lower with
            | None => (Ok Continue, st1, heard ++ [Spoke reprompt_unknown])
            | Some selected =>
                match confirm_order cfg order_text selected st1 with
                | (Ok d, st2, said) => (Ok (Return d), st2, heard ++ said)
                | (Raise e, st2, said) => (Raise e, st2, heard ++ said)
                end
            end
      end
  end%list.
Proof.
  unfold simple_turn at 1. unfold bind at 1.
  destruct (listen cfg env st) as [[[response|e] st1] heard]; [|reflexivity].
  destruct (order_text_of response) as [order_text|]; [|reflexivity].
  simpl. destruct (asks_repeat _).
  { unfold bind, speak, emit, ret. rewrite announce_offers_run.
    simpl. now rewrite app_nil_r. }
  destruct (asks_cancel _); [reflexivity|].
  destruct (first_mentioned _ _) as [selected|]; [|reflexivity].
  unfold bind, ret.
  destruct (confirm_order cfg order_text selected st1) as [[[d|e] st2] said];
    [now rewrite app_nil_r | reflexivity].
Qed.

Lemma simple_loop_step turns st :
  simple_loop cfg env (S turns) st =
  match simple_turn cfg env st with
  | (Ok Continue, st1, e1) =>
      let x := simple_loop cfg env turns st1 in
      (outcome x, final x, e1 ++ events x)
  | (Ok (Return d), st1, e1) => (Ok d, st1, e1)
  | (Raise e, st1, e1) => (Raise e, st1, e1)
  end%list.
Proof.
  simpl. unfold bind at 1.
  destruct (simple_turn cfg env st) as [[[[|d]|e] st1] e1]; try reflexivity.
  - unfold outcome, final, events. now destruct (simple_loop cfg env turns st1) as [[r s] ev].
  - unfold ret. now rewrite app_nil_r.
Qed.

End Runs.


(* ================================================================== *)
(** ** Scenarios *)
(* ================================================================== *)

(** "zero", then "two": the menu is repeated once and item 2 is ordered. *)
Example scenario_repeat_then_two :
  let x := get_customer_order_simple config4 (world [says "zero"; says "two"]) init_state in
  outcome x = Ok (mk_order (Some "Number 2: Zinger burger") (Some 2)
                           ["Number 2: Zinger burger"] (Some 1) (Some "Car 1")
                           (Some false))
  /\ announcements (events x) = 1 /\ listens (events x) = 2.
Proof. vm_compute. repeat split. Qed.

(** "six" on the first attempt: cancelled at once. *)
Example scenario_cancel :
  let x := get_customer_order_simple config4 (world [says "six"]) init_state in
  outcome x = Ok cancelled_order /\ listens (events x) = 1
  /\ final x = tick_listen init_state.
Proof. vm_compute. repeat split. Qed.

(** Nobody speaks: abandoned after four listen cycles, and handed to the
    operator without an order. *)
Example scenario_silence :
  let x := process_customer config4 (world []) init_state in
  listens (events x) = 4
  /\ List.length (order_queue (final x)) = 1
  /\ option_map record_outcome
       (match outcome x with Ok i => Some i | Raise _ => None end) = Some Abandoned.
Proof. vm_compute. repeat split. Qed.

(** A menu of three items and a customer who asks for the fourth. *)
Example scenario_missing_item :
  let cfg := mk_config ["A"; "B"; "C"] true true true true false false false false in
  let x := process_customer cfg (world [says "four"]) init_state in
  outcome x = Raise IndexError
  /\ order_queue (final x) = []
  /\ _car_number (final x) = 1.
Proof. vm_compute. repeat split. Qed.

(* ================================================================== *)
(** ** Counting events *)
(* ================================================================== *)

Section Counting.
Variable p : event -> bool.

Lemma count_app (a b : list event) :
  List.length (filter p (a ++ b)) = List.length (filter p a) + List.length (filter p b).
Proof. now rewrite filter_app, length_app. Qed.

Lemma count_cons e (r : list event) :
  List.length (filter p (e :: r)) = (if p e then 1 else 0) + List.length (filter p r).
Proof. simpl. now destruct (p e). Qed.

Lemma count_map_Spoke texts :
  (forall t, p (Spoke t) = false) -> List.length (filter p (map Spoke texts)) = 0.
Proof.
  intros H. induction texts as [|t r IH]; [reflexivity|].
  simpl. now rewrite H.
Qed.
End Counting.

(** Unfold the components of a run and compute. *)
Ltac run_simpl :=
  unfold outcome, final, events, listens, announcements, spoken in *; simpl in *.

(* ================================================================== *)
(** ** The simple flow: bounded attempts *)
(* ================================================================== *)

Section SimpleFlow.
Variable cfg : Config.
Variable env : Env.

Lemma listens_app a b : listens (a ++ b) = listens a + listens b.
Proof. apply count_app. Qed.

Lemma announcements_app a b : announcements (a ++ b) = announcements a + announcements b.
Proof. apply count_app. Qed.

Lemma listens_announcement : listens (announcement cfg) = 0.
Proof.
  unfold announcement, listens.
  destruct (offers_to_announce cfg); [reflexivity|].
  rewrite !count_cons, count_app, count_map_Spoke; reflexivity.
Qed.

Lemma announcements_announcement : announcements (announcement cfg) = 1.
Proof.
  unfold announcement, announcements.
  destruct (offers_to_announce cfg); [reflexivity|].
  rewrite !count_cons, count_app, count_map_Spoke; reflexivity.
Qed.

(** What a turn can do to the counters. *)
Lemma simple_turn_counts st :
  let x := simple_turn cfg env st in
  listens (events x) <= 1 /\ announcements (events x) <= 1
  /\ n_listen (final x) <= S (n_listen st).
Proof.
  cbv zeta. rewrite simple_turn_run, listen_run.
  assert (Hrep : forall r,
    listens (Listened r :: Spoke "Repeating the menu." :: announcement cfg) = 1
    /\ announcements (Listened r :: Spoke "Repeating the menu." :: announcement cfg) = 1).
  { intros r. unfold listens, announcements. rewrite !count_cons.
    fold (listens (announcement cfg)) (announcements (announcement cfg)).
    now rewrite listens_announcement, announcements_announcement. }
  destruct (microphone cfg).
  - destruct (listen_handlers _) as [r|e]; [|run_simpl; lia].
    destruct (order_text_of r) as [t|]; [|run_simpl; lia].
    cbv zeta. destruct (asks_repeat _).
    { unfold events, final; simpl snd; simpl fst. simpl app.
      destruct (Hrep r) as [-> ->]. simpl; lia. }
    destruct (asks_cancel _); [run_simpl; lia|].
    destruct (first_mentioned _ _) as [sel|]; [|run_simpl; lia].
    rewrite confirm_order_run. cbv zeta.
    destruct (order_display _ _ _); run_simpl; lia.
  - run_simpl; lia.
Qed.

Lemma simple_loop_bound turns st :
  let x := simple_loop cfg env turns st in
  listens (events x) <= turns /\ announcements (events x) <= turns
  /\ n_listen (final x) <= n_listen st + turns.
Proof.
  revert st. induction turns as [|turns IH]; intros st; cbv zeta.
  - run_simpl; lia.
  - rewrite simple_loop_step.
    pose proof (simple_turn_counts st) as H. cbv zeta in H.
    destruct (simple_turn cfg env st) as [[[[|d]|e] st1] e1];
      unfold final, events in H; simpl in H.
    + specialize (IH st1). cbv zeta in IH.
      destruct (simple_loop cfg env turns st1) as [[r s] ev].
      unfold outcome, final, events in *; simpl fst in *; simpl snd in *.
      rewrite listens_app, announcements_app. lia.
    + unfold final, events; simpl; lia.
    + unfold final, events; simpl; lia.
Qed.

Lemma waiting_turn st :
  keeps_waiting cfg (mic env (n_listen st)) = true ->
  exists st1 e1,
    simple_turn cfg env st = (Ok Continue, st1, e1) /\ listens e1 = 1.
Proof.
  intros H. rewrite simple_turn_run, listen_run. unfold keeps_waiting in H.
  assert (Hrep : forall r,
    listens (Listened r :: Spoke "Repeating the menu." :: announcement cfg) = 1).
  { intros r. unfold listens. rewrite !count_cons.
    fold (listens (announcement cfg)). now rewrite listens_announcement. }
  destruct (microphone cfg).
  - destruct (listen_handlers _) as [r|e]; [|discriminate].
    destruct (order_text_of r) as [t|]; [|now eexists _, _].
    cbv zeta in *. destruct (asks_repeat _).
    { eexists _, _; split; [reflexivity|]. apply Hrep. }
    destruct (asks_cancel _); [discriminate|].
    destruct (first_mentioned _ _); [discriminate|]. now eexists _, _.
  - now eexists _, _.
Qed.

Lemma waiting_loop turns st :
  (forall n, keeps_waiting cfg (mic env n) = true) ->
  let x := simple_loop cfg env turns st in
  outcome x = Ok no_order /\ listens (events x) = turns.
Proof.
  intros H. revert st. induction turns as [|turns IH]; intros st; cbv zeta.
  - now run_simpl.
  - rewrite simple_loop_step.
    destruct (waiting_turn st (H _)) as (st1 & e1 & -> & He1).
    specialize (IH st1). cbv zeta in IH. destruct IH as [IHo IHl].
    destruct (simple_loop cfg env turns st1) as [[r s] ev].
    unfold outcome, final, events in *; simpl fst in *; simpl snd in *.
    rewrite listens_app. split; [assumption | lia].
Qed.

End SimpleFlow.

(** C2 as the specification states it, refuted: on four repeat requests
    in a row [get_customer_order_simple] returns, but only after four
    repeat announcements, one more than the [max_repeats] = 3 its
    constant names. *)
Lemma four_repeats_exceed_max_repeats :
  ~ terminal_within_repeats config4 (world four_zeros) init_state.
Proof.
  intros H. destruct H as (d & _ & Hle).
  - intros n. do 4 (destruct n as [|n]; [reflexivity|]). now destruct n.
  - vm_compute in Hle. lia.
Qed.

(** C2, amended (bounded attempts).  [get_customer_order_simple] always
    returns: whatever the microphone delivers, it calls [listen] at most
    [max_repeats + 1] = 4 times in all, a single bound that time-outs,
    unrecognised utterances and repeat requests share; a repeat
    announcement uses up one of these listen cycles, so there are never
    more of them than cycles.  When every capture is a timeout, an
    utterance that is not understood or not recognised, or a repeat
    request, it returns the abandoned order after exactly
    [max_repeats + 1] listen cycles. *)
Theorem simple_flow_bounded_attempts (cfg : Config) (env : Env) (st : State) :
  let x := get_customer_order_simple cfg env st in
  (listens (events x) <= max_repeats + 1
   /\ announcements (events x) <= max_repeats + 1
   /\ n_listen (final x) <= n_listen st + (max_repeats + 1))
  /\ ((forall n, keeps_waiting cfg (mic env n) = true) ->
      outcome x = Ok no_order /\ listens (events x) = max_repeats + 1).
Proof.
  cbv zeta. unfold get_customer_order_simple. split.
  - apply simple_loop_bound.
  - intros H. now apply waiting_loop.
Qed.

(** A customer who never speaks: four listen cycles, then the abandoned order. *)
Lemma simple_flow_bounded_attempts_witness :
  (forall n, keeps_waiting config4 (mic (world []) n) = true)
  /\ outcome (get_customer_order_simple config4 (world []) init_state) = Ok no_order
  /\ listens (events (get_customer_order_simple config4 (world []) init_state)) = 4.
Proof.
  assert (H : forall n, keeps_waiting config4 (mic (world []) n) = true).
  { intros [|n]; reflexivity. }
  split; [exact H|].
  exact (proj2 (simple_flow_bounded_attempts config4 (world []) init_state) H).
Defined.

(* ================================================================== *)
(** ** The simple flow: the returned dictionary and the car number *)
(* ================================================================== *)

Section CarNumbers.
Variable cfg : Config.
Variable env : Env.

Lemma first_mentioned_range n text i :
  first_mentioned n text = Some i -> 1 <= i <= n.
Proof.
  unfold first_mentioned. intros H. apply find_some in H as [H _].
  apply in_seq in H. lia.
Qed.

Lemma listen_car_number st :
  _car_number (final (listen cfg env st)) = _car_number st.
Proof.
  rewrite listen_run. destruct (microphone cfg); [|reflexivity].
  now destruct (listen_handlers _).
Qed.

Lemma simple_turn_invariant st f st1 e1 :
  simple_turn cfg env st = (Ok f, st1, e1) ->
  match f with
  | Continue => _car_number st1 = _car_number st
  | Return d => order_invariant (_car_number st) d (_car_number st1)
  end.
Proof.
  rewrite simple_turn_run.
  pose proof (listen_car_number st) as Hl.
  destruct (listen cfg env st) as [[[r|e] st0] heard]; [|discriminate].
  unfold final in Hl; simpl in Hl.
  destruct (order_text_of r) as [t|]; [|now intros [= <- <- <-]].
  cbv zeta. destruct (asks_repeat _); [now intros [= <- <- <-]|].
  destruct (asks_cancel _).
  { intros [= <- <- <-]. now split. }
  destruct (first_mentioned _ _) as [sel|] eqn:Hsel; [|now intros [= <- <- <-]].
  apply first_mentioned_range in Hsel.
  rewrite confirm_order_run. cbv zeta.
  destruct (order_display _ _ _); [|discriminate].
  intros [= <- <- <-]. unfold order_invariant; simpl.
  rewrite Hl. repeat split; try lia.
Qed.

Lemma simple_loop_invariant turns st d st' evs :
  simple_loop cfg env turns st = (Ok d, st', evs) ->
  order_invariant (_car_number st) d (_car_number st').
Proof.
  revert st evs. induction turns as [|turns IH]; intros st evs.
  - intros [= <- <- <-]. now split.
  - rewrite simple_loop_step.
    pose proof (simple_turn_invariant st) as Ht.
    destruct (simple_turn cfg env st) as [[[[|d0]|e] st1] e1]; [| |discriminate].
    + specialize (Ht _ _ _ eq_refl). simpl in Ht.
      destruct (simple_loop cfg env turns st1) as [[r s] ev] eqn:E.
      unfold outcome, final, events; simpl. intros [= -> -> <-].
      rewrite <- Ht. eapply IH; eassumption.
    + intros [= <- <- <-]. exact (Ht _ _ _ eq_refl).
Qed.

End CarNumbers.

(** C10 (shape of the returned dictionary).  In every dictionary
    [get_customer_order_simple] returns, [selected_offer] is [None] or a
    number from 1 to 4; it is set exactly when [car_number] is set, and
    then [cancelled] is [False], [car_number] is the value of the
    counter [_car_number] after the call, and the call has incremented
    the counter by exactly 1.  When [selected_offer] is [None] (order
    cancelled or abandoned) the counter is unchanged. *)
Theorem simple_order_well_formed (cfg : Config) (env : Env) (st st' : State)
    (d : order_data) (evs : list event) :
  get_customer_order_simple cfg env st = (Ok d, st', evs) ->
  (selected_offer d = None
   \/ exists i, selected_offer d = Some i /\ 1 <= i <= 4)
  /\ (selected_offer d <> None <-> car_number d <> None)
  /\ (selected_offer d <> None ->
      cancelled d = Some false
      /\ car_number d = Some (_car_number st')
      /\ _car_number st' = _car_number st + 1)
  /\ (selected_offer d = None -> _car_number st' = _car_number st).
Proof.
  intros H. apply simple_loop_invariant in H. unfold order_invariant in H.
  destruct (selected_offer d) as [i|].
  - destruct H as (Hi & Hc & Ha & Hx). change menu_choices with 4 in Hi.
    split; [right; now exists i|].
    split; [split; intros _; [rewrite Hc|]; discriminate|].
    split; [intros _; repeat split; [assumption | congruence | lia]|].
    discriminate.
  - destruct H as [Hc Ha].
    split; [now left|].
    split; [split; intros X; now elim X|].
    split; [intros X; now elim X|]. now intros _.
Qed.

(** The first confirmed order of the day is car number 1. *)
Lemma simple_order_well_formed_witness :
  let x := get_customer_order_simple config4 (world [says "number two please"]) init_state in
  let d := mk_order (Some "Number 2: Zinger burger") (Some 2)
                    ["Number 2: Zinger burger"] (Some 1) (Some "Car 1") (Some false) in
  x = (Ok d, final x, events x)
  /\ (selected_offer d = None
      \/ exists i, selected_offer d = Some i /\ 1 <= i <= 4)
  /\ (selected_offer d <> None <-> car_number d <> None)
  /\ (selected_offer d <> None ->
      cancelled d = Some false
      /\ car_number d = Some (_car_number (final x))
      /\ _car_number (final x) = _car_number init_state + 1)
  /\ (selected_offer d = None -> _car_number (final x) = _car_number init_state).
Proof.
  cbv zeta. split; [reflexivity|].
  apply (simple_order_well_formed config4 (world [says "number two please"])
           init_state _ _ (events (get_customer_order_simple config4
              (world [says "number two please"]) init_state))).
  reflexivity.
Defined.

(** On later confirmed orders the car number is larger: the counter never
    goes down, and a confirmed order takes the next value. *)
Lemma car_numbers_increase cfg env1 env2 st1 st1' st2 st2' d1 d2 evs1 evs2 n1 n2 :
  get_customer_order_simple cfg env1 st1 = (Ok d1, st1', evs1) ->
  get_customer_order_simple cfg env2 st2 = (Ok d2, st2', evs2) ->
  _car_number st1' <= _car_number st2 ->
  car_number d1 = Some n1 -> car_number d2 = Some n2 ->
  n1 < n2.
Proof.
  intros H1 H2 Hle C1 C2.
  apply simple_loop_invariant in H1, H2. unfold order_invariant in H1, H2.
  destruct (selected_offer d1); [|destruct H1; congruence].
  destruct (selected_offer d2); [|destruct H2; congruence].
  destruct H1 as (_ & E1 & _ & _), H2 as (_ & E2 & F2 & _).
  assert (n1 = _car_number st1') by congruence.
  assert (n2 = _car_number st2') by congruence. lia.
Qed.


(* ================================================================== *)
(** ** The simple flow: the order of the command tests *)
(* ================================================================== *)

Section CommandOrder.
Variable cfg : Config.
Variable env : Env.

Lemma find_least (f : nat -> bool) (start len i : nat) :
  start <= i < start + len -> f i = true ->
  (forall j, start <= j < i -> f j = false) ->
  find f (seq start len) = Some i.
Proof.
  revert start. induction len as [|len IH]; intros start Hi Hf Hlt; [lia|].
  simpl. destruct (Nat.eq_dec start i) as [->|Hne].
  - now rewrite Hf.
  - rewrite Hlt by lia. apply IH; [lia|assumption|]. intros j Hj. apply Hlt. lia.
Qed.

Lemma first_mentioned_least n text i :
  1 <= i <= n -> mentions i text = true ->
  (forall j, 1 <= j < i -> mentions j text = false) ->
  first_mentioned n text = Some i.
Proof. intros Hi Hm Hlt. apply find_least; [lia|assumption|assumption]. Qed.

Lemma truthy_response_lower response :
  truthy (response_lower_of response) = true ->
  order_text_of (Some response) = Some (strip response).
Proof.
  unfold response_lower_of, order_text_of. intros H.
  destruct response as [|c r]; [discriminate H|]. simpl truthy.
  destruct (strip (String c r)); [discriminate H|reflexivity].
Qed.

Lemma order_text_of_pattern p response :
  solid p = true -> truthy p = true ->
  contains p (lower response) = true ->
  order_text_of (Some response) = Some (strip response).
Proof.
  intros Hs Hp H. apply truthy_response_lower.
  eapply contains_truthy; [|exact Hp].
  apply contains_response_lower; eassumption.
Qed.

(** What [listen] leaves behind when it returns an utterance. *)
Lemma listen_returns st response :
  outcome (listen cfg env st) = Ok (Some response) ->
  listen cfg env st = (Ok (Some response), tick_listen st, [Listened (Some response)]).
Proof.
  rewrite listen_run. destruct (microphone cfg); [|discriminate].
  destruct (listen_handlers _) as [r|e]; [|discriminate].
  unfold outcome; simpl. now intros [= ->].
Qed.

Lemma asks_repeat_zero response :
  contains "0" (lower response) || contains "zero" (lower response) = true ->
  order_text_of (Some response) = Some (strip response)
  /\ asks_repeat (response_lower_of response) = true.
Proof.
  intros H. apply orb_true_iff in H as [H|H].
  - split; [eapply order_text_of_pattern; [| |exact H]; reflexivity|].
    unfold asks_repeat. change (str 0) with "0".
    rewrite (contains_response_lower "0"); auto.
  - split; [eapply order_text_of_pattern; [| |exact H]; reflexivity|].
    unfold asks_repeat.
    rewrite (contains_response_lower "zero"); auto.
    now rewrite orb_true_r.
Qed.

Lemma asks_cancel_six response :
  contains "6" (lower response) || contains "six" (lower response) = true ->
  order_text_of (Some response) = Some (strip response)
  /\ asks_cancel (response_lower_of response) = true.
Proof.
  intros H. apply orb_true_iff in H as [H|H].
  - split; [eapply order_text_of_pattern; [| |exact H]; reflexivity|].
    unfold asks_cancel. change (str 6) with "6".
    rewrite (contains_response_lower "6"); auto.
  - split; [eapply order_text_of_pattern; [| |exact H]; reflexivity|].
    unfold asks_cancel.
    rewrite (contains_response_lower "six"); auto. apply orb_true_r.
Qed.

Lemma mentions_truthy i text :
  i <= 10 -> mentions i text = true -> truthy text = true.
Proof.
  unfold mentions. intros Hi H.
  assert (Hp : truthy (str i) = true /\ truthy (_number_to_word i) = true).
  { do 11 (destruct i as [|i]; [now split|]). lia. }
  apply orb_true_iff in H as [H|H];
    (eapply contains_truthy; [exact H|apply Hp]).
Qed.

(** A turn that hears "0" or "zero". *)
Lemma repeat_turn st response :
  outcome (listen cfg env st) = Ok (Some response) ->
  contains "0" (lower response) || contains "zero" (lower response) = true ->
  simple_turn cfg env st =
  (Ok Continue, tick_listen st,
   Listened (Some response) :: Spoke "Repeating the menu." :: announcement cfg).
Proof.
  intros Hl H. rewrite simple_turn_run, (listen_returns _ _ Hl).
  apply asks_repeat_zero in H as [-> H].
  fold (response_lower_of response). cbv zeta. now rewrite H.
Qed.

End CommandOrder.

(** C9 as the claim states it, refuted: "repeat six" holds neither "0"
    nor "zero" and does hold "six", yet the menu is repeated and the
    order is not cancelled; the repeat test also fires on the word
    "repeat" in an utterance shorter than 15 characters. *)
Lemma repeat_word_beats_cancel :
  ~ cancel_when_no_zero config4 (world [says "repeat six"]) init_state "repeat six".
Proof.
  intros H. specialize (H eq_refl eq_refl eq_refl). vm_compute in H. discriminate H.
Qed.

(** C9, amended (order of the command tests).  When [listen] returns an
    utterance, one turn of [get_customer_order_simple] tests it in a
    fixed order, each time by substring search in the lowercased text:
    a text containing "0" or "zero" repeats the menu, whatever else it
    contains, and so does every text on which the repeat test fires
    (the word "repeat" in fewer than 15 characters included); a text on
    which the repeat test does not fire and that contains "6" or "six"
    cancels, whatever choice it also contains; otherwise the lowest of
    the choices 1..4 whose digit or word occurs is selected (the turn
    then returns an order for it, or fails with [IndexError] when the
    menu has no such item). *)
Theorem command_priority (cfg : Config) (env : Env) (st : State) (response : string) :
  outcome (listen cfg env st) = Ok (Some response) ->
  let x := simple_turn cfg env st in
  let response_lower := response_lower_of response in
  (contains "0" (lower response) || contains "zero" (lower response) = true ->
   x = (Ok Continue, tick_listen st,
        Listened (Some response) :: Spoke "Repeating the menu." :: announcement cfg))
  /\ (asks_repeat response_lower = true ->
      x = (Ok Continue, tick_listen st,
           Listened (Some response) :: Spoke "Repeating the menu." :: announcement cfg))
  /\ (asks_repeat response_lower = false ->
      contains "6" (lower response) || contains "six" (lower response) = true ->
      x = (Ok (Return cancelled_order), tick_listen st,
           [Listened (Some response); Spoke "Order cancelled."]))
  /\ (asks_repeat response_lower = false ->
      asks_cancel response_lower = false ->
      forall i, 1 <= i <= 4 ->
        mentions i response_lower = true ->
        (forall j, 1 <= j < i -> mentions j response_lower = false) ->
        match outcome x with
        | Ok (Return d) => selected_offer d = Some i
        | Ok Continue => False
        | Raise e => e = IndexError
        end).
Proof.
  intros Hl. cbv zeta. rewrite simple_turn_run, (listen_returns _ _ _ _ Hl).
  split; [|split; [|split]].
  - intros H. rewrite <- (repeat_turn cfg env st response Hl H).
    now rewrite simple_turn_run, (listen_returns _ _ _ _ Hl).
  - intros Hr.
    assert (Ht : truthy (response_lower_of response) = true).
    { unfold asks_repeat in Hr.
      apply orb_true_iff in Hr as [Hr|Hr];
        [apply orb_true_iff in Hr as [Hr|Hr]|apply andb_true_iff in Hr as [Hr _]];
        exact (contains_truthy _ _ Hr eq_refl). }
    rewrite (truthy_response_lower response Ht).
    fold (response_lower_of response). cbv zeta. now rewrite Hr.
  - intros Hr H. apply asks_cancel_six in H as [-> H].
    fold (response_lower_of response). cbv zeta. now rewrite Hr, H.
  - intros Hr Hc i Hi Hm Hlt.
    rewrite (truthy_response_lower response) by (eapply (mentions_truthy i); [lia|eassumption]).
    fold (response_lower_of response). cbv zeta. rewrite Hr, Hc.
    rewrite (first_mentioned_least menu_choices _ i Hi Hm Hlt).
    rewrite confirm_order_run. cbv zeta.
    destruct (order_display cfg (strip response) i) as [o|e] eqn:E; [reflexivity|].
    unfold outcome; simpl. unfold order_display in E.
    destruct i; [discriminate|]. destruct (offers_to_announce cfg); [discriminate|].
    unfold index in E. destruct (nth_error _ _); [discriminate|]. now injection E.
Qed.

(** Three utterances with more than one code in them. *)
Lemma command_priority_witness :
  simple_turn config4 (world [says "0 or 6 or 2"]) init_state =
    (Ok Continue, tick_listen init_state,
     Listened (Some "0 or 6 or 2") :: Spoke "Repeating the menu." :: announcement config4)
  /\ simple_turn config4 (world [says "repeat six"]) init_state =
    (Ok Continue, tick_listen init_state,
     Listened (Some "repeat six") :: Spoke "Repeating the menu." :: announcement config4)
  /\ simple_turn config4 (world [says "Six, no, two"]) init_state =
    (Ok (Return cancelled_order), tick_listen init_state,
     [Listened (Some "Six, no, two"); Spoke "Order cancelled."])
  /\ match outcome (simple_turn config4 (world [says "three or two"]) init_state) with
     | Ok (Return d) => selected_offer d = Some 2
     | Ok Continue => False
     | Raise e => e = IndexError
     end.
Proof.
  assert (L1 : outcome (listen config4 (world [says "0 or 6 or 2"]) init_state)
               = Ok (Some "0 or 6 or 2")) by (vm_compute; reflexivity).
  assert (L2 : outcome (listen config4 (world [says "Six, no, two"]) init_state)
               = Ok (Some "Six, no, two")) by (vm_compute; reflexivity).
  assert (L3 : outcome (listen config4 (world [says "three or two"]) init_state)
               = Ok (Some "three or two")) by (vm_compute; reflexivity).
  assert (L4 : outcome (listen config4 (world [says "repeat six"]) init_state)
               = Ok (Some "repeat six")) by (vm_compute; reflexivity).
  destruct (command_priority _ _ _ _ L1) as (H1 & _ & _ & _).
  destruct (command_priority _ _ _ _ L2) as (_ & _ & H2 & _).
  destruct (command_priority _ _ _ _ L3) as (_ & _ & _ & H3).
  destruct (command_priority _ _ _ _ L4) as (_ & H4 & _ & _).
  split; [|split; [|split]].
  - apply H1. vm_compute; reflexivity.
  - apply H4. vm_compute; reflexivity.
  - apply H2; vm_compute; reflexivity.
  - apply (H3 ltac:(vm_compute; reflexivity) ltac:(vm_compute; reflexivity) 2);
      [lia | vm_compute; reflexivity |].
    intros j Hj. assert (j = 1) as -> by lia. vm_compute; reflexivity.
Defined.

(* ================================================================== *)
(** ** The simple flow: repeat requests *)
(* ================================================================== *)


(** C5 as the specification states it, refuted: on four repeat requests
    in a row the trace of [get_customer_order_simple] follows the
    repeat rule (count the repeats; below the limit announce again and
    listen again; at the limit abandon instead of announcing) for no
    value of the limit. *)
Lemma repeat_policy_violated :
  ~ (exists limit,
        repeat_policy limit 0
          (events (get_customer_order_simple config4 (world four_zeros) init_state))
        = true).
Proof.
  intros [limit H].
  do 5 (destruct limit as [|limit]; [vm_compute in H; discriminate H|]).
  vm_compute in H. discriminate H.
Qed.

(** C5, amended.  A recognised repeat request (an utterance containing
    "0" or "zero") uses up one of the turns of the loop, the same turns
    timeouts and unrecognised utterances use up; no field of the
    controller changes.  With turns left after it, the controller says
    "Repeating the menu.", announces the full menu and goes on with the
    remaining turns, each of which starts by listening.  When it was the
    last turn, the loop ends with the abandoned order. *)
Theorem repeat_request_uses_a_turn (cfg : Config) (env : Env) (st : State)
    (response : string) (turns : nat) :
  outcome (listen cfg env st) = Ok (Some response) ->
  contains "0" (lower response) || contains "zero" (lower response) = true ->
  let this_turn :=
    (Listened (Some response) :: Spoke "Repeating the menu." :: announcement cfg)%list in
  outcome (simple_loop cfg env 1 st) = Ok no_order
  /\ final (simple_loop cfg env 1 st) = tick_listen st
  /\ let rest := simple_loop cfg env (S turns) (tick_listen st) in
     simple_loop cfg env (S (S turns)) st =
     (outcome rest, final rest, (this_turn ++ events rest)%list).
Proof.
  intros Hl H0. cbv zeta.
  pose proof (repeat_turn cfg env st response Hl H0) as Ht.
  split; [|split].
  - rewrite simple_loop_step, Ht. reflexivity.
  - rewrite simple_loop_step, Ht. reflexivity.
  - rewrite (simple_loop_step cfg env (S turns) st), Ht. reflexivity.
Qed.

(** A repeat request on the first turn of a session. *)
Lemma repeat_request_uses_a_turn_witness :
  let env := world [says "zero"; says "two"] in
  outcome (simple_loop config4 env 1 init_state) = Ok no_order
  /\ final (simple_loop config4 env 1 init_state) = tick_listen init_state
  /\ get_customer_order_simple config4 env init_state =
     (outcome (simple_loop config4 env 3 (tick_listen init_state)),
      final (simple_loop config4 env 3 (tick_listen init_state)),
      (Listened (Some "zero") :: Spoke "Repeating the menu." :: announcement config4)
        ++ events (simple_loop config4 env 3 (tick_listen init_state)))%list.
Proof.
  assert (L : outcome (listen config4 (world [says "zero"; says "two"]) init_state)
              = Ok (Some "zero")) by (vm_compute; reflexivity).
  assert (Z : contains "0" (lower "zero") || contains "zero" (lower "zero") = true)
    by (vm_compute; reflexivity).
  exact (repeat_request_uses_a_turn config4 (world [says "zero"; says "two"])
           init_state "zero" 2 L Z).
Defined.

(* ================================================================== *)
(** ** The simple flow: digits and number words *)
(* ================================================================== *)

Section CodeEquivalence.
Variable cfg : Config.

(** The loop reads the world only through the captures still to come. *)
Lemma listen_env env1 env2 st :
  (microphone cfg = true -> mic env1 (n_listen st) = mic env2 (n_listen st)) ->
  listen cfg env1 st = listen cfg env2 st.
Proof.
  intros H. rewrite !listen_run. destruct (microphone cfg); [|reflexivity].
  now rewrite H.
Qed.

Lemma simple_turn_env env1 env2 st :
  (microphone cfg = true -> mic env1 (n_listen st) = mic env2 (n_listen st)) ->
  simple_turn cfg env1 st = simple_turn cfg env2 st.
Proof. intros H. rewrite !simple_turn_run. now rewrite (listen_env env1 env2 st H). Qed.

Lemma simple_turn_advances env st st1 e1 :
  simple_turn cfg env st = (Ok Continue, st1, e1) -> n_listen st <= n_listen st1.
Proof.
  rewrite simple_turn_run, listen_run.
  destruct (microphone cfg).
  - destruct (listen_handlers _) as [r|e]; [|discriminate].
    destruct (order_text_of r); [|intros [= <- <-]; simpl; lia].
    cbv zeta. destruct (asks_repeat _); [intros [= <- <-]; simpl; lia|].
    destruct (asks_cancel _); [discriminate|].
    destruct (first_mentioned _ _); [|intros [= <- <-]; simpl; lia].
    rewrite confirm_order_run. cbv zeta. destruct (order_display _ _ _); discriminate.
  - simpl. intros [= <- <-]. lia.
Qed.

Lemma simple_loop_env env1 env2 turns st :
  (microphone cfg = true ->
   forall k, n_listen st <= k -> mic env1 k = mic env2 k) ->
  simple_loop cfg env1 turns st = simple_loop cfg env2 turns st.
Proof.
  revert st. induction turns as [|turns IH]; intros st H; [reflexivity|].
  rewrite !simple_loop_step.
  rewrite (simple_turn_env env1 env2 st) by (intros Hm; apply H; [assumption|lia]).
  destruct (simple_turn cfg env2 st) as [[[[|d]|e] st1] e1] eqn:E; try reflexivity.
  apply simple_turn_advances in E.
  rewrite (IH st1); [reflexivity|].
  intros Hm k Hk. apply H; [assumption|lia].
Qed.

(** The digit string and the number word of a code are lowercase and
    free of white space. *)
Lemma code_patterns c :
  In c codes ->
  (solid (str c) = true /\ truthy (str c) = true /\ lower (str c) = str c)
  /\ (solid (_number_to_word c) = true /\ truthy (_number_to_word c) = true
      /\ lower (_number_to_word c) = _number_to_word c).
Proof.
  unfold codes; simpl. intros H.
  repeat (destruct H as [<-|H]; [now repeat split|]). contradiction.
Qed.

Lemma menu_not_empty :
  special_offers cfg <> [] -> offers_to_announce cfg <> [].
Proof. unfold offers_to_announce. now destruct (special_offers cfg). Qed.

(** With a menu, the confirmed order does not depend on the text heard. *)
Lemma confirm_order_text text1 text2 i st :
  special_offers cfg <> [] -> 1 <= i ->
  confirm_order cfg text1 i st = confirm_order cfg text2 i st.
Proof.
  intros Hm Hi. rewrite !confirm_order_run. unfold order_display.
  apply menu_not_empty in Hm.
  destruct i; [lia|]. now destruct (offers_to_announce cfg).
Qed.

(** A turn that hears code [c], as a digit or as a word, inside any
    carrier text, makes the transition of [c] unless an earlier test
    fires. *)
Lemma code_turn env st c pattern pre post :
  microphone cfg = true ->
  In c codes -> special_offers cfg <> [] ->
  pattern = str c \/ pattern = _number_to_word c ->
  preempted c (response_lower_of (pre ++ pattern ++ post)) = false ->
  let u := pre ++ pattern ++ post in
  simple_turn cfg (with_capture env (n_listen st) (says u)) st =
  (outcome (code_transition cfg c st), final (code_transition cfg c st),
   Listened (Some u) :: events (code_transition cfg c st)).
Proof.
  intros Hmic Hc Hmenu Hpat Hpre u.
  assert (Hin : solid pattern = true /\ truthy pattern = true
                /\ contains pattern (lower u) = true).
  { destruct (code_patterns c Hc) as [(S1 & T1 & L1) (S2 & T2 & L2)].
    unfold u. rewrite !lower_app.
    destruct Hpat as [-> | ->]; repeat split; trivial.
    - rewrite L1. apply contains_app.
    - rewrite L2. apply contains_app. }
  destruct Hin as (Hs & Ht & Hin).
  assert (Hm : mentions c (response_lower_of u) = true).
  { unfold mentions.
    destruct Hpat as [<- | <-];
      rewrite (contains_response_lower pattern u Hs Ht Hin); trivial.
    apply orb_true_r. }
  rewrite simple_turn_run, listen_run, Hmic.
  unfold with_capture; simpl mic. rewrite Nat.eqb_refl.
  assert (Htr : transcribe cfg (says u) = Ok u).
  { unfold transcribe, says; simpl. now destruct (use_whisper cfg && whisper_model cfg). }
  rewrite Htr. simpl listen_handlers. cbv iota beta.
  rewrite (order_text_of_pattern pattern u Hs Ht Hin).
  fold (response_lower_of u). cbv zeta.
  fold u in Hpre.
  unfold codes in Hc; simpl in Hc.
  destruct Hc as [<-|[<-|[<-|[<-|[<-|[<-|[]]]]]]]; simpl in Hpre.
  - unfold asks_repeat. unfold mentions in Hm. simpl _number_to_word in Hm.
    change (str 0) with "0" in *. 
    destruct (contains "0" (response_lower_of u)); [reflexivity|].
    simpl in Hm. rewrite Hm. reflexivity.
  - rewrite !orb_false_r in Hpre. apply orb_false_iff in Hpre as [-> ->].
    rewrite (first_mentioned_least menu_choices _ 1); [|unfold menu_choices; lia|assumption|intros; lia].
    rewrite (confirm_order_text (strip u) EmptyString 1) by (trivial; lia).
    unfold code_transition.
    now destruct (confirm_order cfg EmptyString 1 (tick_listen st)) as [[[d|e] s2] said].
  - rewrite !orb_false_r in Hpre. apply orb_false_iff in Hpre as [Hpre M1].
    apply orb_false_iff in Hpre as [-> ->].
    rewrite (first_mentioned_least menu_choices _ 2);
      [|unfold menu_choices; lia|assumption|
       intros j Hj; assert (j = 1) as -> by lia; assumption].
    rewrite (confirm_order_text (strip u) EmptyString 2) by (trivial; lia).
    unfold code_transition.
    now destruct (confirm_order cfg EmptyString 2 (tick_listen st)) as [[[d|e] s2] said].
  - rewrite !orb_false_r in Hpre. apply orb_false_iff in Hpre as [Hpre M].
    apply orb_false_iff in M as [M1 M2].
    apply orb_false_iff in Hpre as [-> ->].
    rewrite (first_mentioned_least menu_choices _ 3);
      [|unfold menu_choices; lia|assumption|
       intros j Hj; assert (j = 1 \/ j = 2) as [-> | ->] by lia; assumption].
    rewrite (confirm_order_text (strip u) EmptyString 3) by (trivial; lia).
    unfold code_transition.
    now destruct (confirm_order cfg EmptyString 3 (tick_listen st)) as [[[d|e] s2] said].
  - rewrite !orb_false_r in Hpre. apply orb_false_iff in Hpre as [Hpre M].
    apply orb_false_iff in M as [M1 M].
    apply orb_false_iff in M as [M2 M3].
    apply orb_false_iff in Hpre as [-> ->].
    rewrite (first_mentioned_least menu_choices _ 4);
      [|unfold menu_choices; lia|assumption|
       intros j Hj; assert (j = 1 \/ j = 2 \/ j = 3) as [-> | [-> | ->]] by lia;
       assumption].
    rewrite (confirm_order_text (strip u) EmptyString 4) by (trivial; lia).
    unfold code_transition.
    now destruct (confirm_order cfg EmptyString 4 (tick_listen st)) as [[[d|e] s2] said].
  - rewrite Hpre. unfold asks_cancel. unfold mentions in Hm.
    simpl _number_to_word in Hm. rewrite Hm. reflexivity.
Qed.

End CodeEquivalence.

(** C4 as the specification states it, refuted: inside the carrier text
    "repeat item ...", the digit 2 makes the sentence short enough for
    the "repeat" test (13 characters, below 15) and the menu is repeated,
    while the word "two" makes it 15 characters long and item 2 is
    ordered. *)
Lemma code_equivalence_fails :
  ~ code_equivalence config4 (world []) init_state 2 "repeat item " EmptyString.
Proof.
  unfold code_equivalence, same_transition. intros (H & _).
  vm_compute in H. discriminate H.
Qed.

(** C4, amended.  For every code (0, 1..4, 6), every carrier text and a
    menu that is not empty: when no test made before the test of the
    code fires on either utterance, hearing the digit string and hearing
    the number word inside the carrier give the same returned value, the
    same fields afterwards and the same things said.  The tests are
    substring searches in the lowercased text. *)
Theorem code_equivalence_unless_preempted (cfg : Config) (env : Env) (st : State)
    (c : nat) (pre post : string) :
  In c codes ->
  special_offers cfg <> [] ->
  preempted c (response_lower_of (pre ++ str c ++ post)) = false ->
  preempted c (response_lower_of (pre ++ _number_to_word c ++ post)) = false ->
  code_equivalence cfg env st c pre post.
Proof.
  intros Hc Hmenu P1 P2. unfold code_equivalence, hears, get_customer_order_simple.
  set (u1 := pre ++ str c ++ post). set (u2 := pre ++ _number_to_word c ++ post).
  destruct (microphone cfg) eqn:Hmic.
  - change (max_repeats + 1) with (S 3). rewrite !simple_loop_step.
    unfold u1, u2.
    rewrite (code_turn cfg env st c (str c) pre post Hmic Hc Hmenu (or_introl eq_refl) P1).
    rewrite (code_turn cfg env st c (_number_to_word c) pre post Hmic Hc Hmenu
               (or_intror eq_refl) P2).
    fold u1 u2.
    destruct (code_transition cfg c st) as [[[[|d]|e] st1] said] eqn:E;
      unfold same_transition; cbn [outcome final events fst snd];
      try (now repeat split).
    assert (Hst : st1 = tick_listen st).
    { unfold code_transition in E.
      destruct c as [|[|[|[|[|[|[|c]]]]]]];
        try (destruct (confirm_order _ _ _ _) as [[[?|?] ?] ?]; discriminate E);
        try discriminate E.
      now injection E. }
    subst st1.
    rewrite (simple_loop_env cfg (with_capture env (n_listen st) (says u1))
               (with_capture env (n_listen st) (says u2)) 3 (tick_listen st)).
    + unfold spoken. cbn [app filter is_speech]. now repeat split.
    + intros _ k Hk. simpl in Hk. unfold with_capture; simpl.
      destruct (Nat.eqb_spec k (n_listen st)); [lia|reflexivity].
  - rewrite (simple_loop_env cfg (with_capture env (n_listen st) (says u1))
               (with_capture env (n_listen st) (says u2))); [now repeat split|].
    intros X; congruence.
Qed.

(** "I'll have number 2 please" and "I'll have number two please". *)
Lemma code_equivalence_unless_preempted_witness :
  code_equivalence config4 (world []) init_state 2 "I'll have number " " please".
Proof.
  apply code_equivalence_unless_preempted.
  - unfold codes; simpl; tauto.
  - discriminate.
  - vm_compute; reflexivity.
  - vm_compute; reflexivity.
Defined.

(* ================================================================== *)
(** ** What a dialogue cannot do *)
(* ================================================================== *)

(** A relation between the fields before, the fields after and the events
    of a computation that holds of doing nothing, composes, and holds of
    the primitive steps of a dialogue, holds of the whole dialogue. *)
Section Dialogue.

Variable P : State -> State -> list event -> Prop.
Hypothesis P_refl : forall st, P st st [].
Hypothesis P_trans : forall s1 s2 s3 e1 e2,
  P s1 s2 e1 -> P s2 s3 e2 -> P s1 s3 (e1 ++ e2).
Hypothesis P_emit : forall st e, inner e = true -> P st st [e].
Hypothesis P_listen : forall st, P st (tick_listen st) [].
Hypothesis P_continuous : forall st, P st (tick_continuous st) [].
Hypothesis P_ollama : forall st, P st (tick_ollama st) [].
Hypothesis P_car : forall st, P st (set_car_number (_car_number st + 1) st) [].
Hypothesis P_now : forall st, P st (tick_now st) [].
Hypothesis P_put : forall st r, P st (queue_put r st) [].


Lemma respects_ret {A} (a : A) : respects P (ret a).
Proof. intros st. apply P_refl. Qed.

Lemma respects_raise {A} (e : exception) : respects P (@raise A e).
Proof. intros st. apply P_refl. Qed.

Lemma respects_lift {A} (r : result A) : respects P (lift r).
Proof. intros st. apply P_refl. Qed.

Lemma respects_gets {A} (f : State -> A) : respects P (gets f).
Proof. intros st. apply P_refl. Qed.

Lemma respects_emit e : inner e = true -> respects P (emit e).
Proof. intros H st. now apply P_emit. Qed.

Lemma respects_bind {A B} (m : M A) (f : A -> M B) :
  respects P m -> (forall a, respects P (f a)) -> respects P (bind m f).
Proof.
  intros Hm Hf st. specialize (Hm st). unfold bind.
  destruct (m st) as [[[a|e] s1] e1]; [|exact Hm].
  specialize (Hf a s1). destruct (f a s1) as [[r s2] e2].
  unfold final, events in *; simpl in *. eapply P_trans; eassumption.
Qed.

Variable cfg : Config.
Variable env : Env.

(** One constructor of the computation at a time. *)
Ltac dialogue_step :=
  match goal with
  | |- respects P (bind _ _) => apply respects_bind; [|intro]
  | |- respects P (ret _) => apply respects_ret
  | |- respects P (raise _) => apply respects_raise
  | |- respects P (lift _) => apply respects_lift
  | |- respects P (gets _) => apply respects_gets
  | |- respects P (emit _) => apply respects_emit; reflexivity
  | |- respects P (speak _) => apply respects_emit; reflexivity
  | |- respects P (speak_order _) => apply respects_emit; reflexivity
  | |- respects P (modify tick_listen) => intro; apply P_listen
  | |- respects P (modify tick_continuous) => intro; apply P_continuous
  | |- respects P (modify tick_ollama) => intro; apply P_ollama
  | |- respects P (modify tick_now) => intro; apply P_now
  | |- respects P (modify (queue_put _)) => intro; apply P_put
  | |- respects P (let _ := _ in _) => cbv zeta
  | |- respects P (match ?x with _ => _ end) => destruct x
  | |- respects P _ => solve [auto]
  end.
Ltac dialogue := repeat dialogue_step.

Lemma respects_speak_each texts : respects P (speak_each texts).
Proof. induction texts; simpl; dialogue. Qed.

Lemma respects_announce_offers : respects P (announce_offers cfg).
Proof.
  unfold announce_offers. pose proof respects_speak_each. dialogue.
Qed.

Lemma respects_listen : respects P (listen cfg env).
Proof. unfold listen. dialogue. Qed.

Lemma respects_listen_continuous : respects P (listen_continuous env).
Proof. unfold listen_continuous. dialogue. Qed.

Lemma respects_confirm_order text i : respects P (confirm_order cfg text i).
Proof. unfold confirm_order. dialogue. Qed.

Lemma respects_simple_turn : respects P (simple_turn cfg env).
Proof.
  unfold simple_turn.
  pose proof respects_listen. pose proof respects_announce_offers.
  pose proof respects_confirm_order. dialogue.
Qed.

Lemma respects_simple_loop turns : respects P (simple_loop cfg env turns).
Proof.
  pose proof respects_simple_turn. induction turns; simpl; dialogue.
Qed.

Lemma respects_get_customer_order_simple :
  respects P (get_customer_order_simple cfg env).
Proof. apply respects_simple_loop. Qed.

Lemma respects_order_attempt attempt vars : respects P (order_attempt cfg env attempt vars).
Proof.
  unfold order_attempt. pose proof respects_listen.
  destruct vars. dialogue.
Qed.

Lemma respects_order_attempts attempts vars :
  respects P (order_attempts cfg env attempts vars).
Proof.
  pose proof respects_order_attempt.
  revert vars. induction attempts; intros vars; simpl; dialogue.
Qed.

Lemma respects_get_customer_order : respects P (get_customer_order cfg env).
Proof.
  unfold get_customer_order. pose proof respects_order_attempts. dialogue.
Qed.

Lemma respects_process_order text : respects P (_process_order_with_ollama cfg env text).
Proof. unfold _process_order_with_ollama. dialogue. Qed.

Lemma respects_get_customer_order_continuous :
  respects P (get_customer_order_continuous cfg env).
Proof.
  unfold get_customer_order_continuous.
  pose proof respects_listen. pose proof respects_listen_continuous.
  pose proof respects_process_order. dialogue.
Qed.

Lemma respects_datetime_now : respects P (datetime_now env).
Proof. unfold datetime_now. dialogue. Qed.

Lemma respects_handoff_to_operator id d : respects P (handoff_to_operator cfg env id d).
Proof.
  unfold handoff_to_operator. pose proof respects_datetime_now. dialogue.
Qed.

Lemma respects_handoff_to_operator_simple id d :
  respects P (handoff_to_operator_simple cfg env id d).
Proof.
  unfold handoff_to_operator_simple.
  pose proof respects_handoff_to_operator. dialogue.
Qed.

Lemma respects_serve id : respects P (serve cfg env id).
Proof.
  unfold serve.
  pose proof respects_announce_offers.
  pose proof respects_get_customer_order_simple.
  pose proof respects_get_customer_order.
  pose proof respects_get_customer_order_continuous.
  pose proof respects_handoff_to_operator.
  pose proof respects_handoff_to_operator_simple.
  dialogue.
Qed.

End Dialogue.


Lemma quiet_serve cfg env id st :
  forallb inner (events (serve cfg env id st)) = true.
Proof.
  apply (respects_serve quiet); unfold quiet; try reflexivity.
  - intros _ _ _ e1 e2 H1 H2. rewrite forallb_app. now rewrite H1, H2.
  - intros _ e He. simpl. now rewrite He.
Qed.

Lemma simple_order_keeps_queue cfg env st :
  keeps_queue st (final (get_customer_order_simple cfg env st))
              (events (get_customer_order_simple cfg env st)).
Proof.
  apply (respects_get_customer_order_simple keeps_queue);
    unfold keeps_queue; try (now split).
  intros s1 s2 s3 _ _ [-> ->] [-> ->]. now split.
Qed.

Lemma order_keeps_queue cfg env st :
  keeps_queue st (final (get_customer_order cfg env st))
              (events (get_customer_order cfg env st)).
Proof.
  apply (respects_get_customer_order keeps_queue);
    unfold keeps_queue; try (now split).
  intros s1 s2 s3 _ _ [-> ->] [-> ->]. now split.
Qed.

Lemma continuous_order_keeps_queue cfg env st :
  keeps_queue st (final (get_customer_order_continuous cfg env st))
              (events (get_customer_order_continuous cfg env st)).
Proof.
  apply (respects_get_customer_order_continuous keeps_queue);
    unfold keeps_queue; try (now split).
  intros s1 s2 s3 _ _ [-> ->] [-> ->]. now split.
Qed.

Lemma order_keeps_car_number cfg env st :
  _car_number (final (get_customer_order cfg env st)) = _car_number st.
Proof.
  apply (respects_get_customer_order keeps_car_number);
    unfold keeps_car_number; try reflexivity.
  intros s1 s2 s3 _ _ -> ->. reflexivity.
Qed.

Lemma continuous_order_keeps_car_number cfg env st :
  _car_number (final (get_customer_order_continuous cfg env st)) = _car_number st.
Proof.
  apply (respects_get_customer_order_continuous keeps_car_number);
    unfold keeps_car_number; try reflexivity.
  intros s1 s2 s3 _ _ -> ->. reflexivity.
Qed.

(* ================================================================== *)
(** ** One customer *)
(* ================================================================== *)

Section OneCustomer.
Variable cfg : Config.
Variable env : Env.

Lemma datetime_now_run st :
  datetime_now env st = (Ok (now env (n_now st)), tick_now st, []).
Proof. reflexivity. Qed.

(** [process_customer] around the dialogue: the customer is set before
    it and cleared after it, unless an exception cuts it short. *)
Lemma process_customer_run st :
  process_customer cfg env st =
  match serve cfg env (customer_id_at env st) (arrival env st) with
  | (Ok info, st1, evs) =>
      (Ok info, set_current_customer None st1,
       NewCustomer (customer_id_at env st) :: evs ++ [CustomerDone])
  | (Raise e, st1, evs) =>
      (Raise e, st1, NewCustomer (customer_id_at env st) :: evs)
  end%list.
Proof.
  unfold process_customer, bind, emit, modify, ret, customer_id_at, arrival.
  rewrite datetime_now_run. simpl.
  destruct (serve cfg env _ _) as [[[info|e] st1] evs]; reflexivity.
Qed.

(** A successful hand-off, case by case. *)
Lemma handoff_to_operator_ok id d st info st' evs :
  forall H : handoff_to_operator cfg env id d st = (Ok info, st', evs),
  (is_cancelled d = true /\ info = CancelledInfo id /\ st' = st)
  \/ (is_cancelled d = false /\
      exists r, info = OperatorInfo r /\ st' = queue_put r (tick_now st)
                /\ h_customer_id r = id
                /\ h_selected_offer r = selected_offer d
                /\ h_car_number r = car_number d
                /\ h_full_order_text r = full_order_text d).
Proof.
  unfold handoff_to_operator. destruct (is_cancelled d).
  - unfold ret; cbv beta. intros [= <- <- <-]. now left.
  - right. split; [reflexivity|]. revert H.
    unfold bind, lift, modify, emit, speak, ret. rewrite datetime_now_run.
    destruct (offer_details cfg d) as [details|e]; [|discriminate].
    destruct (operator_notification cfg), (truthy_opt (full_order_text d));
      simpl; intros [= <- <- <-]; eexists; repeat split.
Qed.

Lemma handoff_to_operator_simple_ok id d st info st' evs :
  handoff_to_operator_simple cfg env id d st = (Ok info, st', evs) ->
  (is_cancelled d = true /\ info = CancelledInfo id /\ st' = st)
  \/ (is_cancelled d = false /\
      exists r, info = OperatorInfo r /\ st' = queue_put r (tick_now st)
                /\ h_customer_id r = id
                /\ h_selected_offer r = selected_offer d
                /\ h_car_number r = car_number d
                /\ h_full_order_text r = full_order_text d).
Proof.
  unfold handoff_to_operator_simple. destruct (is_cancelled d) eqn:Hc.
  - unfold ret; cbv beta. intros [= <- <- <-]. now left.
  - intros H. apply bind_inv_ok in H as (u & s1 & e1 & e2 & Hs & H & ->).
    injection Hs as <- <- <-.
    apply handoff_to_operator_ok in H as [(X & _)|(_ & H)]; [congruence|].
    right. now split.
Qed.

(** The order dictionaries of the full flows are never cancelled. *)
Lemma order_not_cancelled st d st' evs :
  get_customer_order cfg env st = (Ok d, st', evs) -> cancelled d = None.
Proof.
  unfold get_customer_order. intros H.
  apply bind_inv_ok in H as ([t s] & s1 & e1 & e2 & _ & H & _).
  now injection H as <- _ _.
Qed.

Lemma continuous_order_not_cancelled st d st' evs :
  get_customer_order_continuous cfg env st = (Ok d, st', evs) -> cancelled d = None.
Proof.
  unfold get_customer_order_continuous. intros H.
  apply bind_inv_ok in H as (u & s1 & e1 & e2 & _ & H & _).
  apply bind_inv_ok in H as (phrases & s2 & e3 & e4 & _ & H & _).
  destruct phrases as [|p ps].
  - apply bind_inv_ok in H as (u' & s3 & e5 & e6 & _ & H & _).
    now injection H as <- _ _.
  - apply bind_inv_ok in H as (u1 & s3 & e5 & e6 & _ & H & _).
    apply bind_inv_ok in H as (u2 & s4 & e7 & e8 & _ & H & _).
    apply bind_inv_ok in H as (u3 & s5 & e9 & e10 & _ & H & _).
    apply bind_inv_ok in H as (u4 & s6 & e11 & e12 & _ & H & _).
    now injection H as <- _ _.
Qed.

(** What a completed dialogue has done, in either flow: the order it
    captured, and the hand-off of that order. *)
Lemma serve_ok id st info st' evs :
  serve cfg env id st = (Ok info, st', evs) ->
  exists d sa e1 e2,
    (if simple_flow cfg then get_customer_order_simple cfg env st
     else if use_continuous_listening cfg then get_customer_order_continuous cfg env st
     else get_customer_order cfg env st) = (Ok d, sa, e1)
    /\ (if simple_flow cfg then handoff_to_operator_simple cfg env id d sa
        else handoff_to_operator cfg env id d sa) = (Ok info, st', e2)
    /\ evs = (announcement cfg ++ e1 ++ e2)%list.
Proof.
  unfold serve. destruct (simple_flow cfg); intros H;
    apply bind_inv_ok in H as (u & s0 & e0 & e' & Ha & H & ->);
    rewrite announce_offers_run in Ha; injection Ha as <- <- <-;
    apply bind_inv_ok in H as (d & sa & e1 & e2 & Hd & H & ->);
    exists d, sa, e1, e2; repeat split; trivial.
  now destruct (use_continuous_listening cfg).
Qed.

End OneCustomer.

(** C1 as the specification states it, refuted: a customer who says
    "six" completes a session, and nothing is put on the queue. *)
Lemma cancelled_session_queues_nothing :
  ~ one_record_per_session config4 (world [says "six"]) init_state.
Proof.
  intros H.
  pose proof (run_eta (process_customer config4 (world [says "six"]) init_state)) as E.
  assert (O : outcome (process_customer config4 (world [says "six"]) init_state)
              = Ok (CancelledInfo "CUST_t0")) by (vm_compute; reflexivity).
  assert (Q : order_queue (final (process_customer config4 (world [says "six"]) init_state))
              = []) by (vm_compute; reflexivity).
  rewrite O in E. destruct (H _ _ _ E) as [r Hr].
  rewrite Q in Hr. discriminate Hr.
Qed.

(** C1, amended.  A completed session puts at most one record on the
    hand-off queue.  When the hand-off result is the operator record, that
    record (and nothing else) has been appended to the queue; when it is
    the short dictionary of a cancelled order, the queue is unchanged.
    The full flows always hand off an operator record.  In the simple
    flow the hand-off result shows the terminal state of the captured
    order (cancelled, confirmed with a selected offer, abandoned without
    one), and an operator record carries the selected offer, the car
    number and the order text of that order. *)
Theorem handoff_at_most_once (cfg : Config) (env : Env) (st st' : State)
    (info : handoff_info) (evs : list event) :
  process_customer cfg env st = (Ok info, st', evs) ->
  match info with
  | CancelledInfo _ => order_queue st' = order_queue st
  | OperatorInfo r => order_queue st' = (order_queue st ++ [r])%list
  end
  /\ (simple_flow cfg = false -> exists r, info = OperatorInfo r)
  /\ (simple_flow cfg = true ->
      exists d,
        outcome (get_customer_order_simple cfg env (arrival env st)) = Ok d
        /\ record_outcome info = session_outcome d
        /\ match info with
           | CancelledInfo _ => True
           | OperatorInfo r =>
               h_selected_offer r = selected_offer d
               /\ h_car_number r = car_number d
               /\ h_full_order_text r = full_order_text d
           end).
Proof.
  intros H. rewrite process_customer_run in H.
  destruct (serve cfg env _ _) as [[[i|e] s1] ev] eqn:E; [|discriminate].
  injection H as <- <- <-.
  apply serve_ok in E as (d & sa & e1 & e2 & Hd & Hh & ->).
  destruct (simple_flow cfg) eqn:Hflow.
  - pose proof (simple_order_keeps_queue cfg env (arrival env st)) as [Hq _].
    rewrite Hd in Hq. unfold final in Hq; simpl in Hq.
    apply handoff_to_operator_simple_ok in Hh
      as [(Hc & -> & ->)|(Hc & r & -> & -> & Hid & Hs & Hn & Ht)].
    + split; [exact Hq|]. split; [discriminate|]. intros _.
      exists d. rewrite Hd. repeat split.
      unfold session_outcome. now rewrite Hc.
    + split; [simpl; now rewrite Hq|]. split; [discriminate|]. intros _.
      exists d. rewrite Hd. repeat split; trivial.
      unfold session_outcome, record_outcome. now rewrite Hc, Hs.
  - assert (Hcan : is_cancelled d = false /\ order_queue sa = order_queue st).
    { destruct (use_continuous_listening cfg).
      - pose proof (continuous_order_keeps_queue cfg env (arrival env st)) as [Hq _].
        rewrite Hd in Hq. apply continuous_order_not_cancelled in Hd.
        unfold is_cancelled. now rewrite Hd.
      - pose proof (order_keeps_queue cfg env (arrival env st)) as [Hq _].
        rewrite Hd in Hq. apply order_not_cancelled in Hd.
        unfold is_cancelled. now rewrite Hd. }
    destruct Hcan as [Hc Hq].
    apply handoff_to_operator_ok in Hh
      as [(X & _)|(_ & r & -> & -> & Hid & Hs & Hn & Ht)]; [congruence|].
    split; [simpl; now rewrite Hq|]. split; [now exists r|discriminate].
Qed.

(** A confirmed order: one record on the queue. *)
Lemma handoff_at_most_once_witness :
  let x := process_customer config4 (world [says "two"]) init_state in
  exists r,
    outcome x = Ok (OperatorInfo r)
    /\ order_queue (final x) = [r]
    /\ h_selected_offer r = Some 2 /\ h_car_number r = Some 1.
Proof.
  cbv zeta.
  pose proof (run_eta (process_customer config4 (world [says "two"]) init_state)) as E.
  destruct (outcome (process_customer config4 (world [says "two"]) init_state))
    as [[id|r]|e] eqn:O; try (vm_compute in O; discriminate O).
  destruct (handoff_at_most_once _ _ _ _ _ _ E) as (Hq & _ & _).
  exists r. split; [reflexivity|]. split; [exact Hq|].
  vm_compute in O. injection O as <-. now split.
Defined.

(* ================================================================== *)
(** ** Customer ids and car numbers *)
(* ================================================================== *)

Section FullFlows.
Variable cfg : Config.
Variable env : Env.

(** The order dictionaries of the full flows have no car number. *)
Lemma order_no_car_number st d st' evs :
  get_customer_order cfg env st = (Ok d, st', evs) -> car_number d = None.
Proof.
  unfold get_customer_order. intros H.
  apply bind_inv_ok in H as ([t s] & s1 & e1 & e2 & _ & H & _).
  now injection H as <- _ _.
Qed.

Lemma continuous_order_no_car_number st d st' evs :
  get_customer_order_continuous cfg env st = (Ok d, st', evs) -> car_number d = None.
Proof.
  unfold get_customer_order_continuous. intros H.
  apply bind_inv_ok in H as (u & s1 & e1 & e2 & _ & H & _).
  apply bind_inv_ok in H as (phrases & s2 & e3 & e4 & _ & H & _).
  destruct phrases as [|p ps].
  - apply bind_inv_ok in H as (u' & s3 & e5 & e6 & _ & H & _).
    now injection H as <- _ _.
  - apply bind_inv_ok in H as (u1 & s3 & e5 & e6 & _ & H & _).
    apply bind_inv_ok in H as (u2 & s4 & e7 & e8 & _ & H & _).
    apply bind_inv_ok in H as (u3 & s5 & e9 & e10 & _ & H & _).
    apply bind_inv_ok in H as (u4 & s6 & e11 & e12 & _ & H & _).
    now injection H as <- _ _.
Qed.

End FullFlows.

(** C7 as the specification states it, refuted: a session in which the
    customer never speaks completes and is handed off without any car
    number. *)
Lemma abandoned_session_has_no_number :
  ~ numbered_at_arrival config4 (world []) init_state.
Proof.
  intros H.
  pose proof (run_eta (process_customer config4 (world []) init_state)) as E.
  destruct (outcome (process_customer config4 (world []) init_state))
    as [info|e] eqn:O; [|vm_compute in O; discriminate O].
  specialize (H _ _ _ E).
  vm_compute in O. injection O as <-. discriminate H.
Qed.

(** C7, amended.  At the start of a session [process_customer] makes the
    customer id from the clock and records it before the menu is
    announced; the hand-off result carries that id.  The car number is
    not assigned then: in the simple flow a session gets one only when
    its order is confirmed, the counter [_car_number] being incremented
    by one at that moment, after the announcement; cancelled and
    abandoned sessions carry no car number and leave the counter as it
    was.  The full flows never assign a car number. *)
Theorem car_number_assigned_on_confirmation (cfg : Config) (env : Env)
    (st st' : State) (info : handoff_info) (evs : list event) :
  process_customer cfg env st = (Ok info, st', evs) ->
  (exists rest,
      evs = (NewCustomer (customer_id_at env st) :: announcement cfg ++ rest)%list)
  /\ match info with
     | CancelledInfo id => id = customer_id_at env st
     | OperatorInfo r => h_customer_id r = customer_id_at env st
     end
  /\ (simple_flow cfg = true ->
      match record_outcome info with
      | Confirmed =>
          carried_number info = Some (_car_number st')
          /\ _car_number st' = _car_number st + 1
      | _ => carried_number info = None /\ _car_number st' = _car_number st
      end)
  /\ (simple_flow cfg = false ->
      carried_number info = None /\ _car_number st' = _car_number st).
Proof.
  intros H. rewrite process_customer_run in H.
  destruct (serve cfg env _ _) as [[[i|e] s1] ev] eqn:E; [|discriminate].
  injection H as <- <- <-.
  apply serve_ok in E as (d & sa & e1 & e2 & Hd & Hh & ->).
  split.
  { eexists. rewrite <- !app_assoc. reflexivity. }
  destruct (simple_flow cfg) eqn:Hflow.
  - apply simple_loop_invariant in Hd. unfold order_invariant in Hd.
    change (_car_number (arrival env st)) with (_car_number st) in Hd.
    apply handoff_to_operator_simple_ok in Hh
      as [(Hc & -> & ->)|(Hc & r & -> & -> & Hid & Hs & Hn & Ht)].
    + split; [reflexivity|]. split; [|discriminate]. intros _. simpl.
      unfold is_cancelled in Hc.
      destruct (selected_offer d); [|now split].
      destruct Hd as (_ & _ & _ & Hx). rewrite Hx in Hc. discriminate.
    + split; [exact Hid|]. split; [|discriminate]. intros _.
      unfold record_outcome, carried_number. rewrite Hs, Hn. simpl.
      destruct (selected_offer d).
      * destruct Hd as (_ & -> & -> & _). split; [reflexivity|lia].
      * exact Hd.
  - assert (Hfull : cancelled d = None /\ car_number d = None
                    /\ _car_number sa = _car_number st).
    { destruct (use_continuous_listening cfg).
      - pose proof (continuous_order_keeps_car_number cfg env (arrival env st)) as Hn.
        rewrite Hd in Hn. split; [eapply continuous_order_not_cancelled; eassumption|].
        split; [eapply continuous_order_no_car_number; eassumption|exact Hn].
      - pose proof (order_keeps_car_number cfg env (arrival env st)) as Hn.
        rewrite Hd in Hn. split; [eapply order_not_cancelled; eassumption|].
        split; [eapply order_no_car_number; eassumption|exact Hn]. }
    destruct Hfull as (Hcan & Hcar & Hn).
    apply handoff_to_operator_ok in Hh
      as [(X & _)|(_ & r & -> & -> & Hid & Hs & Hnum & Ht)].
    { unfold is_cancelled in X. rewrite Hcan in X. discriminate. }
    split; [exact Hid|]. split; [discriminate|]. intros _.
    simpl. rewrite Hnum, Hcar. now split.
Qed.

(** A confirmed order: the id at arrival, the car number at confirmation. *)
Lemma car_number_assigned_on_confirmation_witness :
  let x := process_customer config4 (world [says "two"]) init_state in
  exists info,
    outcome x = Ok info
    /\ (exists rest,
          events x = (NewCustomer "CUST_t0" :: announcement config4 ++ rest)%list)
    /\ carried_number info = Some 1 /\ _car_number (final x) = 1.
Proof.
  cbv zeta.
  pose proof (run_eta (process_customer config4 (world [says "two"]) init_state)) as E.
  destruct (outcome (process_customer config4 (world [says "two"]) init_state))
    as [info|e] eqn:O; [|vm_compute in O; discriminate O].
  destruct (car_number_assigned_on_confirmation _ _ _ _ _ _ E) as (Hev & _ & Hs & _).
  exists info. split; [reflexivity|]. split; [exact Hev|].
  specialize (Hs eq_refl).
  vm_compute in O. injection O as <-. simpl in Hs.
  destruct Hs as [Hc Hn]. split; [reflexivity|exact Hn].
Defined.

(* ================================================================== *)
(** ** The main loop: one session at a time *)
(* ================================================================== *)

Section SingleFlight.
Variable cfg : Config.
Variable env : Env.

(** Dialogue events neither open nor close a session. *)
Lemma single_flight_inner active clear body rest :
  forallb inner body = true ->
  single_flight active clear (body ++ rest) = single_flight active clear rest.
Proof.
  induction body as [|e body IH]; [reflexivity|].
  simpl. intros H. apply andb_true_iff in H as [He Hb].
  destruct e; try discriminate He; now apply IH.
Qed.

Lemma sessions_started_inner body :
  forallb inner body = true -> sessions_started body = 0.
Proof.
  unfold sessions_started. induction body as [|e body IH]; [reflexivity|].
  simpl. intros H. apply andb_true_iff in H as [He Hb].
  destruct e; try discriminate He; now apply IH.
Qed.

Lemma sessions_started_app a b :
  sessions_started (a ++ b) = sessions_started a + sessions_started b.
Proof. apply count_app. Qed.

(** The trace of one customer: opened, served, and closed unless an
    exception cut the session short. *)
Lemma process_customer_trace st :
  exists id body,
    forallb inner body = true
    /\ events (process_customer cfg env st) =
       (NewCustomer id :: body ++
        match outcome (process_customer cfg env st) with
        | Ok _ => [CustomerDone]
        | Raise _ => []
        end)%list.
Proof.
  rewrite process_customer_run.
  pose proof (quiet_serve cfg env (customer_id_at env st) (arrival env st)) as Hq.
  destruct (serve cfg env _ _) as [[[info|e] s1] body].
  - now exists (customer_id_at env st), body.
  - exists (customer_id_at env st), body. split; [exact Hq|].
    unfold events, outcome; simpl. now rewrite app_nil_r.
Qed.

Lemma run_loop_step detected rest car_detected st :
  run_loop cfg env (detected :: rest) car_detected st =
  if detected && negb car_detected then
    match process_customer cfg env st with
    | (Ok _, st1, evs) =>
        let x := run_loop cfg env rest true st1 in
        (outcome x, final x, Sampled detected :: evs ++ events x)
    | (Raise e, st1, evs) => (Raise e, st1, Sampled detected :: evs)
    end
  else
    let x := run_loop cfg env rest detected st in
    (outcome x, final x, Sampled detected :: events x).
Proof.
  simpl. unfold bind at 1. unfold emit.
  destruct detected, car_detected; simpl;
    try (destruct (run_loop cfg env rest _ st) as [[r s] ev]; reflexivity).
  unfold bind.
  destruct (process_customer cfg env st) as [[[info|e] s1] evs]; [|reflexivity].
  now destruct (run_loop cfg env rest true s1) as [[r s] ev].
Qed.

Lemma run_loop_single_flight samples car_detected clear st :
  (car_detected = false -> clear = true) ->
  single_flight false clear (events (run_loop cfg env samples car_detected st)) = true.
Proof.
  revert car_detected clear st.
  induction samples as [|detected rest IH]; intros car_detected clear st Hinv;
    [reflexivity|].
  rewrite run_loop_step.
  destruct detected, car_detected; cbn [andb negb].
  - cbv zeta. unfold events at 1; cbn [snd single_flight negb andb].
    rewrite orb_false_r. apply IH. discriminate.
  - rewrite (Hinv eq_refl).
    destruct (process_customer_trace st) as (id & body & Hb & Hev).
    destruct (process_customer cfg env st) as [[[info|e] s1] evs];
      unfold events, outcome in Hev; simpl in Hev; subst evs.
    + cbv zeta. unfold events at 1; cbn [snd single_flight negb andb orb app].
      rewrite <- app_assoc, (single_flight_inner _ _ _ _ Hb).
      cbn [app single_flight andb]. apply IH. discriminate.
    + unfold events; cbn [snd single_flight negb andb orb app].
      rewrite app_nil_r.
      rewrite <- (app_nil_r body), (single_flight_inner _ _ _ _ Hb). reflexivity.
  - cbv zeta. unfold events at 1; cbn [snd single_flight negb andb].
    rewrite orb_true_r. now apply IH.
  - cbv zeta. unfold events at 1; cbn [snd single_flight negb andb].
    rewrite orb_true_r. now apply IH.
Qed.

Lemma run_loop_sessions samples car_detected st :
  let x := run_loop cfg env samples car_detected st in
  sessions_started (events x) <= rising_edges car_detected samples
  /\ (outcome x = Ok tt ->
      sessions_started (events x) = rising_edges car_detected samples).
Proof.
  revert car_detected st.
  induction samples as [|detected rest IH]; intros car_detected st; cbv zeta.
  - split; [apply Nat.le_refl|reflexivity].
  - rewrite run_loop_step. cbn [rising_edges].
    destruct (detected && negb car_detected) eqn:Hedge.
    + destruct (process_customer_trace st) as (id & body & Hb & Hev).
      apply sessions_started_inner in Hb.
      apply andb_true_iff in Hedge as [-> _].
      destruct (process_customer cfg env st) as [[[info|e] s1] evs];
        unfold events, outcome in Hev; simpl in Hev; subst evs.
      * destruct (IH true s1) as [Hle Heq]. cbv zeta in Hle, Heq.
        destruct (run_loop cfg env rest true s1) as [[r s] ev].
        unfold events, outcome, sessions_started in *; cbn [fst snd] in *.
        repeat (rewrite count_cons || rewrite count_app). rewrite Hb.
        cbn [is_new_customer].
        simpl length. split; [lia|]. intros Ho. specialize (Heq Ho). lia.
      * unfold events, outcome, sessions_started in *; cbn [fst snd] in *.
        repeat (rewrite count_cons || rewrite count_app). rewrite Hb.
        cbn [is_new_customer].
        simpl length. split; [lia|discriminate].
    + destruct (IH detected st) as [Hle Heq]. cbv zeta in Hle, Heq.
      destruct (run_loop cfg env rest detected st) as [[r s] ev].
      unfold events, outcome, sessions_started in *; cbn [fst snd] in *.
      rewrite !count_cons. cbn [is_new_customer].
      split; [lia|]. intros Ho. specialize (Heq Ho). lia.
Qed.

End SingleFlight.

(** C3 (single flight).  Whatever values the sensor returns, the trace of
    [run] shows one session at a time: a session is opened only when none
    is open and the sensor has read [False] since the last one was
    opened (or none was opened yet); the sensor is not read while a
    session is open.  At most one session is opened per arrival edge of
    the samples, and exactly one per edge when the loop ends normally. *)
Theorem single_flight_run (cfg : Config) (env : Env) (samples : list bool)
    (st : State) :
  let x := run cfg env samples st in
  single_flight false true (events x) = true
  /\ sessions_started (events x) <= rising_edges false samples
  /\ (outcome x = Ok tt -> sessions_started (events x) = rising_edges false samples).
Proof.
  cbv zeta. unfold run. split.
  - now apply run_loop_single_flight.
  - apply run_loop_sessions.
Qed.

(** Two cars, the first staying on the loop for three samples. *)
Lemma single_flight_run_witness :
  let x := run config4 (world [says "one"; says "six"])
               [false; true; true; true; false; true] init_state in
  outcome x = Ok tt /\ sessions_started (events x) = 2.
Proof.
  cbv zeta.
  assert (O : outcome (run config4 (world [says "one"; says "six"])
                         [false; true; true; true; false; true] init_state) = Ok tt)
    by (vm_compute; reflexivity).
  split; [exact O|].
  exact (proj2 (proj2 (single_flight_run config4 (world [says "one"; says "six"])
                         [false; true; true; true; false; true] init_state)) O).
Defined.

(* ================================================================== *)
(** ** Listening: what the caller can tell apart *)
(* ================================================================== *)

(** C6 as the specification states it, refuted: when the recognition
    service is unreachable [listen] returns [None], exactly what it
    returns after a timeout, so the caller cannot tell the two apart. *)
Lemma service_failure_looks_like_timeout :
  ~ timeout_and_failure_distinguishable config4.
Proof.
  intros H.
  apply (H (world [silence]) (world [service_down]) init_state "connection failed");
    reflexivity.
Qed.

(** C6, amended.  [listen] returns [None], not an error, after a timeout;
    it also returns [None] when there is no microphone, when the
    recognition service fails ([sr.RequestError]) and when the speech is
    not understood ([sr.UnknownValueError]): each is caught inside
    [listen].  An exception leaves [listen] only when it is of another
    class, never for a timeout. *)
Theorem listen_none_for_timeout_and_failure (cfg : Config) (env : Env) (st : State) :
  let c := mic env (n_listen st) in
  let x := listen cfg env st in
  (microphone cfg = false -> outcome x = Ok None)
  /\ (audio c = Raise WaitTimeoutError -> outcome x = Ok None)
  /\ (forall msg, transcribe cfg c = Raise (RequestError msg) -> outcome x = Ok None)
  /\ (transcribe cfg c = Raise UnknownValueError -> outcome x = Ok None)
  /\ (forall e, outcome x = Raise e ->
        microphone cfg = true /\ transcribe cfg c = Raise e
        /\ e <> WaitTimeoutError /\ e <> UnknownValueError
        /\ forall msg, e <> RequestError msg).
Proof.
  cbv zeta. rewrite listen_run.
  destruct (microphone cfg).
  - split; [discriminate|].
    split.
    { intros Ha. unfold transcribe. now rewrite Ha. }
    split; [intros msg Ht; now rewrite Ht|].
    split; [intros Ht; now rewrite Ht|].
    intros e.
    destruct (transcribe cfg (mic env (n_listen st))) as [t|[| |m| |m]];
      simpl; try discriminate; unfold outcome; simpl; intros [= <-];
      repeat split; discriminate.
  - repeat (split; [intros; reflexivity|]).
    intros e He. discriminate He.
Qed.

(** The service is down, or nobody speaks: [None] both times. *)
Lemma listen_none_for_timeout_and_failure_witness :
  outcome (listen config4 (world [service_down]) init_state) = Ok None
  /\ outcome (listen config4 (world [silence]) init_state) = Ok None.
Proof.
  split.
  - apply (proj1 (proj2 (proj2 (listen_none_for_timeout_and_failure
             config4 (world [service_down]) init_state))) "connection failed").
    reflexivity.
  - apply (proj1 (proj2 (listen_none_for_timeout_and_failure
             config4 (world [silence]) init_state))).
    reflexivity.
Defined.

(* ================================================================== *)
(** ** The optional post-processor *)
(* ================================================================== *)

Section PostProcessor.
Variable cfg : Config.
Variable env : Env.

(** [_process_order_with_ollama] never raises: it returns the stripped
    answer of the model when there is one, not empty and different from
    the order text up to case, and the order text otherwise. *)
Lemma process_order_run text st :
  exists out st',
    _process_order_with_ollama cfg env text st = (Ok out, st', [])
    /\ forget_state st' = forget_state st
    /\ (out = text
        \/ exists response,
             ollama_client cfg = true
             /\ ollama env (n_ollama st) = Ok response
             /\ out = strip (response_text response)
             /\ truthy out = true)
    /\ (forall e, ollama env (n_ollama st) = Raise e -> out = text).
Proof.
  unfold _process_order_with_ollama.
  assert (Hsame : forall s, exists out st',
             (Ok text, s, @nil event) = (Ok out, st', [])
             /\ forget_state st' = forget_state s
             /\ (out = text
                 \/ exists response,
                      ollama_client cfg = true
                      /\ ollama env (n_ollama st) = Ok response
                      /\ out = strip (response_text response)
                      /\ truthy out = true)
             /\ (forall e, ollama env (n_ollama st) = Raise e -> out = text)).
  { intros s. exists text, s. repeat split; auto. }
  destruct (ollama_client cfg) eqn:Hclient; [|apply Hsame].
  unfold bind, gets, modify, ret; simpl.
  destruct (ollama env (n_ollama st)) as [response|e] eqn:Ho;
    [|apply (Hsame (tick_ollama st))].
  destruct (truthy (strip (response_text response))) eqn:Ht; simpl;
    [|apply (Hsame (tick_ollama st))].
  destruct (negb _); simpl; [|apply (Hsame (tick_ollama st))].
  exists (strip (response_text response)), (tick_ollama st).
  split; [reflexivity|]. split; [reflexivity|].
  split; [right; now exists response|discriminate].
Qed.

(** The continuous flow, case by case; [finish] is its last step, the
    optional post-processing. *)
Lemma continuous_order_run st :
  get_customer_order_continuous cfg env st =
  let intro := Spoke "Please tell me your complete order. You can take your time. Say 'done' or 'that's all' when you're finished." in
  match listen_continuous env st with
  | (Raise e, s1, e1) => (Raise e, s1, intro :: e1)
  | (Ok [], s1, e1) =>
      (Ok (mk_order None None [] None None None), s1,
       intro :: e1 ++
       [Spoke "I didn't catch your order. Let me connect you with our team member."])
  | (Ok phrases, s1, e1) =>
      let full_order := join ". " phrases in
      let selected :=
        first_mentioned (List.length (special_offers cfg)) (lower full_order) in
      let captured :=
        Spoke ("I captured your order. Let me repeat it back: " ++ full_order
               ++ ". Is that correct?") in
      match listen cfg env s1 with
      | (Raise e, s2, e2) => (Raise e, s2, intro :: e1 ++ captured :: e2)
      | (Ok confirmation, s2, e2) =>
          let reply :=
            match confirmation with
            | Some (String c0 c') =>
                if any_in ["no"; "wrong"; "change"; "not quite"] (lower (String c0 c'))
                then [Spoke "No problem. Let me connect you with our team member who can help clarify your order."]
                else [Spoke "Perfect! I've captured your order."]
            | _ => []
            end in
          let said := intro :: e1 ++ captured :: e2 ++ reply in
          if use_ollama cfg && ollama_client cfg && truthy full_order then
            match _process_order_with_ollama cfg env full_order s2 with
            | (Ok processed, s3, e3) =>
                (Ok (mk_order (Some (if truthy processed then processed else full_order))
                              selected phrases None None None),
                 s3, said ++ e3)
            | (Raise e, s3, e3) => (Raise e, s3, said ++ e3)
            end
          else
            (Ok (mk_order (Some full_order) selected phrases None None None), s2, said)
      end
  end%list.
Proof.
  unfold get_customer_order_continuous. cbv zeta.
  unfold bind, speak, emit, ret.
  destruct (listen_continuous env st) as [[[phrases|e] s1] e1]; [|reflexivity].
  destruct phrases as [|p ps]; [reflexivity|].
  destruct (listen cfg env s1) as [[[confirmation|e] s2] e2]; [|reflexivity].
  destruct confirmation as [[|c0 c']|];
    try destruct (any_in _ _);
    destruct (use_ollama cfg && ollama_client cfg && truthy (join ". " (p :: ps)));
    try destruct (_process_order_with_ollama cfg env _ s2) as [[[processed|e] s3] e3];
    repeat (progress (cbn [app]; rewrite <- ?app_assoc, ?app_nil_r));
    reflexivity.
Qed.

End PostProcessor.

(** The continuous flow with and without the post-processor. *)
Lemma continuous_order_forget cfg env st :
  let x := get_customer_order_continuous cfg env st in
  let y := get_customer_order_continuous (without_ollama cfg) env st in
  forget forget_order x = forget forget_order y
  /\ match outcome x, outcome y with
     | Ok d1, Ok d2 =>
         truthy_opt (full_order_text d1) = truthy_opt (full_order_text d2)
     | _, _ => True
     end.
Proof.
  cbv zeta. rewrite !continuous_order_run. cbv zeta.
  change (special_offers (without_ollama cfg)) with (special_offers cfg).
  change (use_ollama (without_ollama cfg)) with false.
  change (listen (without_ollama cfg) env) with (listen cfg env).
  cbn [andb].
  destruct (listen_continuous env st) as [[[phrases|e] s1] e1]; [|(split; [reflexivity|unfold outcome; cbn; trivial])].
  destruct phrases as [|p ps]; [(split; [reflexivity|unfold outcome; cbn; trivial])|].
  destruct (listen cfg env s1) as [[[confirmation|e] s2] e2]; [|(split; [reflexivity|unfold outcome; cbn; trivial])].
  destruct (use_ollama cfg && ollama_client cfg) eqn:Hu; cbn [andb]; [|(split; [reflexivity|unfold outcome; cbn; trivial])].
  destruct (truthy (join ". " (p :: ps))) eqn:Ht; [|(split; [reflexivity|unfold outcome; cbn; trivial])].
  destruct (process_order_run cfg env (join ". " (p :: ps)) s2) as (out & s3 & -> & Hs & _ & _).
  unfold forget, outcome, final, events; cbn [fst snd].
  rewrite Hs, app_nil_r. split; [reflexivity|].
  cbn [truthy_opt full_order_text].
  destruct (truthy out) eqn:Ho; [now rewrite Ho, Ht|reflexivity].
Qed.

Lemma handoff_to_operator_run cfg env id d st :
  handoff_to_operator cfg env id d st =
  if is_cancelled d then (Ok (CancelledInfo id), st, [])
  else
    match offer_details cfg d with
    | Raise e => (Raise e, tick_now st, [])
    | Ok details =>
        let r :=
          mk_record id
            (match order_id d with Some (String c s) => String c s | _ => id end)
            (car_number d) (now env (n_now st)) (full_order_text d)
            (order_phrases d) (selected_offer d) details "ready_for_operator" in
        (Ok (OperatorInfo r), queue_put r (tick_now st),
         (if operator_notification cfg then [Notified r] else []) ++
         [Spoke (if truthy_opt (full_order_text d)
                 then "Thank you! Your order is on the screen. Our team is preparing it. Please drive to the pick-up window to collect your order and pay."
                 else "Please drive to the pick-up window. Our team will help you there.")])
    end%list.
Proof.
  unfold handoff_to_operator. destruct (is_cancelled d); [reflexivity|].
  unfold bind, lift, modify, emit, speak, ret. rewrite datetime_now_run.
  destruct (offer_details cfg d) as [details|e]; [|reflexivity].
  destruct (operator_notification cfg), (truthy_opt (full_order_text d)); reflexivity.
Qed.

(** Two orders that differ in their text only are handed off alike. *)
Lemma handoff_to_operator_forget cfg env id d1 d2 s1 s2 :
  forget_order d1 = forget_order d2 ->
  truthy_opt (full_order_text d1) = truthy_opt (full_order_text d2) ->
  forget_state s1 = forget_state s2 ->
  forget forget_info (handoff_to_operator cfg env id d1 s1)
  = forget forget_info (handoff_to_operator cfg env id d2 s2).
Proof.
  intros Hd Ht Hs. rewrite !handoff_to_operator_run.
  destruct d1 as [t1 sel1 ph1 car1 oid1 can1], d2 as [t2 sel2 ph2 car2 oid2 can2].
  unfold forget_order in Hd.
  cbn [selected_offer order_phrases car_number order_id cancelled] in Hd.
  injection Hd as <- <- <- <- <-.
  destruct s1 as [a1 b1 q1 l1 c1 o1 n1], s2 as [a2 b2 q2 l2 c2 o2 n2].
  unfold forget_state in Hs.
  cbn [_car_number current_customer order_queue n_listen n_continuous n_now] in Hs.
  injection Hs as <- <- Hq <- <- <-.
  cbn [full_order_text] in Ht.
  unfold is_cancelled, offer_details.
  cbn [cancelled selected_offer full_order_text order_phrases car_number order_id
       n_now].
  rewrite Ht.
  assert (Hq' : forall r1 r2, forget_record r1 = forget_record r2 ->
                  map forget_record (q1 ++ [r1]) = map forget_record (q2 ++ [r2])).
  { intros r1 r2 Hr. now rewrite !map_app, Hq; simpl; rewrite Hr. }
  destruct can1 as [[|]|];
    try (unfold forget, forget_state, outcome, final, events;
         cbn [fst snd _car_number current_customer order_queue n_listen
              n_continuous n_now map]; now rewrite Hq);
    (destruct sel1 as [[|i]|];
      try destruct (index (special_offers cfg) i);
      unfold forget, forget_state, outcome, final, events, queue_put, tick_now;
      cbn [fst snd _car_number current_customer order_queue n_listen
           n_continuous n_now];
      rewrite ?map_app; try rewrite Hq;
      try (rewrite (Hq' _ _ eq_refl) || idtac);
      destruct (operator_notification cfg); try reflexivity;
      (f_equal; [f_equal|]; try reflexivity; f_equal; now apply Hq')).
Qed.

Lemma serve_forget cfg env id st :
  forget forget_info (serve cfg env id st)
  = forget forget_info (serve (without_ollama cfg) env id st).
Proof.
  unfold serve.
  change (simple_flow (without_ollama cfg)) with (simple_flow cfg).
  change (use_continuous_listening (without_ollama cfg))
    with (use_continuous_listening cfg).
  destruct (simple_flow cfg); [reflexivity|].
  destruct (use_continuous_listening cfg); [|reflexivity].
  unfold bind at 1 3. rewrite !announce_offers_run.
  change (announcement (without_ollama cfg)) with (announcement cfg).
  unfold bind.
  destruct (continuous_order_forget cfg env st) as [Hx Ht]. cbv zeta in Hx, Ht.
  destruct (get_customer_order_continuous cfg env st) as [[[d1|x1] s1] e1],
           (get_customer_order_continuous (without_ollama cfg) env st)
             as [[[d2|x2] s2] e2];
    unfold forget, outcome, final, events in Hx, Ht; cbn [fst snd] in Hx, Ht;
    try discriminate Hx.
  - remember (forget_order d1) as fd1 eqn:E1. remember (forget_order d2) as fd2 eqn:E2.
    remember (forget_state s1) as fs1 eqn:E3. remember (forget_state s2) as fs2 eqn:E4.
    injection Hx as Hd Hs He. subst fd1 fd2 fs1 fs2.
    pose proof (handoff_to_operator_forget cfg env id d1 d2 s1 s2 Hd Ht Hs) as Hh.
    change (handoff_to_operator (without_ollama cfg) env id d2 s2)
      with (handoff_to_operator cfg env id d2 s2).
    destruct (handoff_to_operator cfg env id d1 s1) as [[r1 t1] h1],
             (handoff_to_operator cfg env id d2 s2) as [[r2 t2] h2].
    unfold forget, outcome, final, events in *; cbn [fst snd] in *.
    remember (forget_state t1) as ft1 eqn:E1. remember (forget_state t2) as ft2 eqn:E2.
    remember (match r1 with Ok a => Ok (forget_info a) | Raise e => Raise e end) as o1.
    remember (match r2 with Ok a => Ok (forget_info a) | Raise e => Raise e end) as o2.
    injection Hh as Ho Hs' He'.
    now rewrite Ho, Hs', !map_app, He, He'.
  - remember (forget_state s1) as fs1 eqn:E3. remember (forget_state s2) as fs2 eqn:E4.
    injection Hx as -> Hs He. subst fs1 fs2.
    unfold forget, outcome, final, events; cbn [fst snd].
    now rewrite Hs, !map_app, He.
Qed.

(** C8 (the post-processor cannot change the session).
    [_process_order_with_ollama] never raises: it returns the stripped
    answer of the model, or the order text unchanged, and the order text
    unchanged whenever the call to the model fails.  Whatever the model
    answers, the dictionary [get_customer_order_continuous] returns, and
    the result, the fields and the events of the whole
    [process_customer], are those of the same run with the
    post-processor switched off, but for the formatted text (and the
    count of calls to the model); and a run with the post-processor
    switched off does not depend on the model at all. *)
Theorem post_processor_is_harmless (cfg : Config) (env : Env) (st : State) :
  (forall text, exists out,
      outcome (_process_order_with_ollama cfg env text st) = Ok out
      /\ (out = text
          \/ exists response,
               ollama_client cfg = true
               /\ ollama env (n_ollama st) = Ok response
               /\ out = strip (response_text response)
               /\ truthy out = true)
      /\ (forall e, ollama env (n_ollama st) = Raise e -> out = text))
  /\ forget forget_order (get_customer_order_continuous cfg env st)
     = forget forget_order (get_customer_order_continuous (without_ollama cfg) env st)
  /\ forget forget_info (process_customer cfg env st)
     = forget forget_info (process_customer (without_ollama cfg) env st)
  /\ (forall o, process_customer (without_ollama cfg) (with_ollama env o) st
                = process_customer (without_ollama cfg) env st).
Proof.
  split; [|split; [|split]].
  - intros text.
    destruct (process_order_run cfg env text st) as (out & st' & E & _ & H1 & H2).
    exists out. rewrite E. now repeat split.
  - apply continuous_order_forget.
  - rewrite !process_customer_run.
    pose proof (serve_forget cfg env (customer_id_at env st) (arrival env st)) as H.
    destruct (serve cfg env _ _) as [[[i1|x1] s1] e1],
             (serve (without_ollama cfg) env _ _) as [[[i2|x2] s2] e2];
      unfold forget, outcome, final, events in *; cbn [fst snd] in *;
      try discriminate H.
    + remember (forget_info i1) as f1. remember (forget_info i2) as f2.
      remember (forget_state s1) as fs1 eqn:E1.
      remember (forget_state s2) as fs2 eqn:E2.
      injection H as Hi Hs He. subst.
      rewrite Hi. cbn [map]. rewrite !map_app, He. cbn [map].
      unfold forget_state in *.
      cbn [set_current_customer _car_number current_customer order_queue n_listen
           n_continuous n_now].
      remember (map forget_record (order_queue s1)) as q1.
      remember (map forget_record (order_queue s2)) as q2.
      injection Hs as -> _ -> -> -> ->. reflexivity.
    + remember (forget_state s1) as fs1 eqn:E1.
      remember (forget_state s2) as fs2 eqn:E2.
      injection H as -> Hs He. subst. now rewrite Hs; cbn [map]; rewrite He.
  - intros o. reflexivity.
Qed.

(** The model cannot be reached: the order text comes back unchanged. *)
Lemma post_processor_is_harmless_witness :
  let env := world_full [says "yes"] ["a zinger burger"; "done"]
                        (Raise (OtherError "connection refused")) in
  outcome (_process_order_with_ollama config_full env "a zinger burger. done" init_state)
  = Ok "a zinger burger. done".
Proof.
  cbv zeta.
  destruct (proj1 (post_processor_is_harmless config_full
              (world_full [says "yes"] ["a zinger burger"; "done"]
                          (Raise (OtherError "connection refused"))) init_state)
              "a zinger burger. done") as (out & Ho & _ & Hfail).
  rewrite Ho. f_equal. exact (Hfail _ eq_refl).
Defined.

(* ================================================================== *)
(** ** The queue and the current customer *)
(* ================================================================== *)

Section QueueAndCustomer.
Variable cfg : Config.
Variable env : Env.

Lemma handoff_to_operator_simple_run id d st :
  handoff_to_operator_simple cfg env id d st =
  if is_cancelled d then (Ok (CancelledInfo id), st, [])
  else
    let h := handoff_to_operator cfg env id d st in
    (outcome h, final h,
     SpokeOrder ("Your order is. " ++
                 match full_order_text d with
                 | Some (String c s) => String c s
                 | _ => "No order captured"
                 end) :: events h).
Proof.
  unfold handoff_to_operator_simple. destruct (is_cancelled d); [reflexivity|].
  unfold bind, speak_order, emit.
  now destruct (handoff_to_operator cfg env id d st) as [[r s] e].
Qed.

(** A hand-off appends at most one record, and exactly the one it
    returns. *)
Lemma handoff_to_operator_queue id d st :
  let h := handoff_to_operator cfg env id d st in
  order_queue (final h) =
  (order_queue st ++ match outcome h with
                     | Ok (OperatorInfo r) => [r]
                     | _ => []
                     end)%list.
Proof.
  cbv zeta. rewrite handoff_to_operator_run.
  destruct (is_cancelled d); [simpl; now rewrite app_nil_r|].
  destruct (offer_details cfg d); simpl; [reflexivity|now rewrite app_nil_r].
Qed.

Lemma handoff_to_operator_simple_queue id d st :
  let h := handoff_to_operator_simple cfg env id d st in
  order_queue (final h) =
  (order_queue st ++ match outcome h with
                     | Ok (OperatorInfo r) => [r]
                     | _ => []
                     end)%list.
Proof.
  cbv zeta. rewrite handoff_to_operator_simple_run.
  destruct (is_cancelled d); [simpl; now rewrite app_nil_r|].
  apply handoff_to_operator_queue.
Qed.

(** Serving a customer, whatever the flow and however it ends. *)
Lemma serve_queue id st :
  let x := serve cfg env id st in
  order_queue (final x) =
  (order_queue st ++ match outcome x with
                     | Ok (OperatorInfo r) => [r]
                     | _ => []
                     end)%list.
Proof.
  cbv zeta. unfold serve.
  assert (Hstep : forall (order : M order_data) (hand : order_data -> M handoff_info),
    (forall s, order_queue (final (order s)) = order_queue s) ->
    (forall d s, order_queue (final (hand d s)) =
                 (order_queue s ++ match outcome (hand d s) with
                                   | Ok (OperatorInfo r) => [r]
                                   | _ => []
                                   end)%list) ->
    let x := (announce_offers cfg ;; d <- order ;; hand d) st in
    order_queue (final x) =
    (order_queue st ++ match outcome x with
                       | Ok (OperatorInfo r) => [r]
                       | _ => []
                       end)%list).
  { intros order hand Ho Hh. cbv zeta. unfold bind.
    rewrite announce_offers_run.
    specialize (Ho st).
    destruct (order st) as [[[d|e] s1] e1]; unfold final in Ho; simpl in Ho.
    - specialize (Hh d s1). destruct (hand d s1) as [[r s2] e2].
      unfold final, outcome in *; simpl in *. now rewrite Hh, Ho.
    - unfold final, outcome; simpl. now rewrite Ho, app_nil_r. }
  destruct (simple_flow cfg).
  - apply Hstep.
    + intros s. apply (proj1 (simple_order_keeps_queue cfg env s)).
    + intros d s. apply handoff_to_operator_simple_queue.
  - apply Hstep.
    + intros s. destruct (use_continuous_listening cfg).
      * apply (proj1 (continuous_order_keeps_queue cfg env s)).
      * apply (proj1 (order_keeps_queue cfg env s)).
    + intros d s. apply handoff_to_operator_queue.
Qed.

Lemma serve_keeps_customer id st :
  current_customer (final (serve cfg env id st)) = current_customer st.
Proof.
  apply (respects_serve (fun s s' _ => current_customer s' = current_customer s));
    try reflexivity.
  intros s1 s2 s3 _ _ H1 H2. congruence.
Qed.

Lemma process_customer_queue st :
  let x := process_customer cfg env st in
  order_queue (final x) =
  (order_queue st ++ match outcome x with
                     | Ok (OperatorInfo r) => [r]
                     | _ => []
                     end)%list.
Proof.
  cbv zeta. rewrite process_customer_run.
  pose proof (serve_queue (customer_id_at env st) (arrival env st)) as H.
  cbv zeta in H.
  destruct (serve cfg env _ _) as [[[info|e] s1] evs];
    unfold final, outcome in *; simpl in *; exact H.
Qed.

End QueueAndCustomer.

(** X1.  [process_customer] clears [current_customer] when it returns;
    when the session raises, the field still names the customer that
    was being served. *)
Theorem current_customer_after_session (cfg : Config) (env : Env) (st : State) :
  let x := process_customer cfg env st in
  match outcome x with
  | Ok _ => current_customer (final x) = None
  | Raise _ => current_customer (final x) = Some (customer_id_at env st)
  end.
Proof.
  cbv zeta. rewrite process_customer_run.
  pose proof (serve_keeps_customer cfg env (customer_id_at env st) (arrival env st)) as H.
  destruct (serve cfg env _ _) as [[[info|e] s1] evs];
    unfold final, outcome in *; simpl in *; [reflexivity|exact H].
Qed.

(** X2.  Over a whole [run] the operator queue only grows at its tail:
    what was queued before is still there, in the same order, and at
    most one record is added for each session started. *)
Theorem run_queue_grows_at_tail (cfg : Config) (env : Env) (samples : list bool)
    (st : State) :
  let x := run cfg env samples st in
  exists new,
    order_queue (final x) = (order_queue st ++ new)%list
    /\ List.length new <= sessions_started (events x).
Proof.
  cbv zeta. unfold run. generalize false as car_detected. revert st.
  induction samples as [|detected rest IH]; intros st car_detected.
  - exists []. simpl. now rewrite app_nil_r.
  - rewrite run_loop_step.
    destruct (detected && negb car_detected).
    + pose proof (process_customer_queue cfg env st) as Hq. cbv zeta in Hq.
      destruct (process_customer_trace cfg env st) as (id & body & Hb & Hev).
      apply sessions_started_inner in Hb.
      destruct (process_customer cfg env st) as [[[info|e] s1] evs];
        unfold final, outcome, events in Hq, Hev; simpl in Hq, Hev; subst evs.
      * destruct (IH s1 true) as (new & Hn & Hl).
        destruct (run_loop cfg env rest true s1) as [[r s] ev].
        unfold final, events, sessions_started in *; cbn [fst snd] in *.
        rewrite Hn, Hq, <- app_assoc. eexists; split; [reflexivity|].
        repeat (rewrite count_cons || rewrite count_app). rewrite Hb.
        cbn [is_new_customer]. rewrite length_app.
        destruct info; simpl; lia.
      * exists []. unfold final, events; cbn [fst snd].
        rewrite Hq. split; [reflexivity|simpl; lia].
    + destruct (IH st detected) as (new & Hn & Hl).
      destruct (run_loop cfg env rest detected st) as [[r s] ev].
      unfold final, events, sessions_started in *; cbn [fst snd] in *.
      exists new. split; [exact Hn|].
      rewrite count_cons. cbn [is_new_customer]. lia.
Qed.

(* ================================================================== *)
(** ** The simple flow and the length of the menu *)
(* ================================================================== *)

Section MenuLength.
Variable cfg : Config.
Variable env : Env.

Lemma offers_to_announce_index i :
  i < menu_choices -> menu_choices <= List.length (special_offers cfg) ->
  exists o, index (offers_to_announce cfg) i = Ok o
            /\ index (special_offers cfg) i = Ok o.
Proof.
  intros Hi Hl. unfold index, offers_to_announce.
  destruct (nth_error (special_offers cfg) i) as [o|] eqn:E.
  - exists o. split; [|reflexivity].
    now rewrite nth_error_firstn, (proj2 (Nat.ltb_lt _ _) Hi), E.
  - apply nth_error_None in E. lia.
Qed.

Lemma index_short {A} (l : list A) i :
  List.length l <= i -> index l i = Raise IndexError.
Proof.
  intros H. unfold index. now rewrite (proj2 (nth_error_None l i) H).
Qed.

(** One turn returns when its capture is handled and the menu is long
    enough. *)
Lemma simple_turn_returns st :
  menu_choices <= List.length (special_offers cfg) ->
  (microphone cfg = true -> unhandled cfg (mic env (n_listen st)) = false) ->
  exists f st1 e1,
    simple_turn cfg env st = (Ok f, st1, e1)
    /\ n_listen st1 = (if microphone cfg then S (n_listen st) else n_listen st).
Proof.
  intros Hl Hm. rewrite simple_turn_run, listen_run.
  destruct (microphone cfg).
  - specialize (Hm eq_refl). unfold unhandled in Hm.
    destruct (listen_handlers _) as [r|e]; [|discriminate].
    destruct (order_text_of r) as [t|]; [|now eauto].
    cbv zeta. destruct (asks_repeat _); [now eauto|].
    destruct (asks_cancel _); [now eauto|].
    destruct (first_mentioned _ _) as [i|] eqn:F; [|now eauto].
    apply first_mentioned_range in F.
    rewrite confirm_order_run. cbv zeta. unfold order_display.
    destruct i as [|i]; [lia|].
    destruct (offers_to_announce_index i) as (o & Ho & _); [lia|exact Hl|].
    rewrite Ho. destruct (offers_to_announce cfg); now eauto.
  - simpl. now eauto.
Qed.

Lemma forallb_seq_S (p : nat -> bool) from k :
  forallb p (seq from (S k)) = p from && forallb p (seq (S from) k).
Proof. reflexivity. Qed.

Lemma simple_loop_returns turns st :
  menu_choices <= List.length (special_offers cfg) ->
  mic_handled cfg env (n_listen st) turns = true ->
  exists d st' evs, simple_loop cfg env turns st = (Ok d, st', evs).
Proof.
  intros Hl. revert st. induction turns as [|turns IH]; intros st Hm.
  - do 3 eexists. reflexivity.
  - rewrite simple_loop_step.
    destruct (simple_turn_returns st Hl) as (f & st1 & e1 & -> & Hn).
    { intros M. unfold mic_handled in Hm. rewrite M, forallb_seq_S in Hm.
      simpl in Hm. apply andb_prop in Hm as [Hm _].
      now apply negb_true_iff in Hm. }
    destruct f as [|d]; [|now eauto].
    destruct (IH st1) as (d & st' & evs & E).
    { unfold mic_handled in *. destruct (microphone cfg); [|reflexivity].
      rewrite forallb_seq_S in Hm. simpl in Hm |- *.
      apply andb_prop in Hm as [_ Hm]. now rewrite Hn. }
    rewrite E. unfold outcome, final, events; simpl. now eauto.
Qed.

End MenuLength.

(** X3.  With at least four offers configured, a simple-flow session
    always returns, as long as the microphone raises nothing but the
    three exceptions [listen] catches during the four turns of the
    dialogue. *)
Theorem simple_session_returns (cfg : Config) (env : Env) (st : State) :
  simple_flow cfg = true ->
  4 <= List.length (special_offers cfg) ->
  mic_handled cfg env (n_listen st) (max_repeats + 1) = true ->
  exists info, outcome (process_customer cfg env st) = Ok info.
Proof.
  intros Hs Hl Hm. rewrite process_customer_run. unfold serve. rewrite Hs.
  unfold bind. rewrite announce_offers_run.
  destruct (simple_loop_returns cfg env (max_repeats + 1) (arrival env st) Hl Hm)
    as (d & st' & evs & E).
  pose proof (simple_loop_invariant cfg env _ _ _ _ _ E) as Hinv.
  unfold get_customer_order_simple. rewrite E.
  rewrite handoff_to_operator_simple_run.
  destruct (is_cancelled d); [unfold outcome; simpl; now eauto|].
  cbv zeta. rewrite handoff_to_operator_run.
  destruct (is_cancelled d); [unfold outcome; simpl; now eauto|].
  assert (Ho : exists o, offer_details cfg d = Ok o).
  { unfold offer_details. unfold order_invariant in Hinv.
    destruct (selected_offer d) as [[|i]|]; [now eauto| |now eauto].
    destruct (offers_to_announce_index cfg i) as (o & _ & ->);
      [unfold menu_choices in *; lia|exact Hl|now eauto]. }
  destruct Ho as (o & ->). unfold outcome; simpl. now eauto.
Qed.

Lemma simple_session_returns_witness :
  exists info,
    outcome (process_customer config4 (world [silence; says "two please"]) init_state)
    = Ok info.
Proof.
  apply simple_session_returns; [reflexivity|simpl; lia|reflexivity].
Defined.

(** X4.  When the customer chooses an item number the menu does not
    have, the simple-flow session ends in an [IndexError]: the order is
    announced as confirmed and the car counter is incremented, but no
    record reaches the operator queue and the customer stays the
    current one. *)
Theorem missing_item_aborts_session (cfg : Config) (env : Env) (st : State)
    (response : string) (i : nat) :
  simple_flow cfg = true ->
  outcome (listen cfg env (arrival env st)) = Ok (Some response) ->
  asks_repeat (response_lower_of response) = false ->
  asks_cancel (response_lower_of response) = false ->
  first_mentioned menu_choices (response_lower_of response) = Some i ->
  List.length (special_offers cfg) < i ->
  let x := process_customer cfg env st in
  outcome x = Raise IndexError
  /\ _car_number (final x) = S (_car_number st)
  /\ order_queue (final x) = order_queue st
  /\ current_customer (final x) = Some (customer_id_at env st)
  /\ In (Spoke ("Order confirmed. Car number "
                ++ _number_to_word (S (_car_number st)) ++ "."))
        (events x).
Proof.
  intros Hs Hl Hr Hc Hf Hi. cbv zeta.
  pose proof (first_mentioned_range _ _ _ Hf) as Hrange.
  assert (Ht : truthy (response_lower_of response) = true).
  { unfold first_mentioned in Hf. apply find_some in Hf as [_ Hf].
    apply (mentions_truthy i); [unfold menu_choices in *; lia|exact Hf]. }
  rewrite process_customer_run. unfold serve. rewrite Hs.
  unfold bind. rewrite announce_offers_run.
  unfold get_customer_order_simple.
  change (max_repeats + 1) with (S max_repeats). rewrite simple_loop_step.
  rewrite simple_turn_run, (listen_returns _ _ _ _ Hl).
  rewrite (truthy_response_lower response Ht).
  fold (response_lower_of response). cbv zeta. rewrite Hr, Hc, Hf.
  rewrite confirm_order_run. cbv zeta.
  replace (_car_number (tick_listen (arrival env st)) + 1)
    with (S (_car_number st)) by (simpl; lia).
  destruct i as [|i]; [lia|].
  unfold order_display.
  destruct (offers_to_announce cfg) as [|o os] eqn:Eo.
  - (* nothing configured: the hand-off looks the item up *)
    rewrite handoff_to_operator_simple_run. cbn [is_cancelled cancelled].
    cbv zeta. rewrite handoff_to_operator_run. cbn [is_cancelled cancelled].
    unfold offer_details. cbn [selected_offer].
    rewrite index_short by lia.
    unfold outcome, final, events; cbn [fst snd].
    repeat split.
    right. apply in_or_app. right. apply in_or_app. left.
    apply in_or_app. right. now left.
  - rewrite <- Eo. rewrite index_short.
    + unfold outcome, final, events; cbn [fst snd]. repeat split.
      right. apply in_or_app. right. apply in_or_app. right. now left.
    + unfold offers_to_announce. rewrite length_firstn. lia.
Qed.

Lemma missing_item_aborts_session_witness :
  let x := process_customer config3 (world [says "Four"]) init_state in
  outcome x = Raise IndexError
  /\ _car_number (final x) = 1
  /\ order_queue (final x) = []
  /\ current_customer (final x) = Some "CUST_t0"
  /\ In (Spoke "Order confirmed. Car number one.") (events x).
Proof.
  apply (missing_item_aborts_session config3 (world [says "Four"]) init_state "Four" 4);
    try reflexivity.
  simpl; lia.
Defined.

(* ================================================================== *)
(** ** The full flows return *)
(* ================================================================== *)

Section Returns.
Variable cfg : Config.
Variable env : Env.

Lemma mic_handled_spec from k :
  mic_handled cfg env from k = true <->
  (microphone cfg = true ->
   forall j, from <= j < from + k -> unhandled cfg (mic env j) = false).
Proof.
  unfold mic_handled. destruct (microphone cfg); simpl.
  - rewrite forallb_forall. split.
    + intros H _ j Hj. apply negb_true_iff, H, in_seq. lia.
    + intros H j Hj. apply negb_true_iff, (H eq_refl), in_seq, Hj.
  - split; [discriminate|reflexivity].
Qed.

Lemma mic_handled_sub from k from' k' :
  from <= from' -> from' + k' <= from + k ->
  mic_handled cfg env from k = true -> mic_handled cfg env from' k' = true.
Proof.
  rewrite !mic_handled_spec. intros H1 H2 H M j Hj. apply (H M). lia.
Qed.

Lemma returns_ret {A} (Q : A -> Prop) a : Q a -> returns_within cfg env 0 Q (ret a).
Proof.
  intros H st _. exists a, st, [].
  repeat split; trivial; unfold listens; simpl; lia.
Qed.

Lemma returns_emit e :
  is_listen e = false -> returns_within cfg env 0 (fun _ => True) (emit e).
Proof.
  intros H st _. exists tt, st, [e]. unfold listens. simpl. rewrite H.
  repeat split; simpl; lia.
Qed.

Lemma returns_bind {A B} k1 k2 (Q1 : A -> Prop) (Q2 : B -> Prop)
    (m : M A) (f : A -> M B) :
  returns_within cfg env k1 Q1 m -> (forall a, Q1 a -> returns_within cfg env k2 Q2 (f a)) ->
  returns_within cfg env (k1 + k2) Q2 (bind m f).
Proof.
  intros Hm Hf st H.
  destruct (Hm st) as (a & s1 & e1 & E1 & Ha & Hn1 & Hl1).
  { revert H. apply mic_handled_sub; lia. }
  destruct (Hf a Ha s1) as (b & s2 & e2 & E2 & Hb & Hn2 & Hl2).
  { revert H. apply mic_handled_sub; lia. }
  exists b, s2, (e1 ++ e2)%list. unfold bind. rewrite E1, E2.
  repeat split; trivial; try lia. unfold listens in *.
  rewrite count_app. lia.
Qed.

Lemma returns_weaken {A} k k' (Q Q' : A -> Prop) (m : M A) :
  k <= k' -> (forall a, Q a -> Q' a) -> returns_within cfg env k Q m -> returns_within cfg env k' Q' m.
Proof.
  intros Hk HQ Hm st H.
  destruct (Hm st) as (a & s1 & e1 & E1 & Ha & Hn1 & Hl1).
  { revert H. apply mic_handled_sub; lia. }
  exists a, s1, e1. repeat split; auto; lia.
Qed.

Lemma returns_listen : returns_within cfg env 1 (fun _ => True) (listen cfg env).
Proof.
  intros st H. rewrite listen_run.
  destruct (microphone cfg) eqn:M.
  - pose proof (proj1 (mic_handled_spec _ _) H M (n_listen st)) as H'.
    unfold unhandled in H'.
    destruct (listen_handlers _) as [r|e]; [|discriminate H'; lia].
    exists r, (tick_listen st), [Listened r].
    repeat split; unfold listens; simpl; lia.
  - exists None, st, [Listened None].
    repeat split; unfold listens; simpl; lia.
Qed.

Lemma first_mentioned_in_menu text previous :
  in_menu cfg previous ->
  in_menu cfg match first_mentioned (List.length (special_offers cfg)) text with
              | Some i => Some i
              | None => previous
              end.
Proof.
  intros H. destruct (first_mentioned _ _) eqn:F; [|exact H].
  exact (first_mentioned_range _ _ _ F).
Qed.

Ltac returns_step :=
  match goal with
  | |- returns_within _ _ ?k _ (bind (listen _ _) _) =>
      eapply (returns_weaken (1 + pred k));
      [simpl; lia | intros ? HQ; exact HQ
      | eapply returns_bind; [apply returns_listen | intros ? _] ]
  | |- returns_within _ _ ?k _ (bind (speak _) _) =>
      eapply (returns_weaken (0 + k));
      [simpl; lia | intros ? HQ; exact HQ
      | eapply returns_bind; [apply returns_emit; reflexivity | intros ? _] ]
  | |- returns_within _ _ ?k _ (bind (ret _) _) =>
      eapply (returns_weaken (0 + k));
      [simpl; lia | intros ? HQ; exact HQ
      | eapply returns_bind;
        [apply (returns_ret (fun _ => True)); exact I | intros ? _] ]
  | |- returns_within _ _ ?k _ (ret _) =>
      eapply (returns_weaken 0 k);
      [lia | intros ? HQ; exact HQ
      | apply returns_ret; simpl snd;
        first [assumption | apply first_mentioned_in_menu; assumption] ]
  | |- returns_within _ _ _ _ (match ?x with _ => _ end) => destruct x
  end.

Lemma returns_order_attempt attempt vars :
  in_menu cfg (snd vars) ->
  returns_within cfg env (attempt_listens attempt)
          (fun x => in_menu cfg (snd (snd x)))
          (order_attempt cfg env attempt vars).
Proof.
  destruct vars as [order_text selected]. simpl snd. intros Hv.
  unfold order_attempt, attempt_listens.
  destruct (attempt <? max_attempts - 1)%nat; simpl pred; repeat returns_step.
Qed.

Lemma returns_order_attempts attempts vars :
  in_menu cfg (snd vars) ->
  returns_within cfg env (list_sum (map attempt_listens attempts))
          (fun vars' => in_menu cfg (snd vars'))
          (order_attempts cfg env attempts vars).
Proof.
  revert vars. induction attempts as [|attempt rest IH]; intros vars Hv.
  - apply returns_ret, Hv.
  - simpl. eapply returns_bind; [apply returns_order_attempt, Hv|].
    intros [stop vars'] Hv'. simpl in Hv'. destruct stop.
    + eapply (returns_weaken 0); [lia|intros ? H; exact H|].
      apply returns_ret, Hv'.
    + apply IH, Hv'.
Qed.

Lemma returns_get_customer_order :
  returns_within cfg env (list_sum (map attempt_listens (seq 0 max_attempts)))
          (fun d => in_menu cfg (selected_offer d) /\ is_cancelled d = false)
          (get_customer_order cfg env).
Proof.
  unfold get_customer_order.
  eapply (returns_weaken (_ + 0)); [rewrite Nat.add_0_r; reflexivity
                                   |intros ? H; exact H|].
  eapply returns_bind; [apply (returns_order_attempts _ (None, None)); exact I|].
  intros [order_text selected] Hs. apply returns_ret. now split.
Qed.

Lemma listen_continuous_run st :
  listen_continuous env st =
  match continuous env (n_continuous st) with
  | Ok phrases => (Ok phrases, tick_continuous st, [])
  | Raise e => (Raise e, tick_continuous st, [])
  end.
Proof.
  unfold listen_continuous, bind, gets, modify, lift.
  now destruct (continuous env (n_continuous st)).
Qed.

Lemma continuous_order_returns st :
  devices_handled cfg env st = true ->
  use_continuous_listening cfg = true ->
  exists d st' evs,
    get_customer_order_continuous cfg env st = (Ok d, st', evs)
    /\ in_menu cfg (selected_offer d) /\ is_cancelled d = false.
Proof.
  unfold devices_handled. intros H U. rewrite U in H. revert H.
  rewrite continuous_order_run, listen_continuous_run. cbv zeta.
  destruct (continuous env (n_continuous st)) as [phrases|e]; [|discriminate].
  intros H. destruct phrases as [|p ps].
  - do 3 eexists. repeat split.
  - destruct (returns_listen (tick_continuous st) H)
      as (r & s2 & e2 & -> & _).
    assert (Hs : in_menu cfg (first_mentioned (List.length (special_offers cfg))
                                (lower (join ". " (p :: ps))))).
    { unfold in_menu. destruct (first_mentioned _ _) eqn:F; [|exact I].
      exact (first_mentioned_range _ _ _ F). }
    destruct (use_ollama cfg && ollama_client cfg && truthy _).
    + destruct (process_order_run cfg env (join ". " (p :: ps)) s2)
        as (out & s3 & -> & _).
      do 3 eexists. split; [reflexivity|]. now split.
    + do 3 eexists. split; [reflexivity|]. now split.
Qed.

Lemma handoff_in_menu id d st :
  in_menu cfg (selected_offer d) -> is_cancelled d = false ->
  exists r,
    outcome (handoff_to_operator cfg env id d st) = Ok (OperatorInfo r)
    /\ h_selected_offer r = selected_offer d
    /\ h_offer_details r =
       match selected_offer d with
       | Some i => nth_error (special_offers cfg) (i - 1)
       | None => None
       end.
Proof.
  intros Hs Hc. rewrite handoff_to_operator_run, Hc.
  unfold offer_details, in_menu in *.
  destruct (selected_offer d) as [[|i]|].
  - lia.
  - unfold index. rewrite Nat.sub_1_r. simpl Nat.pred.
    destruct (nth_error (special_offers cfg) i) eqn:E.
    + eexists. repeat split.
    + apply nth_error_None in E. lia.
  - eexists. repeat split.
Qed.

End Returns.

(** X5.  In the full flows the offer number is searched among the
    offers the menu actually has, so the look-up of the offer at
    hand-off cannot fail: the session returns an operator record, whose
    offer details are the selected menu entry, as long as the devices
    raise nothing the listening functions do not catch. *)
Theorem full_session_returns (cfg : Config) (env : Env) (st : State) :
  simple_flow cfg = false ->
  devices_handled cfg env st = true ->
  exists r,
    outcome (process_customer cfg env st) = Ok (OperatorInfo r)
    /\ match h_selected_offer r with
       | Some i =>
           1 <= i <= List.length (special_offers cfg)
           /\ h_offer_details r = nth_error (special_offers cfg) (i - 1)
       | None => h_offer_details r = None
       end.
Proof.
  intros Hs Hd. rewrite process_customer_run. unfold serve. rewrite Hs.
  unfold bind. rewrite announce_offers_run.
  assert (Ho : exists d st' evs,
             (if use_continuous_listening cfg
              then get_customer_order_continuous cfg env
              else get_customer_order cfg env) (arrival env st) = (Ok d, st', evs)
             /\ in_menu cfg (selected_offer d) /\ is_cancelled d = false).
  { destruct (use_continuous_listening cfg) eqn:U.
    - apply continuous_order_returns; [|exact U].
      unfold devices_handled in *. now rewrite U in *.
    - unfold devices_handled in Hd. rewrite U in Hd.
      destruct (returns_get_customer_order cfg env (arrival env st) Hd)
        as (d & st' & evs & E & Hq & _).
      now exists d, st', evs. }
  destruct Ho as (d & st' & evs & -> & Hm & Hc).
  destruct (handoff_in_menu cfg env (customer_id_at env st) d st' Hm Hc)
    as (r & Hr & Hsel & Hdet).
  destruct (handoff_to_operator cfg env _ d st') as [[res s2] e2].
  unfold outcome in *; simpl in *. subst res. exists r. split; [reflexivity|].
  rewrite Hsel, Hdet. unfold in_menu in Hm.
  destruct (selected_offer d); [now split|reflexivity].
Qed.

Lemma full_session_returns_witness :
  exists r,
    outcome (process_customer config_questions
               (world [says "number three please"; says "yes"; says "no thanks"])
               init_state)
    = Ok (OperatorInfo r)
    /\ match h_selected_offer r with
       | Some i =>
           1 <= i <= List.length (special_offers config_questions)
           /\ h_offer_details r = nth_error (special_offers config_questions) (i - 1)
       | None => h_offer_details r = None
       end.
Proof.
  apply full_session_returns; reflexivity.
Defined.

(** X6.  [get_customer_order] listens at most seven times: three
    times in each of the first two attempts, once in the last.  With
    handled captures it returns an order that is not cancelled and
    carries no car number. *)
Theorem full_order_bounded (cfg : Config) (env : Env) (st : State) :
  mic_handled cfg env (n_listen st) 7 = true ->
  let x := get_customer_order cfg env st in
  exists d,
    outcome x = Ok d
    /\ listens (events x) <= 7
    /\ n_listen (final x) <= n_listen st + 7
    /\ in_menu cfg (selected_offer d)
    /\ car_number d = None /\ cancelled d = None.
Proof.
  intros H. cbv zeta.
  destruct (returns_get_customer_order cfg env st H)
    as (d & st' & evs & E & [Hm _] & Hn & Hl).
  pose proof (order_no_car_number cfg env _ _ _ _ E).
  pose proof (order_not_cancelled cfg env _ _ _ _ E).
  rewrite E. exists d. unfold outcome, final, events; simpl in *.
  repeat split; trivial; lia.
Qed.

Lemma full_order_bounded_witness :
  let x := get_customer_order config_questions
             (world [says "a bucket"; says "no"; says "two"; says "and a cola"])
             init_state in
  exists d,
    outcome x = Ok d
    /\ listens (events x) <= 7
    /\ n_listen (final x) <= n_listen init_state + 7
    /\ in_menu config_questions (selected_offer d)
    /\ car_number d = None /\ cancelled d = None.
Proof.
  apply full_order_bounded. reflexivity.
Defined.

(* ================================================================== *)
(** ** Splitting and joining *)
(* ================================================================== *)

Lemma startswith_drop (p s : string) :
  startswith p s = true -> p ++ drop (String.length p) s = s.
Proof.
  revert s. induction p as [|a p IH]; intros s; [reflexivity|].
  destruct s as [|b s]; [discriminate|]. simpl.
  intros H. apply andb_prop in H as [Hab H].
  apply Ascii.eqb_eq in Hab as ->. now rewrite IH.
Qed.

Lemma split_from_not_nil sep skip acc s : split_from sep skip acc s <> [].
Proof.
  revert skip acc. induction s as [|c s IH]; intros skip acc; simpl.
  - discriminate.
  - destruct skip; [|apply IH]. destruct (startswith sep (String c s)).
    + discriminate.
    + apply IH.
Qed.

Lemma join_cons sep p rest :
  rest <> [] -> join sep (p :: rest) = p ++ sep ++ join sep rest.
Proof. destruct rest; [contradiction|reflexivity]. Qed.

Lemma drop_nil n : drop n EmptyString = EmptyString.
Proof. now destruct n. Qed.

Lemma join_split_from sep skip acc s :
  truthy sep = true ->
  join sep (split_from sep skip acc s) = acc ++ drop skip s.
Proof.
  intros Hsep. revert skip acc. induction s as [|c s IH]; intros skip acc.
  - simpl. now rewrite drop_nil, append_nil_r.
  - destruct skip as [|k]; [|exact (IH k acc)].
    cbn [split_from drop].
    destruct (startswith sep (String c s)) eqn:E.
    + rewrite join_cons by apply split_from_not_nil.
      rewrite IH. cbn [append]. f_equal.
      pose proof (startswith_drop _ _ E) as D.
      destruct sep as [|a sep]; [discriminate|].
      cbn [String.length drop] in D |- *.
      replace (S (String.length sep) - 1) with (String.length sep) by lia.
      exact D.
    + rewrite IH. cbn [drop]. now rewrite append_assoc.
Qed.

(** [sep.join(s.split(sep)) == s] *)
Lemma join_split sep s : truthy sep = true -> join sep (split sep s) = s.
Proof. intros H. unfold split. now rewrite join_split_from. Qed.

(** X7.  The phrases of an order taken by [get_customer_order] are the
    order text cut at every full stop followed by a space: joined again
    they give back the text, and there are none when there is no text. *)
Theorem order_phrases_join_back (cfg : Config) (env : Env) (st st' : State)
    (d : order_data) (evs : list event) :
  get_customer_order cfg env st = (Ok d, st', evs) ->
  match full_order_text d with
  | Some text => join ". " (order_phrases d) = text
  | None => order_phrases d = []
  end.
Proof.
  unfold get_customer_order. intros H.
  apply bind_inv_ok in H as ([text selected] & s1 & e1 & e2 & _ & H & _).
  injection H as <- _ _. cbn [full_order_text order_phrases].
  destruct text as [[|c t]|]; [reflexivity| |reflexivity].
  now apply join_split.
Qed.

Lemma order_phrases_join_back_witness :
  exists d,
    outcome (get_customer_order config_questions
               (world [says "One bucket. Two colas"; says "and. a pie"])
               init_state) = Ok d
    /\ List.length (order_phrases d) = 4
    /\ match full_order_text d with
       | Some text => join ". " (order_phrases d) = text
       | None => order_phrases d = []
       end.
Proof.
  eexists. split; [vm_compute; reflexivity|]. split; [reflexivity|].
  eapply (order_phrases_join_back config_questions
            (world [says "One bucket. Two colas"; says "and. a pie"]) init_state).
  vm_compute. reflexivity.
Defined.

(* ================================================================== *)
(** ** Cleaning text for speech *)
(* ================================================================== *)

Lemma contains_char_cons ch c s :
  contains (char ch) (String c s) = Ascii.eqb ch c || contains (char ch) s.
Proof. unfold char. cbn [contains startswith]. now rewrite andb_true_r. Qed.

Lemma contains_char_app ch a b :
  contains (char ch) (a ++ b) = contains (char ch) a || contains (char ch) b.
Proof.
  induction a as [|c a IH]; [reflexivity|].
  cbn [append]. rewrite !contains_char_cons, IH. apply orb_assoc.
Qed.

Lemma contains_char_replace ch old new skip s :
  contains (char ch) (replace_from old new skip s) = true ->
  contains (char ch) new = true \/ contains (char ch) s = true.
Proof.
  revert skip. induction s as [|c s IH]; intros skip; [discriminate|].
  rewrite (contains_char_cons ch c s). destruct skip as [|k]; cbn [replace_from].
  - destruct (startswith old (String c s)).
    + rewrite contains_char_app. intros H.
      apply orb_true_iff in H as [H|H]; [now left|].
      destruct (IH _ H) as [H'|H']; [now left|right]. rewrite H'. apply orb_true_r.
    + rewrite contains_char_cons. intros H.
      apply orb_true_iff in H as [H|H]; [right; now rewrite H|].
      destruct (IH _ H) as [H'|H']; [now left|right]. rewrite H'. apply orb_true_r.
  - intros H. destruct (IH _ H) as [H'|H']; [now left|right].
    rewrite H'. apply orb_true_r.
Qed.

(** Replacing a character leaves none of it, unless the replacement
    brings it back. *)
Lemma replace_char_gone ch new s :
  contains (char ch) new = false ->
  contains (char ch) (replace (char ch) new s) = false.
Proof.
  intros Hn. unfold replace. induction s as [|c s IH]; [reflexivity|].
  cbn [replace_from char startswith String.length Nat.sub].
  rewrite andb_true_r. destruct (Ascii.eqb ch c) eqn:E.
  - rewrite contains_char_app. fold (char ch). now rewrite Hn, IH.
  - rewrite contains_char_cons. fold (char ch). now rewrite E, IH.
Qed.

Lemma solid_app a b : solid (a ++ b) = solid a && solid b.
Proof.
  induction a as [|c a IH]; [reflexivity|]. simpl. rewrite IH. apply andb_assoc.
Qed.

Lemma words_from_solid acc s :
  solid acc = true ->
  Forall (fun w => solid w = true /\ truthy w = true) (words_from acc s).
Proof.
  revert acc. induction s as [|c s IH]; intros acc Ha; cbn [words_from].
  - destruct acc; [constructor|]. constructor; [now split|constructor].
  - destruct (is_space c) eqn:E.
    + destruct acc; [now apply IH|]. constructor; [now split|now apply IH].
    + apply IH. rewrite solid_app, Ha. simpl. now rewrite E.
Qed.

Lemma words_from_char ch acc s :
  Forall (fun w => contains (char ch) w = true ->
                   contains (char ch) acc = true \/ contains (char ch) s = true)
         (words_from acc s).
Proof.
  revert acc. induction s as [|c s IH]; intros acc; cbn [words_from].
  - destruct acc; [constructor|]. constructor; [now left|constructor].
  - assert (Hrest : forall a,
      Forall (fun w => contains (char ch) w = true ->
                       contains (char ch) a = true \/ contains (char ch) s = true)
             (words_from a s) ->
      (contains (char ch) a = true ->
       contains (char ch) acc = true \/ contains (char ch) (String c s) = true) ->
      Forall (fun w => contains (char ch) w = true ->
                       contains (char ch) acc = true
                       \/ contains (char ch) (String c s) = true)
             (words_from a s)).
    { intros a H Ha. eapply Forall_impl; [|exact H]. intros w Hw Hc.
      destruct (Hw Hc) as [H1|H1]; [now apply Ha|right].
      rewrite contains_char_cons, H1. apply orb_true_r. }
    destruct (is_space c).
    + destruct acc as [|a0 acc].
      * apply Hrest; [apply IH|discriminate].
      * constructor; [now left|]. apply Hrest; [apply IH|discriminate].
    + apply Hrest; [apply IH|]. rewrite contains_char_app, contains_char_cons.
      intros H. apply orb_true_iff in H as [H|H]; [now left|right].
      apply orb_true_iff in H as [H|H]; [|discriminate].
      now rewrite contains_char_cons, H.
Qed.

Lemma contains_char_join ch sep l :
  contains (char ch) (join sep l) = true ->
  contains (char ch) sep = true \/ Exists (fun w => contains (char ch) w = true) l.
Proof.
  induction l as [|w l IH]; [discriminate|].
  destruct l as [|w' l]; [intros H; right; now constructor|].
  rewrite join_cons by discriminate. rewrite !contains_char_app. intros H.
  apply orb_true_iff in H as [H|H]; [right; now constructor|].
  apply orb_true_iff in H as [H|H]; [now left|].
  destruct (IH H) as [H'|H']; [now left|right; now constructor].
Qed.

Lemma solid_no_space ch w :
  solid w = true -> is_space ch = true -> contains (char ch) w = false.
Proof.
  intros Hw Hc. induction w as [|c w IH]; [reflexivity|].
  simpl in Hw. apply andb_true_iff in Hw as [Hcw Hw].
  rewrite contains_char_cons, (IH Hw), orb_false_r.
  destruct (Ascii.eqb ch c) eqn:E; [|reflexivity].
  apply Ascii.eqb_eq in E as <-. now rewrite Hc in Hcw.
Qed.

Lemma join_head sep w l : exists y, join sep (w :: l) = w ++ y.
Proof.
  destruct l; [exists EmptyString; simpl; now rewrite append_nil_r|].
  now exists (sep ++ join sep (s :: l)).
Qed.

(** Solid words joined by single spaces. *)
Lemma lstrip_join_words l :
  Forall (fun w => solid w = true /\ truthy w = true) l ->
  lstrip (join " " l) = join " " l.
Proof.
  intros Hl. destruct Hl as [|w rest [Hw Ht] _]; [reflexivity|].
  destruct (join_head " " w rest) as (y & ->).
  destruct w as [|c w]; [discriminate|]. simpl in Hw |- *.
  apply andb_true_iff in Hw as [Hc _]. apply negb_true_iff in Hc. now rewrite Hc.
Qed.

Lemma rstrip_join_words l :
  Forall (fun w => solid w = true /\ truthy w = true) l ->
  rstrip (join " " l) = join " " l /\ (l <> [] -> truthy (join " " l) = true).
Proof.
  induction 1 as [|w rest [Hw Ht] Hrest IH]; [now split|].
  destruct rest as [|w' rest].
  - simpl. split; [|trivial].
    rewrite <- (append_nil_r w) at 1. rewrite rstrip_solid by exact Hw.
    apply append_nil_r.
  - destruct IH as [IH1 IH2]. rewrite join_cons by discriminate. split.
    + rewrite <- append_assoc, rstrip_app; rewrite IH1; [reflexivity|].
      now apply IH2.
    + intros _. destruct w; [discriminate|reflexivity].
Qed.

Lemma no_double_space l :
  Forall (fun w => solid w = true /\ truthy w = true) l ->
  contains "  " (join " " l) = false.
Proof.
  assert (Hsolid : forall w y, solid w = true ->
            contains "  " (w ++ y) = contains "  " y).
  { intros w y. induction w as [|c w IH]; [reflexivity|]. simpl solid.
    intros H. apply andb_true_iff in H as [Hc Hw]. rewrite <- (IH Hw).
    cbn [append contains startswith].
    destruct (Ascii.eqb " " c) eqn:E; [|reflexivity].
    apply Ascii.eqb_eq in E as <-. discriminate. }
  induction 1 as [|w rest [Hw Ht] Hrest IH]; [reflexivity|].
  destruct rest as [|w' rest].
  - simpl join. rewrite <- (append_nil_r w). now rewrite Hsolid.
  - rewrite join_cons by discriminate. rewrite Hsolid by exact Hw.
    specialize IH. revert IH.
    destruct (join_head " " w' rest) as (y & ->).
    inversion Hrest as [|? ? [Hw' Ht'] _]; subst.
    destruct w' as [|c w']; [discriminate|].
    simpl in Hw'. apply andb_true_iff in Hw' as [Hc _].
    intros IH. cbn [append contains startswith] in IH |- *.
    destruct (Ascii.eqb " " c) eqn:E.
    + apply Ascii.eqb_eq in E as <-. discriminate.
    + simpl. exact IH.
Qed.

Lemma only_plain_spaces l ch :
  Forall (fun w => solid w = true /\ truthy w = true) l ->
  is_space ch = true -> ch <> " "%char -> contains (char ch) (join " " l) = false.
Proof.
  intros Hl Hs Hne. destruct (contains (char ch) (join " " l)) eqn:E; [|reflexivity].
  apply contains_char_join in E as [E|E].
  - unfold char in E. simpl in E. rewrite orb_false_r, andb_true_r in E.
    apply Ascii.eqb_eq in E. congruence.
  - apply Exists_exists in E as (w & Hin & Hw).
    rewrite Forall_forall in Hl. destruct (Hl w Hin) as [Hsolid _].
    now rewrite (solid_no_space ch w Hsolid Hs) in Hw.
Qed.

(** X8.  The text [_clean_text_for_speech] hands to the speech engine
    is single-spaced: it has no white space at either end, no two
    spaces in a row and no white space other than the space character;
    and it has no dollar sign left. *)
Theorem clean_text_is_tidy (text : string) :
  let cleaned := _clean_text_for_speech text in
  strip cleaned = cleaned
  /\ contains "  " cleaned = false
  /\ (forall ch, is_space ch = true -> ch <> " "%char ->
        contains (char ch) cleaned = false)
  /\ contains "$" cleaned = false.
Proof.
  cbv zeta. unfold _clean_text_for_speech.
  set (t1 := replace "$" " dollars " text).
  set (t2 := replace " - " ". " t1).
  set (t3 := replace ": " ". " t2).
  pose proof (words_from_solid EmptyString t3 eq_refl) as Hw. fold (words t3) in Hw.
  repeat split.
  - unfold strip. rewrite (lstrip_join_words _ Hw).
    apply (rstrip_join_words _ Hw).
  - apply (no_double_space _ Hw).
  - intros ch. apply (only_plain_spaces _ _ Hw).
  - change "$" with (char "$").
    destruct (contains (char "$") (join " " (words t3))) eqn:E; [|reflexivity].
    apply contains_char_join in E as [E|E]; [discriminate|].
    apply Exists_exists in E as (w & Hin & Hc).
    pose proof (words_from_char "$" EmptyString t3) as Hch.
    rewrite Forall_forall in Hch. destruct (Hch w Hin Hc) as [H|H]; [discriminate|].
    apply contains_char_replace in H as [H|H]; [discriminate|].
    apply contains_char_replace in H as [H|H]; [discriminate|].
    unfold t1 in H. change "$" with (char "$") in H.
    now rewrite replace_char_gone in H.
Qed.

Lemma clean_text_is_tidy_witness :
  let cleaned := _clean_text_for_speech "  Meal - $5:  tasty now " in
  strip cleaned = cleaned
  /\ contains "  " cleaned = false
  /\ contains (char (ascii_of_nat 9)) cleaned = false
  /\ contains "$" cleaned = false.
Proof.
  destruct (clean_text_is_tidy "  Meal - $5:  tasty now ") as (H1 & H2 & H3 & H4).
  cbv zeta. split; [exact H1|]. split; [exact H2|].
  split; [apply H3; [reflexivity|discriminate]|exact H4].
Defined.

(* ================================================================== *)
(** ** Speaking long text in chunks *)
(* ================================================================== *)

Lemma length_append (a b : string) :
  String.length (a ++ b) = String.length a + String.length b.
Proof. induction a as [|c a IH]; simpl; [reflexivity|now rewrite IH]. Qed.

Lemma length_lstrip s : String.length (lstrip s) <= String.length s.
Proof.
  induction s as [|c s IH]; simpl; [lia|]. destruct (is_space c); simpl; lia.
Qed.

Lemma length_rstrip s : String.length (rstrip s) <= String.length s.
Proof.
  induction s as [|c s IH]; simpl; [lia|].
  destruct (rstrip s); [destruct (is_space c)|]; simpl in *; lia.
Qed.

Lemma length_strip s : String.length (strip s) <= String.length s.
Proof.
  unfold strip. pose proof (length_rstrip (lstrip s)). pose proof (length_lstrip s). lia.
Qed.

Lemma rstrip_cons c s :
  rstrip (String c s) =
  match rstrip s with
  | EmptyString => if is_space c then EmptyString else String c EmptyString
  | r => String c r
  end.
Proof. reflexivity. Qed.

Lemma rstrip_idempotent s : rstrip (rstrip s) = rstrip s.
Proof.
  induction s as [|c s IH]; [reflexivity|]. rewrite rstrip_cons.
  destruct (rstrip s) as [|c' r] eqn:E.
  - destruct (is_space c) eqn:Ec; simpl; [reflexivity|now rewrite Ec].
  - now rewrite rstrip_cons, IH.
Qed.

Lemma lstrip_head s :
  match lstrip s with
  | EmptyString => True
  | String c _ => is_space c = false
  end.
Proof.
  induction s as [|c s IH]; simpl; [exact I|].
  destruct (is_space c) eqn:E; [exact IH|exact E].
Qed.

Lemma strip_idempotent s : strip (strip s) = strip s.
Proof.
  unfold strip. pose proof (lstrip_head s) as H.
  destruct (lstrip s) as [|c x]; [reflexivity|].
  assert (L : lstrip (rstrip (String c x)) = rstrip (String c x)).
  { rewrite rstrip_cons. destruct (rstrip x); rewrite ?H; simpl; now rewrite H. }
  now rewrite L, rstrip_idempotent.
Qed.

Lemma flush_stripped chunk :
  Forall (fun c => truthy c = true /\ strip c = c) (flush chunk).
Proof.
  unfold flush. destruct (truthy (strip chunk)) eqn:E; constructor; [|constructor].
  split; [exact E|apply strip_idempotent].
Qed.

Lemma sapi_chunks_stripped max_length parts chunk :
  Forall (fun c => truthy c = true /\ strip c = c)
         (sapi_chunks max_length parts chunk).
Proof.
  revert chunk. induction parts as [|part rest IH]; intros chunk; simpl.
  - apply flush_stripped.
  - destruct (_ <=? _)%nat; [apply IH|].
    apply Forall_app. split; [apply flush_stripped|apply IH].
Qed.

(** A chunk fits, or is one part on its own. *)
Lemma sapi_chunks_fit max_length all parts chunk :
  incl parts all ->
  (String.length chunk <= max_length
   \/ exists part, In part all /\ chunk = part ++ ". ") ->
  Forall (fun c => String.length c <= max_length
                   \/ exists part, In part all /\ c = strip (part ++ ". "))
         (sapi_chunks max_length parts chunk).
Proof.
  intros Hincl0 Hc0.
  assert (Hflush : forall chunk,
    (String.length chunk <= max_length
     \/ exists part, In part all /\ chunk = part ++ ". ") ->
    Forall (fun c => String.length c <= max_length
                     \/ exists part, In part all /\ c = strip (part ++ ". "))
           (flush chunk)).
  { clear. intros chunk H. unfold flush. destruct (truthy _); constructor; [|constructor].
    destruct H as [H|(part & Hin & ->)].
    - left. pose proof (length_strip chunk). lia.
    - right. now exists part. }
  revert chunk Hincl0 Hc0.
  induction parts as [|part rest IH]; intros chunk Hincl Hc; simpl.
  - now apply Hflush.
  - assert (Hrest : incl rest all) by (intros x Hx; apply Hincl; now right).
    destruct (_ <=? _)%nat eqn:E.
    + apply IH; [exact Hrest|]. left. apply Nat.leb_le in E.
      rewrite !length_append. simpl. lia.
    + apply Forall_app. split; [now apply Hflush|].
      apply IH; [exact Hrest|]. right. exists part. split; [|reflexivity].
      apply Hincl. now left.
Qed.

Lemma sapi_chunks_pieces max_length parts chunk :
  sapi_chunks max_length parts chunk =
  flat_map flush (pieces max_length parts chunk).
Proof.
  revert chunk. induction parts as [|part rest IH]; intros chunk; simpl.
  - now rewrite app_nil_r.
  - destruct (_ <=? _)%nat; [apply IH|]. simpl. now rewrite IH.
Qed.

Lemma concat_pieces max_length parts chunk :
  String.concat EmptyString (pieces max_length parts chunk) =
  chunk ++ String.concat EmptyString (map (fun part => part ++ ". ") parts).
Proof.
  assert (Hcons : forall a l,
    String.concat EmptyString (a :: l) = a ++ String.concat EmptyString l).
  { intros a [|b l]; simpl; [now rewrite append_nil_r|reflexivity]. }
  revert chunk. induction parts as [|part rest IH]; intros chunk.
  - simpl. now rewrite append_nil_r.
  - cbn [pieces map]. rewrite Hcons.
    destruct (_ <=? _)%nat.
    + rewrite IH. now rewrite !append_assoc.
    + rewrite Hcons, IH. reflexivity.
Qed.

Lemma concat_parts sep parts :
  parts <> [] ->
  String.concat EmptyString (map (fun part => part ++ sep) parts) =
  join sep parts ++ sep.
Proof.
  assert (Hcons : forall a l,
    String.concat EmptyString (a :: l) = a ++ String.concat EmptyString l).
  { intros a [|b l]; simpl; [now rewrite append_nil_r|reflexivity]. }
  induction parts as [|part rest IH]; [contradiction|]. intros _.
  cbn [map]. rewrite Hcons. destruct rest as [|p rest].
  - simpl. now rewrite append_nil_r.
  - rewrite IH by discriminate.
    rewrite (join_cons sep part (p :: rest)) by discriminate.
    now rewrite !append_assoc.
Qed.

Lemma clean_text_stripped text :
  strip (_clean_text_for_speech text) = _clean_text_for_speech text.
Proof.
  unfold _clean_text_for_speech. cbv zeta.
  set (t := replace ": " ". " _).
  pose proof (words_from_solid EmptyString t eq_refl) as Hw. fold (words t) in Hw.
  unfold strip. rewrite (lstrip_join_words _ Hw).
  apply (rstrip_join_words _ Hw).
Qed.

(** X9.  What the Windows SAPI branch of [speak] hands to the engine:
    every text is stripped, and at most 80 characters long unless it is
    a single sentence of the cleaned text. *)
Theorem sapi_texts_fit (text : string) :
  Forall (fun c =>
            strip c = c
            /\ (String.length c <= SAPI_MAX_CHARS
                \/ exists part,
                     In part (split ". " (_clean_text_for_speech text))
                     /\ c = strip (part ++ ". ")))
         (sapi_texts text).
Proof.
  unfold sapi_texts. cbv zeta.
  destruct (SAPI_MAX_CHARS <? _)%nat eqn:E.
  - unfold _speak_sapi_in_chunks.
    pose proof (sapi_chunks_stripped SAPI_MAX_CHARS
                  (split ". " (_clean_text_for_speech text)) EmptyString) as H1.
    pose proof (sapi_chunks_fit SAPI_MAX_CHARS
                  (split ". " (_clean_text_for_speech text))
                  (split ". " (_clean_text_for_speech text)) EmptyString
                  (incl_refl _) (or_introl (Nat.le_0_l _))) as H2.
    rewrite Forall_forall in *. intros c Hc.
    split; [apply (H1 c Hc)|apply (H2 c Hc)].
  - constructor; [|constructor]. split.
    + apply clean_text_stripped.
    + left. apply Nat.ltb_ge in E. exact E.
Qed.

(** X10.  Chunking loses nothing: the chunks [_speak_sapi_in_chunks]
    speaks are the stripped, non-blank ones among pieces that, put end
    to end, are the text followed by a full stop and a space. *)
Theorem chunks_lose_nothing (text : string) (max_length : nat) :
  exists l,
    _speak_sapi_in_chunks text max_length = flat_map flush l
    /\ String.concat EmptyString l = text ++ ". "
    /\ Forall (fun c => truthy c = true)
              (_speak_sapi_in_chunks text max_length).
Proof.
  exists (pieces max_length (split ". " text) EmptyString).
  unfold _speak_sapi_in_chunks. split; [apply sapi_chunks_pieces|]. split.
  - rewrite concat_pieces. cbn [append].
    rewrite concat_parts by apply split_from_not_nil.
    now rewrite join_split.
  - eapply Forall_impl; [|apply sapi_chunks_stripped]. now intros c [H _].
Qed.

(* ================================================================== *)
(** ** Continuous listening *)
(* ================================================================== *)

Section ContinuousLoop.
Variable cfg : Config.

Lemma transcriptions_app a b :
  transcriptions cfg (a ++ b) = (transcriptions cfg a ++ transcriptions cfg b)%list.
Proof. apply flat_map_app. Qed.

Lemma continuous_loop_phrases captures phrases silence_count :
  match continuous_loop cfg captures phrases silence_count with
  | Ok result =>
      exists k new,
        result = (phrases ++ new)%list
        /\ new = transcriptions cfg (firstn k captures)
        /\ Forall (fun p => any_in completion_phrases (lower p) = false)
                  (removelast new)
  | Raise e =>
      exists c, In c captures /\ transcribe cfg c = Raise e
                /\ unhandled cfg c = true
  end.
Proof.
  revert phrases silence_count.
  induction captures as [|c rest IH]; intros phrases silence_count.
  - exists 0, []. simpl. now rewrite app_nil_r.
  - cbn [continuous_loop].
    assert (Hskip : forall s,
      transcriptions cfg [c] = [] ->
      match continuous_loop cfg rest phrases s with
      | Ok result =>
          exists k new,
            result = (phrases ++ new)%list
            /\ new = transcriptions cfg (firstn k (c :: rest))
            /\ Forall (fun p => any_in completion_phrases (lower p) = false)
                      (removelast new)
      | Raise e =>
          exists c0, In c0 (c :: rest) /\ transcribe cfg c0 = Raise e
                     /\ unhandled cfg c0 = true
      end).
    { intros s Hc. specialize (IH phrases s).
      destruct (continuous_loop cfg rest phrases s) as [result|e].
      - destruct IH as (k & new & -> & -> & Hf). exists (S k), (transcriptions cfg (firstn k rest)).
        split; [reflexivity|]. split; [|exact Hf].
        change (firstn (S k) (c :: rest)) with ([c] ++ firstn k rest)%list.
        now rewrite transcriptions_app, Hc.
      - destruct IH as (c0 & Hin & Hc0). exists c0. split; [now right|exact Hc0]. }
    assert (Hstop : exists k new,
      phrases = (phrases ++ new)%list
      /\ new = transcriptions cfg (firstn k (c :: rest))
      /\ Forall (fun p => any_in completion_phrases (lower p) = false)
                (removelast new)).
    { exists 0, []. simpl. rewrite app_nil_r. repeat split. constructor. }
    destruct (transcribe cfg c) as [text|e] eqn:E.
    + destruct (any_in completion_phrases (lower text)) eqn:A.
      * exists 1, [text]. simpl. unfold transcriptions. simpl. rewrite E.
        repeat split. constructor.
      * specialize (IH (phrases ++ [text])%list 0).
        destruct (continuous_loop cfg rest _ 0) as [result|e].
        -- destruct IH as (k & new & -> & -> & Hf).
           exists (S k), (text :: transcriptions cfg (firstn k rest)).
           split; [now rewrite <- app_assoc|]. split.
           ++ change (firstn (S k) (c :: rest)) with ([c] ++ firstn k rest)%list.
              rewrite transcriptions_app. unfold transcriptions at 2. simpl.
              now rewrite E.
           ++ destruct (transcriptions cfg (firstn k rest)) eqn:T; [constructor|].
              change (removelast (text :: s :: l)) with (text :: removelast (s :: l)).
              constructor; assumption.
        -- destruct IH as (c0 & Hin & Hc0). exists c0. split; [now right|exact Hc0].
    + assert (Hnone : transcriptions cfg [c] = []).
      { unfold transcriptions. simpl. now rewrite E. }
      destruct e; try (exists c; split; [now left|];
                       split; [exact E|unfold unhandled; now rewrite E]).
      * destruct (max_silence <=? silence_count + 1)%nat; [exact Hstop|].
        now apply Hskip.
      * now apply Hskip.
      * exact Hstop.
Qed.

Lemma continuous_loop_silence quiet rest phrases silence_count :
  forallb (is_quiet cfg) quiet = true ->
  silence_count < max_silence ->
  max_silence <= silence_count + List.length (filter (is_timeout cfg) quiet) ->
  continuous_loop cfg (quiet ++ rest) phrases silence_count = Ok phrases.
Proof.
  revert silence_count.
  induction quiet as [|c quiet IH]; intros silence_count Hq Hs Hn.
  - simpl in Hn. lia.
  - cbn [forallb] in Hq. apply andb_prop in Hq as [Hc Hq].
    cbn [filter] in Hn. unfold is_quiet in Hc. unfold is_timeout in Hn at 1.
    cbn [app continuous_loop].
    destruct (transcribe cfg c) as [text|[]]; try discriminate.
    + destruct (max_silence <=? silence_count + 1)%nat eqn:E; [reflexivity|].
      apply Nat.leb_gt in E. apply IH; [exact Hq|lia|].
      cbn [List.length] in Hn. lia.
    + apply IH; [exact Hq|exact Hs|exact Hn].
Qed.

Lemma continuous_loop_heard heard more phrases :
  forallb (is_phrase cfg) heard = true ->
  continuous_loop cfg (heard ++ more) phrases 0 =
  continuous_loop cfg more (phrases ++ transcriptions cfg heard) 0.
Proof.
  revert phrases. induction heard as [|c heard IH]; intros phrases Hh.
  - simpl. now rewrite app_nil_r.
  - cbn [forallb] in Hh. apply andb_prop in Hh as [Hc Hh].
    unfold is_phrase in Hc. cbn [app continuous_loop].
    change (c :: heard) with ([c] ++ heard)%list.
    rewrite transcriptions_app. unfold transcriptions at 1. cbn [flat_map].
    destruct (transcribe cfg c) as [text|e]; [|discriminate].
    apply negb_true_iff in Hc. rewrite Hc, (IH _ Hh).
    now rewrite app_nil_r, <- app_assoc.
Qed.

End ContinuousLoop.

(** X11.  What [listen_continuous] returns is what was transcribed,
    in the order it was heard, from the captures up to the point where
    its loop stopped; only the last phrase returned can hold a
    completion phrase.  It raises only what a capture raised, and never
    one of the three exceptions of the speech library. *)
Theorem continuous_phrases_in_order (cfg : Config) (captures : list capture) :
  match listen_continuous_loop cfg captures with
  | Ok phrases =>
      exists k,
        phrases = (if microphone cfg
                   then transcriptions cfg (firstn k captures) else [])
        /\ Forall (fun p => any_in completion_phrases (lower p) = false)
                  (removelast phrases)
  | Raise e =>
      exists c, In c captures /\ transcribe cfg c = Raise e
                /\ unhandled cfg c = true
  end.
Proof.
  unfold listen_continuous_loop. destruct (microphone cfg); simpl.
  - pose proof (continuous_loop_phrases cfg captures [] 0) as H.
    destruct (continuous_loop cfg captures [] 0) as [phrases|e]; [|exact H].
    destruct H as (k & new & -> & -> & Hf). exists k. now split.
  - exists 0. split; [reflexivity|constructor].
Qed.

(** X12.  Four time-outs since the last phrase end the continuous
    capture with the phrases heard so far, whatever comes after them;
    speech that is not understood in between does not start the count
    again. *)
Theorem four_timeouts_end_capture (cfg : Config) (heard quiet rest : list capture) :
  microphone cfg = true ->
  forallb (is_phrase cfg) heard = true ->
  forallb (is_quiet cfg) quiet = true ->
  max_silence <= List.length (filter (is_timeout cfg) quiet) ->
  listen_continuous_loop cfg (heard ++ quiet ++ rest)
  = Ok (transcriptions cfg heard).
Proof.
  intros M Hh Hq Hn. unfold listen_continuous_loop. rewrite M. simpl negb. cbv iota.
  rewrite (continuous_loop_heard cfg heard (quiet ++ rest) [] Hh).
  apply continuous_loop_silence; [exact Hq|unfold max_silence; lia|lia].
Qed.

Lemma four_timeouts_end_capture_witness :
  listen_continuous_loop config_full
    ([says "a bucket"; says "two colas"]
     ++ [silence; silence; mumble; silence; silence]
     ++ [says "and a pie"; says "done"])
  = Ok ["a bucket"; "two colas"].
Proof.
  apply (four_timeouts_end_capture config_full
           [says "a bucket"; says "two colas"]
           [silence; silence; mumble; silence; silence]
           [says "and a pie"; says "done"]);
    reflexivity.
Defined.

(* ================================================================== *)
(** ** The voice-only simulation *)
(* ================================================================== *)

Section VoiceOnly.
Variable cfg : Config.
Variable env : Env.

Lemma voice_loop_step turns st :
  voice_loop cfg env (S turns) st =
  match listen cfg env st with
  | (Raise e, s1, e1) => (Raise e, s1, e1)
  | (Ok None, s1, e1) =>
      let x := voice_loop cfg env turns s1 in
      (outcome x, final x, e1 ++ events x)
  | (Ok (Some said), s1, e1) =>
      let said_lower := strip (lower said) in
      if any_in wake_words said_lower then
        match process_customer cfg env s1 with
        | (Raise e, s2, e2) => (Raise e, s2, e1 ++ e2)
        | (Ok _, s2, e2) =>
            let x := voice_loop cfg env turns s2 in
            (outcome x, final x, e1 ++ e2 ++ Spoke voice_again :: events x)
        end
      else if any_in quit_words said_lower then
        (Ok true, s1, e1 ++ [Spoke voice_goodbye])
      else
        let x := voice_loop cfg env turns s1 in
        (outcome x, final x, e1 ++ Spoke voice_unknown :: events x)
  end%list.
Proof.
  cbn [voice_loop]. unfold bind at 1.
  destruct (listen cfg env st) as [[[[said|]|e] s1] e1]; [| |reflexivity].
  - cbv zeta. destruct (any_in wake_words _).
    + unfold bind, speak, emit.
      destruct (process_customer cfg env s1) as [[[info|e] s2] e2]; [|reflexivity].
      destruct (voice_loop cfg env turns s2) as [[r s3] e3].
      unfold outcome, final, events. cbn [fst snd]. now rewrite <- ?app_assoc.
    + destruct (any_in quit_words _); [reflexivity|].
      unfold bind, speak, emit.
      destruct (voice_loop cfg env turns s1) as [[r s3] e3]. reflexivity.
  - now destruct (voice_loop cfg env turns s1) as [[r s3] e3].
Qed.

(** Every way an iteration bound can find the loop: left by [break],
    still running, or left by an exception. *)
Lemma voice_loop_ends turns st :
  let x := voice_loop cfg env turns st in
  match outcome x with
  | Ok true =>
      exists before said,
        events x = (before ++ [Listened (Some said); Spoke voice_goodbye])%list
        /\ any_in quit_words (strip (lower said)) = true
        /\ any_in wake_words (strip (lower said)) = false
  | Ok false => turns <= listens (events x)
  | Raise e =>
      (exists st1, outcome (listen cfg env st1) = Raise e)
      \/ (exists before said st1,
            any_in wake_words (strip (lower said)) = true
            /\ outcome (process_customer cfg env st1) = Raise e
            /\ events x = (before ++ Listened (Some said)
                                  :: events (process_customer cfg env st1))%list)
  end.
Proof.
  cbv zeta. revert st. induction turns as [|turns IH]; intros st.
  - unfold outcome, events, listens. simpl. lia.
  - assert (Hext : forall prefix s,
      1 <= listens prefix ->
      match outcome (voice_loop cfg env turns s) with
      | Ok true =>
          exists before said,
            (prefix ++ events (voice_loop cfg env turns s))%list
            = (before ++ [Listened (Some said); Spoke voice_goodbye])%list
            /\ any_in quit_words (strip (lower said)) = true
            /\ any_in wake_words (strip (lower said)) = false
      | Ok false => S turns <= listens (prefix ++ events (voice_loop cfg env turns s))
      | Raise e =>
          (exists st1, outcome (listen cfg env st1) = Raise e)
          \/ (exists before said st1,
                any_in wake_words (strip (lower said)) = true
                /\ outcome (process_customer cfg env st1) = Raise e
                /\ (prefix ++ events (voice_loop cfg env turns s))%list
                   = (before ++ Listened (Some said)
                             :: events (process_customer cfg env st1))%list)
      end).
    { intros prefix s Hp. specialize (IH s).
      destruct (outcome (voice_loop cfg env turns s)) as [[|]|e].
      - destruct IH as (before & said & -> & Hq & Hw).
        exists (prefix ++ before)%list, said. rewrite app_assoc. now repeat split.
      - rewrite listens_app. lia.
      - destruct IH as [IH|(before & said & st1 & Hw & Hr & ->)]; [now left|right].
        exists (prefix ++ before)%list, said, st1. rewrite app_assoc. now repeat split. }
    rewrite voice_loop_step.
    pose proof (listen_run cfg env st) as Hl.
    destruct (listen cfg env st) as [[[[said|]|e] s1] e1] eqn:El.
    + assert (He1 : e1 = [Listened (Some said)]).
      { destruct (microphone cfg); [|congruence].
        destruct (listen_handlers _); congruence. }
      subst e1. cbv zeta.
      destruct (any_in wake_words (strip (lower said))) eqn:W.
      * destruct (process_customer cfg env s1) as [[[info|e] s2] e2] eqn:Ep.
        -- specialize (Hext ([Listened (Some said)] ++ e2 ++ [Spoke voice_again])%list s2).
           destruct (voice_loop cfg env turns s2) as [[r s3] e3].
           unfold outcome, events in *; cbn [fst snd] in *.
           rewrite <- !app_assoc in Hext. cbn [app] in Hext. apply Hext.
           unfold listens. rewrite count_cons. cbn [is_listen]. lia.
        -- unfold outcome, events; cbn [fst snd]. right.
           exists [], said, s1. rewrite Ep. unfold outcome, events; cbn [fst snd].
           now repeat split.
      * destruct (any_in quit_words (strip (lower said))) eqn:Q.
        -- unfold outcome, events; cbn [fst snd]. exists [], said. now repeat split.
        -- specialize (Hext [Listened (Some said); Spoke voice_unknown] s1).
           destruct (voice_loop cfg env turns s1) as [[r s3] e3].
           unfold outcome, events in *; cbn [fst snd] in *. apply Hext.
           unfold listens. rewrite count_cons. cbn [is_listen]. lia.
    + assert (He1 : e1 = [Listened None]).
      { destruct (microphone cfg); [|congruence].
        destruct (listen_handlers _); congruence. }
      subst e1. specialize (Hext [Listened None] s1).
      destruct (voice_loop cfg env turns s1) as [[r s3] e3].
      unfold outcome, events in *; cbn [fst snd] in *. apply Hext.
      unfold listens. rewrite count_cons. cbn [is_listen]. lia.
    + unfold outcome at 1; cbn [fst snd]. left. exists st. now rewrite El.
Qed.

Lemma voice_loop_silent turns st :
  (microphone cfg = true -> forall n, hears_nothing cfg (mic env n) = true) ->
  exists st',
    voice_loop cfg env turns st = (Ok false, st', repeat (Listened None) turns).
Proof.
  intros H. revert st. induction turns as [|turns IH]; intros st.
  - now exists st.
  - rewrite voice_loop_step, listen_run.
    destruct (microphone cfg).
    + specialize (H eq_refl (n_listen st)). unfold hears_nothing in H.
      destruct (listen_handlers _) as [[r|]|e]; try discriminate.
      destruct (IH (tick_listen st)) as (st' & ->). now exists st'.
    + destruct (IH st) as (st' & ->). now exists st'.
Qed.

End VoiceOnly.

(** X13.  The ways out of the loop of the voice-only simulation.  It
    is left by [break] only on an utterance that holds a quit word and
    no wake word, the goodbye being the last thing said.  The only
    other way out is an exception, raised by [listen] or by the session
    a wake word started, which ends the function with it.  While
    neither happens the loop goes on listening, once in every
    iteration at least.  (Ctrl-C, which the function handles after the
    loop, is outside the model.) *)
Theorem voice_exit_needs_quit_word (cfg : Config) (env : Env) (turns : nat) (st : State) :
  let x := simulate_car_approach cfg env turns st in
  match outcome x with
  | Ok true =>
      exists before said,
        events x = (before ++ [Listened (Some said); Spoke voice_goodbye])%list
        /\ any_in quit_words (strip (lower said)) = true
        /\ any_in wake_words (strip (lower said)) = false
  | Ok false => turns <= listens (events x)
  | Raise e =>
      (exists st1, outcome (listen cfg env st1) = Raise e)
      \/ (exists before said st1,
            any_in wake_words (strip (lower said)) = true
            /\ outcome (process_customer cfg env st1) = Raise e
            /\ events x = (before ++ Listened (Some said)
                                  :: events (process_customer cfg env st1))%list)
  end.
Proof.
  cbv zeta. unfold simulate_car_approach, bind, speak, emit.
  pose proof (voice_loop_ends cfg env turns st) as H. cbv zeta in H.
  destruct (voice_loop cfg env turns st) as [[r s] e].
  unfold outcome, events in *; cbn [fst snd] in *.
  destruct r as [[|]|ex].
  - destruct H as (before & said & -> & Hq & Hw).
    exists (Spoke voice_intro :: before), said. now repeat split.
  - cbn [app]. unfold listens in *. rewrite count_cons. cbn [is_listen]. lia.
  - destruct H as [H|(before & said & st1 & Hw & Hr & ->)]; [now left|right].
    exists (Spoke voice_intro :: before), said, st1. now repeat split.
Qed.

Lemma voice_exit_needs_quit_word_witness :
  (exists before said,
     events (simulate_car_approach config4
               (world [silence; says "what?"; says "Goodbye"]) 5 init_state)
     = (before ++ [Listened (Some said); Spoke voice_goodbye])%list
     /\ any_in quit_words (strip (lower said)) = true
     /\ any_in wake_words (strip (lower said)) = false)
  /\ outcome (simulate_car_approach config3 (world [says "hello"; says "Four"]) 5
                init_state) = Raise IndexError.
Proof.
  split; [|vm_compute; reflexivity].
  pose proof (voice_exit_needs_quit_word config4 (world [silence; says "what?"; says "Goodbye"])
                5 init_state) as H.
  cbv zeta in H.
  assert (E : outcome (simulate_car_approach config4
                         (world [silence; says "what?"; says "Goodbye"]) 5 init_state)
              = Ok true) by (vm_compute; reflexivity).
  rewrite E in H. exact H.
Defined.

(** X14.  The wake words are tested first: an utterance that holds one
    starts a session even when it also holds a quit word, and the loop
    goes on. *)
Theorem wake_word_beats_quit_word (cfg : Config) (env : Env) (turns : nat)
    (st : State) (said : string) :
  outcome (listen cfg env st) = Ok (Some said) ->
  any_in wake_words (strip (lower said)) = true ->
  let x := voice_loop cfg env (S turns) st in
  let session := process_customer cfg env (tick_listen st) in
  exists rest,
    events x = (Listened (Some said) :: events session ++ rest)%list
    /\ sessions_started (events x) >= 1
    /\ match outcome session with
       | Ok _ =>
           x = (outcome (voice_loop cfg env turns (final session)),
                final (voice_loop cfg env turns (final session)),
                Listened (Some said) :: events session ++ rest)%list
       | Raise e => outcome x = Raise e
       end.
Proof.
  intros Hl Hw. cbv zeta. rewrite voice_loop_step, (listen_returns _ _ _ _ Hl).
  cbv zeta. rewrite Hw.
  destruct (process_customer_trace cfg env (tick_listen st)) as (id & body & _ & Hev).
  destruct (process_customer cfg env (tick_listen st)) as [[[info|e] s2] e2].
  - exists (Spoke voice_again :: events (voice_loop cfg env turns s2)).
    unfold outcome, final, events in *; cbn [fst snd app] in *.
    repeat split. subst e2. unfold sessions_started.
    repeat (rewrite count_cons || rewrite count_app). cbn [is_new_customer]. lia.
  - exists []. unfold outcome, final, events in *; cbn [fst snd app] in *.
    rewrite app_nil_r. repeat split.
    subst e2. unfold sessions_started.
    repeat (rewrite count_cons || rewrite count_app). cbn [is_new_customer]. lia.
Qed.

Lemma wake_word_beats_quit_word_witness :
  let x := voice_loop config4 (world [says "Stop this"; says "six"]) 1 init_state in
  sessions_started (events x) >= 1 /\ outcome x = Ok false.
Proof.
  destruct (wake_word_beats_quit_word config4 (world [says "Stop this"; says "six"])
              0 init_state "Stop this" eq_refl eq_refl) as (rest & _ & H & _).
  split; [exact H|reflexivity].
Defined.

(** X15.  While nothing is heard the voice-only simulation neither
    serves anybody nor ends: after any number of iterations of its
    loop it has only said the introduction and is still listening.
    Without a microphone this is so whatever the customer does. *)
Theorem voice_loop_never_ends_in_silence (cfg : Config) (env : Env) (st : State) :
  (microphone cfg = true -> forall n, hears_nothing cfg (mic env n) = true) ->
  forall turns,
    outcome (simulate_car_approach cfg env turns st) = Ok false
    /\ events (simulate_car_approach cfg env turns st)
       = Spoke voice_intro :: repeat (Listened None) turns.
Proof.
  intros H turns. unfold simulate_car_approach, bind, speak, emit.
  destruct (voice_loop_silent cfg env turns st H) as (st' & ->).
  now split.
Qed.

Lemma voice_loop_never_ends_in_silence_witness :
  let cfg := mk_config menu4 true true true false false false false false in
  let x := simulate_car_approach cfg (world [says "hello"; says "goodbye"]) 3
             init_state in
  outcome x = Ok false
  /\ events x = Spoke voice_intro :: repeat (Listened None) 3.
Proof.
  apply (voice_loop_never_ends_in_silence
           (mk_config menu4 true true true false false false false false)
           (world [says "hello"; says "goodbye"]) init_state).
  discriminate.
Defined.

(* ================================================================== *)
(** ** The continuous flow: what the order depends on *)
(* ================================================================== *)

Lemma join_In sep p l :
  In p l -> exists before after, join sep l = before ++ p ++ after.
Proof.
  induction l as [|q l IH]; [contradiction|]. intros [->|Hin].
  - destruct (join_head sep p l) as (y & ->). now exists EmptyString, y.
  - destruct l as [|q' l]; [contradiction|].
    destruct (IH Hin) as (before & after & E).
    rewrite join_cons by discriminate. rewrite E.
    exists (q ++ sep ++ before), after. now rewrite !append_assoc.
Qed.

Lemma contains_lower_join w sep p l :
  In p l -> contains w (lower p) = true -> contains w (lower (join sep l)) = true.
Proof.
  intros Hin Hc. destruct (join_In sep p l Hin) as (before & after & ->).
  apply contains_split in Hc as (a & b & E).
  rewrite !lower_app, E, !append_assoc, <- (append_assoc (lower before) a).
  apply contains_app.
Qed.

Lemma process_order_with_capture cfg env n c text st :
  _process_order_with_ollama cfg (with_capture env n c) text st
  = _process_order_with_ollama cfg env text st.
Proof. reflexivity. Qed.

Lemma listen_with_capture cfg env c st :
  listen cfg (with_capture env (n_listen st) c) st =
  if microphone cfg then
    match listen_handlers (transcribe cfg c) with
    | Ok r => (Ok r, tick_listen st, [Listened r])
    | Raise e => (Raise e, tick_listen st, [])
    end
  else (Ok None, st, [Listened None]).
Proof.
  rewrite listen_run. cbn [mic with_capture]. now rewrite Nat.eqb_refl.
Qed.

(** X16.  The continuous flow says ["Is that correct?"] but does not
    use the answer: whatever the customer replies, be it a no, the
    same order is returned and the controller is left in the same
    state. *)
Theorem confirmation_is_ignored (cfg : Config) (env : Env) (st : State)
    (c1 c2 : capture) :
  unhandled cfg c1 = false ->
  unhandled cfg c2 = false ->
  let x1 := get_customer_order_continuous cfg (with_capture env (n_listen st) c1) st in
  let x2 := get_customer_order_continuous cfg (with_capture env (n_listen st) c2) st in
  outcome x1 = outcome x2 /\ final x1 = final x2.
Proof.
  unfold unhandled. intros H1 H2. cbv zeta.
  rewrite !continuous_order_run, !listen_continuous_run. cbn [continuous with_capture].
  destruct (continuous env (n_continuous st)) as [[|p ps]|e]; [now split| |now split].
  cbv zeta.
  change (n_listen st) with (n_listen (tick_continuous st)).
  rewrite !listen_with_capture.
  destruct (microphone cfg).
  - destruct (listen_handlers (transcribe cfg c1)) as [r1|]; [|discriminate].
    destruct (listen_handlers (transcribe cfg c2)) as [r2|]; [|discriminate].
    destruct (use_ollama cfg && ollama_client cfg && truthy _); [|now split].
    rewrite !process_order_with_capture.
    destruct (_process_order_with_ollama cfg env _ _) as [[[out|e] s3] e3];
      now split.
  - destruct (use_ollama cfg && ollama_client cfg && truthy _); [|now split].
    rewrite !process_order_with_capture.
    destruct (_process_order_with_ollama cfg env _ _) as [[[out|e] s3] e3];
      now split.
Qed.

Lemma confirmation_is_ignored_witness :
  let env := world_full [] ["two zinger burgers"; "that's all"]
                          (Raise (OtherError "ollama not running")) in
  let x1 := get_customer_order_continuous config_full
              (with_capture env 0 (says "No, that is wrong")) init_state in
  let x2 := get_customer_order_continuous config_full
              (with_capture env 0 (says "yes")) init_state in
  outcome x1 = outcome x2 /\ final x1 = final x2.
Proof.
  apply (confirmation_is_ignored config_full
           (world_full [] ["two zinger burgers"; "that's all"]
                       (Raise (OtherError "ollama not running")))
           init_state (says "No, that is wrong") (says "yes"));
    reflexivity.
Defined.

(** X17.  In the continuous flow the word [one] is looked for inside
    the whole order text, so a customer who ends with [done], as the
    prompt asks, has offer 1 recorded as the selected offer. *)
Theorem done_selects_first_offer (cfg : Config) (env : Env) (st st' : State)
    (d : order_data) (evs : list event) (phrases : list string) (p : string) :
  special_offers cfg <> [] ->
  continuous env (n_continuous st) = Ok phrases ->
  In p phrases ->
  contains "one" (lower p) = true ->
  get_customer_order_continuous cfg env st = (Ok d, st', evs) ->
  selected_offer d = Some 1 /\ order_phrases d = phrases.
Proof.
  intros Hmenu Hc Hin Hp. rewrite continuous_order_run, listen_continuous_run, Hc.
  destruct phrases as [|q qs]; [contradiction|]. cbv zeta.
  assert (Hsel : first_mentioned (List.length (special_offers cfg))
                   (lower (join ". " (q :: qs))) = Some 1).
  { destruct (special_offers cfg) as [|o os]; [contradiction|].
    unfold first_mentioned. cbn [List.length seq find].
    unfold mentions. cbn [_number_to_word].
    rewrite (contains_lower_join "one" ". " p (q :: qs) Hin Hp).
    now rewrite orb_true_r. }
  rewrite Hsel.
  destruct (listen cfg env (tick_continuous st)) as [[[r|e] s2] e2]; [|discriminate].
  destruct (use_ollama cfg && ollama_client cfg && truthy _).
  - destruct (_process_order_with_ollama cfg env _ s2) as [[[out|e] s3] e3];
      [|discriminate].
    intros [= <- _ _]. now split.
  - intros [= <- _ _]. now split.
Qed.

Lemma done_selects_first_offer_witness :
  exists d,
    outcome (get_customer_order_continuous config_full
               (world_full [says "yes"] ["a family bucket"; "I am done"]
                           (Raise (OtherError "ollama not running")))
               init_state) = Ok d
    /\ selected_offer d = Some 1.
Proof.
  eexists. split; [vm_compute; reflexivity|].
  eapply (done_selects_first_offer config_full
            (world_full [says "yes"] ["a family bucket"; "I am done"]
                        (Raise (OtherError "ollama not running")))
            init_state _ _ _ ["a family bucket"; "I am done"] "I am done").
  - discriminate.
  - reflexivity.
  - right. now left.
  - reflexivity.
  - vm_compute. reflexivity.
Defined.

(* ================================================================== *)
(** ** The address of the post-processor *)
(* ================================================================== *)

Lemma contains_cons_false p c s :
  contains p (String c s) = false ->
  startswith p (String c s) = false /\ contains p s = false.
Proof. simpl contains. intros H. now apply orb_false_iff in H. Qed.

(** Nothing to replace, nothing replaced. *)
Lemma replace_absent old new s :
  contains old s = false -> replace old new s = s.
Proof.
  unfold replace. induction s as [|c s IH]; [reflexivity|]. intros H.
  apply contains_cons_false in H as [H1 H2].
  cbn [replace_from]. now rewrite H1, IH.
Qed.

(** Nothing to split at, one part. *)
Lemma split_absent sep acc s :
  contains sep s = false -> split_from sep 0 acc s = [acc ++ s].
Proof.
  revert acc. induction s as [|c s IH]; intros acc H.
  - simpl. now rewrite append_nil_r.
  - apply contains_cons_false in H as [H1 H2].
    cbn [split_from]. rewrite H1, IH by exact H2. now rewrite append_assoc.
Qed.

(** A text without the inner part of a pattern does not hold the
    pattern. *)
Lemma contains_inner a p b s :
  contains p s = false -> contains (a ++ p ++ b) s = false.
Proof.
  intros H. destruct (contains (a ++ p ++ b) s) eqn:E; [|reflexivity].
  apply contains_split in E as (x & y & ->).
  rewrite !append_assoc, <- (append_assoc x a) in H.
  now rewrite contains_app in H.
Qed.

(** X18.  The address [_setup_ollama] builds from [ollama_base_url]:
    a bare host name gets the default port 11434, but a URL with a
    scheme and no port does not; its port is what follows the colon of
    the scheme. *)
Theorem ollama_address_without_port (host : string) :
  contains ":" host = false ->
  ollama_address host = host ++ ":11434"
  /\ ollama_address ("http://" ++ host) = host ++ "://" ++ host
  /\ ollama_address ("https://" ++ host) = host ++ "://" ++ host.
Proof.
  intros H.
  assert (H1 : contains "http://" host = false)
    by exact (contains_inner "http" ":" "//" host H).
  assert (H2 : contains "https://" host = false)
    by exact (contains_inner "https" ":" "//" host H).
  assert (Hslash : contains ":" ("//" ++ host) = false).
  { cbn [append contains startswith Ascii.eqb Bool.eqb andb orb]. exact H. }
  unfold ollama_address. repeat split.
  - rewrite H, (replace_absent "http://" _ host H1),
      (replace_absent "https://" _ host H2).
    unfold split. now rewrite split_absent by exact H.
  - replace (contains ":" ("http://" ++ host)) with true
      by (symmetry; apply (contains_app ":" "http" ("//" ++ host))).
    assert (R : replace "http://" EmptyString ("http://" ++ host) = host).
    { unfold replace. cbn [append replace_from startswith Ascii.eqb Bool.eqb andb
                           String.length Nat.sub].
      now apply replace_absent. }
    rewrite R, (replace_absent _ _ _ H2).
    unfold split at 1. rewrite split_absent by exact H.
    unfold split. cbn [append split_from startswith Ascii.eqb Bool.eqb andb
                       String.length Nat.sub].
    rewrite split_absent by exact Hslash. reflexivity.
  - replace (contains ":" ("https://" ++ host)) with true
      by (symmetry; apply (contains_app ":" "https" ("//" ++ host))).
    rewrite (replace_absent "http://" _ ("https://" ++ host)).
    2:{ cbn [append contains startswith Ascii.eqb Bool.eqb andb orb]. exact H1. }
    assert (R : replace "https://" EmptyString ("https://" ++ host) = host).
    { unfold replace. cbn [append replace_from startswith Ascii.eqb Bool.eqb andb
                           String.length Nat.sub].
      now apply replace_absent. }
    rewrite R. unfold split at 1. rewrite split_absent by exact H.
    unfold split. cbn [append split_from startswith Ascii.eqb Bool.eqb andb
                       String.length Nat.sub].
    rewrite split_absent by exact Hslash. reflexivity.
Qed.

Lemma ollama_address_without_port_witness :
  ollama_address "localhost" = "localhost:11434"
  /\ ollama_address "http://localhost" = "localhost://localhost"
  /\ ollama_address "https://localhost" = "localhost://localhost".
Proof.
  apply (ollama_address_without_port "localhost"). reflexivity.
Defined.

Lemma startswith_cons a p b s :
  startswith (String a p) (String b s) = Ascii.eqb a b && startswith p s.
Proof. reflexivity. Qed.

Lemma contains_scheme_mark host port :
  contains ":" host = false -> contains ":" port = false ->
  startswith "/" port = false ->
  contains "://" (host ++ ":" ++ port) = false.
Proof.
  intros Hh Hp Hs. cbn [append]. induction host as [|c h IH].
  - assert (Hx : contains "://" port = false)
      by exact (contains_inner EmptyString ":" "//" port Hp).
    cbn [append contains]. rewrite Hx, orb_false_r, startswith_cons.
    destruct port as [|x port]; [reflexivity|].
    rewrite startswith_cons in Hs |- *. cbn [startswith] in Hs.
    rewrite andb_true_r in Hs. now rewrite Hs, andb_false_r.
  - apply contains_cons_false in Hh as [Hc Hh].
    cbn [append contains]. rewrite (IH Hh), orb_false_r.
    rewrite startswith_cons in Hc |- *. cbn [startswith] in Hc.
    rewrite andb_true_r in Hc. now rewrite Hc.
Qed.

Lemma split_at_colon acc host rest :
  contains ":" host = false ->
  split_from ":" 0 acc (host ++ ":" ++ rest)
  = (acc ++ host) :: split_from ":" 0 EmptyString rest.
Proof.
  cbn [append]. revert acc. induction host as [|c h IH]; intros acc Hh.
  - cbn [append split_from startswith Ascii.eqb Bool.eqb andb String.length Nat.sub].
    now rewrite append_nil_r.
  - apply contains_cons_false in Hh as [Hc Hh].
    cbn [append split_from]. cbn [append] in Hc.
    assert (Hc' : startswith ":" (String c (h ++ String ":" rest)) = false).
    { rewrite startswith_cons in Hc |- *. exact Hc. }
    rewrite Hc', (IH _ Hh). now rewrite append_assoc.
Qed.

(** X19.  A base URL with a port, with or without a scheme, gives the
    address [host:port]. *)
Theorem ollama_address_with_port (host port : string) :
  contains ":" host = false ->
  contains ":" port = false ->
  startswith "/" port = false ->
  ollama_address (host ++ ":" ++ port) = host ++ ":" ++ port
  /\ ollama_address ("http://" ++ host ++ ":" ++ port) = host ++ ":" ++ port
  /\ ollama_address ("https://" ++ host ++ ":" ++ port) = host ++ ":" ++ port.
Proof.
  intros Hh Hp Hs.
  pose proof (contains_scheme_mark host port Hh Hp Hs) as Hm.
  assert (H1 : contains "http://" (host ++ ":" ++ port) = false)
    by exact (contains_inner "http" "://" EmptyString _ Hm).
  assert (H2 : contains "https://" (host ++ ":" ++ port) = false)
    by exact (contains_inner "https" "://" EmptyString _ Hm).
  assert (Hhost : first_part (split ":" (host ++ ":" ++ port)) = host).
  { unfold split. now rewrite split_at_colon. }
  assert (Hport : forall scheme,
            contains ":" scheme = false ->
            last_part (split ":" (scheme ++ ":" ++ ("//" ++ host) ++ ":" ++ port))
            = port).
  { intros scheme Hsch. unfold split.
    rewrite split_at_colon by exact Hsch.
    rewrite split_at_colon
      by (cbn [append contains startswith Ascii.eqb Bool.eqb andb orb]; exact Hh).
    rewrite split_absent by exact Hp. reflexivity. }
  unfold ollama_address. repeat split.
  - rewrite (replace_absent "http://" _ _ H1), (replace_absent "https://" _ _ H2), Hhost.
    rewrite (contains_app ":" host port).
    unfold split. rewrite split_at_colon by exact Hh.
    now rewrite split_absent by exact Hp.
  - replace (contains ":" ("http://" ++ host ++ ":" ++ port)) with true
      by (symmetry; apply (contains_app ":" "http" ("//" ++ host ++ ":" ++ port))).
    assert (R : replace "http://" EmptyString ("http://" ++ host ++ ":" ++ port)
                = host ++ ":" ++ port).
    { unfold replace. cbn [append replace_from startswith Ascii.eqb Bool.eqb andb
                           String.length Nat.sub].
      now apply replace_absent. }
    rewrite R, (replace_absent _ _ _ H2), Hhost.
    now rewrite <- (Hport "http" eq_refl) at 2.
  - replace (contains ":" ("https://" ++ host ++ ":" ++ port)) with true
      by (symmetry; apply (contains_app ":" "https" ("//" ++ host ++ ":" ++ port))).
    rewrite (replace_absent "http://" _ ("https://" ++ host ++ ":" ++ port)).
    2:{ cbn [append contains startswith Ascii.eqb Bool.eqb andb orb]. exact H1. }
    assert (R : replace "https://" EmptyString ("https://" ++ host ++ ":" ++ port)
                = host ++ ":" ++ port).
    { unfold replace. cbn [append replace_from startswith Ascii.eqb Bool.eqb andb
                           String.length Nat.sub].
      now apply replace_absent. }
    rewrite R, Hhost.
    now rewrite <- (Hport "https" eq_refl) at 2.
Qed.

Lemma ollama_address_with_port_witness :
  ollama_address "localhost:11434" = "localhost:11434"
  /\ ollama_address "http://localhost:11434" = "localhost:11434"
  /\ ollama_address "https://localhost:11434" = "localhost:11434".
Proof.
  apply (ollama_address_with_port "localhost" "11434"); reflexivity.
Defined.

(* ================================================================== *)
(** ** The configuration *)
(* ================================================================== *)

Lemma dict_get_set d k' v' k :
  dict_get (dict_set d k' v') k =
  if String.eqb k k' then Some v' else dict_get d k.
Proof.
  induction d as [|[k0 v0] d IH]; simpl.
  - reflexivity.
  - destruct (String.eqb k' k0) eqn:E; simpl.
    + apply String.eqb_eq in E as <-. now destruct (String.eqb k k').
    + rewrite IH. destruct (String.eqb k k0) eqn:E0; [|reflexivity].
      apply String.eqb_eq in E0 as ->. rewrite String.eqb_sym in E. now rewrite E.
Qed.

Lemma dict_get_app (a b : dict) k :
  dict_get (a ++ b)%list k =
  match dict_get a k with Some v => Some v | None => dict_get b k end.
Proof.
  induction a as [|[k0 v0] a IHa]; [reflexivity|].
  simpl. now destruct (String.eqb k k0).
Qed.

(** Merging a list of members: the last value written under a key
    wins, and a key that is not written keeps its value. *)
Lemma dict_get_merge d (members : list (string * json)) k :
  dict_get (fold_left (fun d kv => dict_set d (fst kv) (snd kv)) members d) k =
  match dict_get (rev members) k with
  | Some v => Some v
  | None => dict_get d k
  end.
Proof.
  revert d. induction members as [|[k' v'] members IH]; intros d.
  - reflexivity.
  - cbn [fold_left fst snd rev]. rewrite IH, dict_get_set, dict_get_app.
    destruct (dict_get (rev members) k); [reflexivity|].
    simpl. now destruct (String.eqb k k').
Qed.

Lemma dict_get_unbound (members : list (string * json)) k :
  existsb (fun kv => String.eqb k (fst kv)) members = false ->
  dict_get (rev members) k = None /\ dict_get members k = None.
Proof.
  induction members as [|[k0 v0] members IH]; [now split|].
  cbn [existsb fst]. intros H. apply orb_false_iff in H as [E H].
  destruct (IH H) as [IH1 IH2]. split.
  - cbn [rev]. rewrite dict_get_app, IH1. simpl. now rewrite E.
  - simpl. now rewrite E.
Qed.

Lemma dict_get_rev_none (d : dict) k :
  dict_get d k = None -> dict_get (rev d) k = None.
Proof.
  induction d as [|[k0 v0] d IH]; [reflexivity|]. simpl.
  destruct (String.eqb k k0) eqn:E; [discriminate|]. intros H.
  rewrite dict_get_app, (IH H). simpl. now rewrite E.
Qed.

(** What a sequence of pairs does to one key. *)
Lemma update_from_sequence_key d items k :
  (forall v, dict_get d k = Some v ->
             exists v', dict_get (fst (update_from_sequence d items)) k = Some v')
  /\ (existsb (fun item =>
                 match sequence_of item with
                 | Some (JString k' :: _) => String.eqb k k'
                 | _ => false
                 end) items = false ->
      dict_get (fst (update_from_sequence d items)) k = dict_get d k).
Proof.
  revert d. induction items as [|item rest IH]; intros d.
  - split; [intros v H; now exists v|reflexivity].
  - cbn [update_from_sequence existsb].
    destruct (sequence_of item) as [[|key [|value [|x l]]]|];
      try (split; [intros v H; now exists v|reflexivity]).
    destruct key as [| | |k'| |]; cbn [dict_setitem];
      try (split; [intros v H; now exists v|reflexivity]);
      try (destruct (IH d) as [IH1 IH2]; split; [exact IH1|exact IH2]).
    destruct (IH (dict_set d k' value)) as [IH1 IH2]. split.
    + intros v H. destruct (String.eqb k k') eqn:E;
        [apply (IH1 value)|apply (IH1 v)]; rewrite dict_get_set, E; trivial.
    + intros Hb. apply orb_false_iff in Hb as [E Hb].
      rewrite (IH2 Hb), dict_get_set. now rewrite E.
Qed.

(** X20.  Every key of the built-in defaults is in the dictionary
    [_load_config] returns, whatever [json.load] made of the file and
    however far [update] got, so a fall-back given to [config.get] for
    such a key is never used; a key that nothing in the file binds
    keeps its default, and all of them do when the file is missing or
    cannot be read. *)
Theorem load_config_keeps_defaults (file : option (result json))
    (k : string) (v fallback : json) :
  dict_get default_config k = Some v ->
  (exists v', dict_get (_load_config file) k = Some v'
              /\ dict_get_default (_load_config file) k fallback = v')
  /\ (match file with
      | Some (Ok config) => binds_key config k = false
      | _ => True
      end -> dict_get_default (_load_config file) k fallback = v).
Proof.
  intros Hk.
  assert (Hmain : forall d,
    (exists v', dict_get d k = Some v')
    /\ (match file with
        | Some (Ok config) => binds_key config k = false
        | _ => True
        end -> dict_get d k = Some v) ->
    (exists v', dict_get d k = Some v' /\ dict_get_default d k fallback = v')
    /\ (match file with
        | Some (Ok config) => binds_key config k = false
        | _ => True
        end -> dict_get_default d k fallback = v)).
  { intros d [(v' & Hv') H]. unfold dict_get_default. split.
    - exists v'. now rewrite Hv'.
    - intros Hb. now rewrite (H Hb). }
  apply Hmain. unfold _load_config.
  destruct file as [[config|e]|]; try (split; [now exists v|trivial]).
  destruct config as [|b|n|s|items|members]; cbn [dict_update fst binds_key];
    try (split; [now exists v|trivial]).
  - destruct (update_from_sequence_key default_config (characters s) k) as [H1 _].
    split; [exact (H1 v Hk)|]. intros _.
    destruct s as [|c s]; [exact Hk|]. cbn [characters update_from_sequence sequence_of].
    destruct c. cbn [characters]. exact Hk.
  - destruct (update_from_sequence_key default_config items k) as [H1 H2].
    split; [exact (H1 v Hk)|]. intros Hb. now rewrite (H2 Hb).
  - rewrite dict_get_merge, Hk. split.
    + destruct (dict_get (rev (dict_of members)) k) as [w|]; [now exists w|now exists v].
    + intros Hb. destruct (dict_get_unbound members k Hb) as [Hr _].
      assert (Hd : dict_get (dict_of members) k = None).
      { unfold dict_of. now rewrite dict_get_merge, Hr. }
      now rewrite (dict_get_rev_none _ _ Hd).
Qed.

(** A file that holds a list: [update] stores the first pair and raises
    on the second element; the key it stored has the file's value, the
    others their defaults. *)
Lemma load_config_keeps_defaults_witness :
  let file := Some (Ok (JArray [JArray [JString "voice_timeout"; JNumber "1"];
                                JNumber "5";
                                JArray [JString "whisper_model"; JString "tiny"]])) in
  dict_get_default (_load_config file) "ollama_model" (JString "mistral")
  = JString "llama2"
  /\ dict_get (_load_config file) "voice_timeout" = Some (JNumber "1")
  /\ dict_get (_load_config file) "whisper_model" = Some (JString "base").
Proof.
  split; [|split; reflexivity].
  apply (load_config_keeps_defaults
           (Some (Ok (JArray [JArray [JString "voice_timeout"; JNumber "1"];
                              JNumber "5";
                              JArray [JString "whisper_model"; JString "tiny"]])))
           "ollama_model" (JString "llama2") (JString "mistral"));
    reflexivity.
Defined.

(* ================================================================== *)
(** ** The menu announcement *)
(* ================================================================== *)

Lemma after_first_colon before rest :
  contains ":" before = false ->
  after_first ": " (before ++ ": " ++ rest) = Some rest.
Proof.
  cbn [append]. induction before as [|c b IH]; intros H.
  - reflexivity.
  - apply contains_cons_false in H as [Hc Hb].
    rewrite startswith_cons in Hc. cbn [startswith] in Hc.
    rewrite andb_true_r in Hc.
    cbn [append after_first]. rewrite startswith_cons, Hc. cbn [andb].
    now apply IH.
Qed.

(** X21.  [announce_offers] speaks a menu entry of the form
    [Number N: item], in any letter case, as [item] alone. *)
Theorem to_speak_drops_number (tag n item : string) :
  lower tag = "number " ->
  contains ":" (tag ++ n) = false ->
  truthy item = true ->
  rstrip item = item ->
  to_speak (tag ++ n ++ ": " ++ item) = item.
Proof.
  intros Htag Hcolon Hitem Hr.
  assert (Hstrip : strip (tag ++ n ++ ": " ++ item) = tag ++ n ++ ": " ++ item).
  { unfold strip.
    assert (Hl : lstrip (tag ++ n ++ ": " ++ item) = tag ++ n ++ ": " ++ item).
    { destruct tag as [|c tag]; [discriminate|].
      injection Htag as Hc _. cbn [append lstrip].
      rewrite <- (is_space_lower_char c), Hc. reflexivity. }
    rewrite Hl, <- !append_assoc, rstrip_app; rewrite Hr; [reflexivity|exact Hitem]. }
  unfold to_speak. rewrite Hstrip.
  assert (Hstart : startswith "number " (lower (tag ++ n ++ ": " ++ item)) = true).
  { rewrite lower_app, Htag. apply startswith_app. }
  assert (Hin : contains ": " (tag ++ n ++ ": " ++ item) = true).
  { rewrite <- append_assoc. apply contains_app. }
  rewrite Hstart, Hin. cbn [andb].
  rewrite <- append_assoc. now rewrite after_first_colon.
Qed.

Lemma to_speak_drops_number_witness :
  to_speak "NUMBER 2: Zinger burger - 500 KES" = "Zinger burger - 500 KES".
Proof.
  apply (to_speak_drops_number "NUMBER " "2" "Zinger burger - 500 KES");
    reflexivity.
Defined.

(* ================================================================== *)
(** ** The drawing simulation *)
(* ================================================================== *)

Lemma length_take n s : String.length (take n s) <= n.
Proof.
  revert s. induction n as [|n IH]; intros s; [simpl; lia|].
  destruct s as [|c s]; simpl; [lia|]. specialize (IH s). lia.
Qed.

Lemma join_last sep l :
  l <> [] -> exists before, join sep l = before ++ last l EmptyString.
Proof.
  induction l as [|p l IH]; [contradiction|]. intros _.
  destruct l as [|q l].
  - now exists EmptyString.
  - destruct IH as (before & E); [discriminate|].
    rewrite join_cons by discriminate. rewrite E.
    exists (p ++ sep ++ before). cbn [last]. now rewrite !append_assoc.
Qed.

Lemma split_from_two sep acc s :
  contains sep s = true -> truthy sep = true ->
  2 <= List.length (split_from sep 0 acc s).
Proof.
  intros H Hsep. revert acc. induction s as [|c s IH]; intros acc.
  - destruct sep; discriminate.
  - cbn [split_from]. cbn [contains] in H.
    destruct (startswith sep (String c s)) eqn:E.
    + cbn [List.length].
      pose proof (split_from_not_nil sep (String.length sep - 1) EmptyString s) as Hn.
      destruct (split_from sep _ EmptyString s); [contradiction|simpl; lia].
    + simpl in H. now apply IH.
Qed.

(** X22.  The menu of the drawing simulation always has between one
    and four entries.  An offer with [ - ] in it has at least two
    [ - ] segments (the pieces [split] cuts it into, which joined again
    give the offer back) and is shown as the first and the last of
    them alone, every segment between the two being dropped; any other
    offer is cut to its first 45 characters. *)
Theorem simulation_menu_labels (data : result (option (list string))) :
  1 <= List.length (load_menu_from_config data) <= MENU_CHOICES
  /\ forall o,
       if contains " - " o then
         exists first between last,
           split " - " o = (first :: between ++ [last])%list
           /\ o = join " - " (first :: between ++ [last])
           /\ menu_label o = first ++ " - " ++ last
       else menu_label o = take 45 o /\ String.length (menu_label o) <= 45.
Proof.
  split.
  - unfold load_menu_from_config, MENU_CHOICES.
    destruct data as [[[|o offers]|]|e]; try (simpl; lia).
    rewrite length_map, length_firstn. simpl List.length. lia.
  - intros o. unfold menu_label. destruct (contains " - " o) eqn:E.
    + pose proof (split_from_two " - " EmptyString o E eq_refl) as H2.
      fold (split " - " o) in H2.
      pose proof (join_split " - " o eq_refl) as Hj.
      apply Nat.leb_le in H2 as H2'. rewrite H2'.
      destruct (split " - " o) as [|p [|q l]]; try (simpl in H2; lia).
      exists p, (removelast (q :: l)), (last (q :: l) EmptyString).
      rewrite <- (app_removelast_last EmptyString (l := q :: l)) by discriminate.
      split; [reflexivity|]. split; [now symmetry|reflexivity].
    + split; [reflexivity|apply length_take].
Qed.

(** An offer with a description between its name and its price. *)
Lemma simulation_menu_labels_witness :
  menu_label "Zinger burger - with 350ml coke - 500 KES" = "Zinger burger - 500 KES".
Proof.
  pose proof (proj2 (simulation_menu_labels (Raise IndexError))
                "Zinger burger - with 350ml coke - 500 KES") as H.
  assert (E : contains " - " "Zinger burger - with 350ml coke - 500 KES" = true)
    by reflexivity.
  rewrite E in H. destruct H as (first & between & last & Hs & _ & ->).
  assert (Hp : split " - " "Zinger burger - with 350ml coke - 500 KES"
               = ("Zinger burger" :: ["with 350ml coke"] ++ ["500 KES"])%list)
    by reflexivity.
  rewrite Hp in Hs. injection Hs as <- Hs.
  change ["with 350ml coke"; "500 KES"]
    with (["with 350ml coke"] ++ ["500 KES"])%list in Hs.
  apply app_inj_tail in Hs as [_ <-]. reflexivity.
Defined.

Lemma add_to_order_all l s :
  let s' := fold_left (fun s i => add_to_order i s) l s in
  menu_items s' = menu_items s
  /\ order_items s' =
     (order_items s ++
      map (fun i => (i, match nth_error (menu_items s) i with
                        | Some name => name
                        | None => ("Item " ++ str (i + 1))%string
                        end)) l)%list
  /\ (l <> [] -> order_confirmed s' = true
                 /\ sim_car_number s' = match sim_car_number s with 0 => 1 | n => n end).
Proof.
  cbv zeta. revert s. induction l as [|i l IH]; intros s.
  - simpl. rewrite app_nil_r. now repeat split.
  - cbn [fold_left map]. destruct (IH (add_to_order i s)) as (H1 & H2 & H3).
    rewrite H1, H2. cbn [menu_items order_items add_to_order].
    rewrite <- app_assoc. repeat split; trivial.
    + destruct l as [|j l]; [reflexivity|]. now apply H3.
    + destruct l as [|j l]; [reflexivity|].
      destruct H3 as [_ H3]; [discriminate|]. rewrite H3.
      cbn [sim_car_number add_to_order]. now destruct (sim_car_number s).
Qed.

(** X23.  [add_to_order] accepts any button index: an index past the
    end of the menu adds a generic item instead of failing.  The first
    item added after a [reset] makes the car number 1, and it stays 1
    however many items are added. *)
Theorem simulation_add_to_order (sim : simulation) (indexes : list nat) (index : nat) :
  let sim' := fold_left (fun s i => add_to_order i s) (index :: indexes) (reset sim) in
  sim_car_number sim' = 1
  /\ order_confirmed sim' = true
  /\ order_items sim' =
     map (fun i => (i, match nth_error (menu_items sim) i with
                       | Some name => name
                       | None => "Item " ++ str (i + 1)
                       end)) (index :: indexes).
Proof.
  cbv zeta.
  destruct (add_to_order_all (index :: indexes) (reset sim)) as (_ & H2 & H3).
  destruct H3 as [H3 H4]; [discriminate|].
  repeat split; [exact H4|exact H3|exact H2].
Qed.

(* ================================================================== *)
(** ** Car numbers over a run *)
(* ================================================================== *)

Section CarNumberSequence.
Variable cfg : Config.
Variable env : Env.

(** What one returned session does to the counter and to the queue. *)
Lemma session_car_number st info st' evs :
  process_customer cfg env st = (Ok info, st', evs) ->
  exists new,
    order_queue st' = (order_queue st ++ new)%list
    /\ car_numbers new = seq (S (_car_number st)) (_car_number st' - _car_number st)
    /\ _car_number st <= _car_number st'.
Proof.
  intros H.
  pose proof (process_customer_queue cfg env st) as Hq. cbv zeta in Hq.
  rewrite H in Hq. unfold final, outcome in Hq. cbn [fst snd] in Hq.
  rewrite process_customer_run in H.
  destruct (serve cfg env _ _) as [[[i|e] s1] ev] eqn:E; [|discriminate].
  injection H as <- <- <-.
  apply serve_ok in E as (d & sa & e1 & e2 & Hd & Hh & ->).
  change (_car_number (set_current_customer None s1)) with (_car_number s1).
  assert (Hnum : match i with
                 | CancelledInfo _ => _car_number s1 = _car_number st
                 | OperatorInfo r =>
                     (h_car_number r = Some (S (_car_number st))
                      /\ _car_number s1 = S (_car_number st))
                     \/ (h_car_number r = None /\ _car_number s1 = _car_number st)
                 end).
  { destruct (simple_flow cfg) eqn:Hflow.
    - apply simple_loop_invariant in Hd. unfold order_invariant in Hd.
      change (_car_number (arrival env st)) with (_car_number st) in Hd.
      apply handoff_to_operator_simple_ok in Hh
        as [(Hc & -> & ->)|(Hc & r & -> & -> & Hid & Hs & Hn & Ht)].
      + unfold is_cancelled in Hc.
        destruct (selected_offer d); [|apply Hd].
        destruct Hd as (_ & _ & _ & Hx). rewrite Hx in Hc. discriminate.
      + rewrite Hn. change (_car_number (queue_put r (tick_now sa)))
          with (_car_number sa).
        destruct (selected_offer d).
        * left. destruct Hd as (_ & -> & -> & _). now split.
        * right. exact Hd.
    - assert (Hfull : cancelled d = None /\ car_number d = None
                      /\ _car_number sa = _car_number st).
      { destruct (use_continuous_listening cfg).
        - pose proof (continuous_order_keeps_car_number cfg env (arrival env st)) as Hn.
          rewrite Hd in Hn. split; [eapply continuous_order_not_cancelled; eassumption|].
          split; [eapply continuous_order_no_car_number; eassumption|exact Hn].
        - pose proof (order_keeps_car_number cfg env (arrival env st)) as Hn.
          rewrite Hd in Hn. split; [eapply order_not_cancelled; eassumption|].
          split; [eapply order_no_car_number; eassumption|exact Hn]. }
      destruct Hfull as (Hcan & Hcar & Hn).
      apply handoff_to_operator_ok in Hh
        as [(X & _)|(_ & r & -> & -> & Hid & Hs & Hnum & Ht)].
      { unfold is_cancelled in X. rewrite Hcan in X. discriminate. }
      right. rewrite Hnum, Hcar. now split. }
  eexists. split; [exact Hq|].
  destruct i as [id|r].
  - rewrite Hnum, Nat.sub_diag. split; [reflexivity|lia].
  - unfold car_numbers. cbn [flat_map]. rewrite app_nil_r.
    destruct Hnum as [[-> ->]|[-> ->]].
    + replace (S (_car_number st) - _car_number st) with 1 by lia.
      split; [reflexivity|lia].
    + rewrite Nat.sub_diag. split; [reflexivity|lia].
Qed.

Lemma car_numbers_app a b :
  car_numbers (a ++ b) = (car_numbers a ++ car_numbers b)%list.
Proof. apply flat_map_app. Qed.

Lemma run_loop_car_numbers samples car_detected st :
  let x := run_loop cfg env samples car_detected st in
  exists new,
    order_queue (final x) = (order_queue st ++ new)%list
    /\ car_numbers new = seq (S (_car_number st)) (List.length (car_numbers new))
    /\ (outcome x = Ok tt ->
        _car_number (final x) = _car_number st + List.length (car_numbers new)).
Proof.
  cbv zeta. revert st car_detected.
  induction samples as [|detected rest IH]; intros st car_detected.
  - exists []. simpl. rewrite app_nil_r. repeat split. unfold final; simpl. lia.
  - rewrite run_loop_step. destruct (detected && negb car_detected).
    + pose proof (process_customer_queue cfg env st) as Hq. cbv zeta in Hq.
      pose proof (session_car_number st) as Hs.
      destruct (process_customer cfg env st) as [[[info|e] s1] evs].
      * destruct (Hs _ _ _ eq_refl) as (new1 & Hq1 & Hn1 & Hle). clear Hs Hq.
        destruct (IH s1 true) as (new2 & Hq2 & Hn2 & Hc2).
        destruct (run_loop cfg env rest true s1) as [[r s] ev].
        unfold final, outcome in *; cbn [fst snd] in *.
        exists (new1 ++ new2)%list. rewrite Hq2, Hq1, <- app_assoc.
        split; [reflexivity|].
        assert (Hlen : List.length (car_numbers new1)
                       = _car_number s1 - _car_number st)
          by (rewrite Hn1; apply length_seq).
        rewrite car_numbers_app, length_app. split.
        -- rewrite seq_app. f_equal.
           ++ rewrite Hn1 at 1. now rewrite Hlen.
           ++ rewrite Hn2 at 1. f_equal. lia.
        -- intros Hr. rewrite (Hc2 Hr). lia.
      * exists []. unfold final, outcome in *; cbn [fst snd] in *.
        rewrite Hq. repeat split. discriminate.
    + destruct (IH st detected) as (new & Hq & Hn & Hc).
      destruct (run_loop cfg env rest detected st) as [[r s] ev].
      unfold final, outcome in *; cbn [fst snd] in *.
      exists new. now repeat split.
Qed.

End CarNumberSequence.

(** X24.  The car numbers on the records a [run] queues count up by
    one from the counter it started with, in queue order, with no gap
    and no repeat; when [run] returns, the counter has advanced by
    exactly the number of numbered records. *)
Theorem run_car_numbers_in_sequence (cfg : Config) (env : Env)
    (samples : list bool) (st : State) :
  let x := run cfg env samples st in
  exists new,
    order_queue (final x) = (order_queue st ++ new)%list
    /\ car_numbers new = seq (S (_car_number st)) (List.length (car_numbers new))
    /\ (outcome x = Ok tt ->
        _car_number (final x) = _car_number st + List.length (car_numbers new)).
Proof. apply run_loop_car_numbers. Qed.

(** X25.  Without the Raspberry Pi pins [detect_car_approach] never
    reports a car, so [run] on its own serves nobody: it says nothing,
    listens to nothing and leaves every field as it was. *)
Theorem run_without_gpio_serves_nobody (cfg : Config) (env : Env)
    (pins : list bool) (st : State) :
  run cfg env (map (detect_car_approach false) pins) st
  = (Ok tt, st, map Sampled (map (detect_car_approach false) pins))
  /\ sessions_started (events (run cfg env (map (detect_car_approach false) pins) st))
     = 0.
Proof.
  assert (H : forall car_detected,
    run_loop cfg env (map (detect_car_approach false) pins) car_detected st
    = (Ok tt, st, map Sampled (map (detect_car_approach false) pins))).
  { induction pins as [|p pins IH]; intros car_detected; [reflexivity|].
    cbn [map]. rewrite run_loop_step. cbn [detect_car_approach andb].
    now rewrite IH. }
  unfold run. rewrite H. split; [reflexivity|].
  unfold events. cbn [snd]. unfold sessions_started. clear H.
  induction pins as [|p pins IH]; [reflexivity|]. exact IH.
Qed.

Lemma run_car_numbers_in_sequence_witness :
  let x := run config4 (world [says "two"; says "six"; says "one"])
             [true; false; true; true; false; true] init_state in
  exists new,
    order_queue (final x) = new
    /\ car_numbers new = seq 1 (List.length (car_numbers new))
    /\ _car_number (final x) = List.length (car_numbers new).
Proof.
  destruct (run_car_numbers_in_sequence config4
              (world [says "two"; says "six"; says "one"])
              [true; false; true; true; false; true] init_state)
    as (new & H1 & H2 & H3).
  exists new. repeat split; [exact H1|exact H2|].
  apply H3. vm_compute. reflexivity.
Defined.

(* ================================================================== *)
(** ** The silent customer *)
(* ================================================================== *)

Section Silent.
Variable cfg : Config.
Variable env : Env.

Lemma listen_nothing st :
  (microphone cfg = true -> hears_nothing cfg (mic env (n_listen st)) = true) ->
  listen cfg env st =
  (Ok None, if microphone cfg then tick_listen st else st, [Listened None]).
Proof.
  intros H. rewrite listen_run. destruct (microphone cfg); [|reflexivity].
  specialize (H eq_refl). unfold hears_nothing in H.
  now destruct (listen_handlers _) as [[r|]|e].
Qed.

Lemma order_attempt_silent attempt vars st :
  (microphone cfg = true -> hears_nothing cfg (mic env (n_listen st)) = true) ->
  order_attempt cfg env attempt vars st =
  (Ok (continue, vars), if microphone cfg then tick_listen st else st,
   Listened None ::
   if (attempt <? max_attempts - 1)%nat then [Spoke didnt_catch] else []).
Proof.
  intros H. unfold order_attempt. destruct vars as [text selected].
  unfold bind at 1. rewrite (listen_nothing st H).
  destruct (attempt <? max_attempts - 1)%nat; reflexivity.
Qed.

Lemma get_customer_order_silent st :
  use_continuous_listening cfg = false ->
  nothing_heard cfg env st = true ->
  exists st',
    get_customer_order cfg env st =
    (Ok (mk_order None None [] None None None), st',
     [Listened None; Spoke didnt_catch; Listened None; Spoke didnt_catch;
      Listened None])
    /\ order_queue st' = order_queue st /\ n_now st' = n_now st.
Proof.
  unfold nothing_heard. intros -> H.
  assert (Hk : microphone cfg = true ->
               forall k, k < 3 -> hears_nothing cfg (mic env (n_listen st + k)) = true).
  { intros M k Hlt. rewrite M in H. simpl in H.
    rewrite !andb_true_iff in H. destruct H as (H0 & H1 & H2 & _).
    destruct k as [|[|[|k]]]; [exact H0|exact H1|exact H2|lia]. }
  clear H. unfold get_customer_order.
  change (seq 0 max_attempts) with [0; 1; 2]. cbn [order_attempts].
  set (s1 := if microphone cfg then tick_listen st else st).
  set (s2 := if microphone cfg then tick_listen s1 else s1).
  set (s3 := if microphone cfg then tick_listen s2 else s2).
  exists s3.
  assert (E1 : order_attempt cfg env 0 (None, None) st
               = (Ok (continue, (None, None)), s1, [Listened None; Spoke didnt_catch])).
  { apply order_attempt_silent. intros M. rewrite <- (Nat.add_0_r (n_listen st)).
    apply (Hk M); lia. }
  assert (E2 : order_attempt cfg env 1 (None, None) s1
               = (Ok (continue, (None, None)), s2, [Listened None; Spoke didnt_catch])).
  { apply order_attempt_silent. intros M. unfold s1. rewrite M.
    change (n_listen (tick_listen st)) with (S (n_listen st)).
    rewrite <- Nat.add_1_r. apply (Hk M); lia. }
  assert (E3 : order_attempt cfg env 2 (None, None) s2
               = (Ok (continue, (None, None)), s3, [Listened None])).
  { apply order_attempt_silent. intros M. unfold s2, s1. rewrite M.
    change (n_listen (tick_listen (tick_listen st))) with (S (S (n_listen st))).
    replace (S (S (n_listen st))) with (n_listen st + 2) by lia.
    apply (Hk M); lia. }
  unfold bind. rewrite E1. cbn [continue]. rewrite E2. cbn [continue]. rewrite E3.
  cbn [continue]. split; [reflexivity|].
  unfold s3, s2, s1. destruct (microphone cfg); now split.
Qed.

End Silent.

(** X26.  A customer of whom nothing is heard in a full flow is not
    dropped: the session still returns a record for the operator, put
    on the queue, with no order text, no phrases, no offer and no car
    number, and the customer is sent on to the pick-up window. *)
Theorem silent_customer_is_handed_off (cfg : Config) (env : Env) (st : State) :
  simple_flow cfg = false ->
  nothing_heard cfg env st = true ->
  let x := process_customer cfg env st in
  exists r,
    outcome x = Ok (OperatorInfo r)
    /\ order_queue (final x) = (order_queue st ++ [r])%list
    /\ h_full_order_text r = None /\ h_order_phrases r = []
    /\ h_selected_offer r = None /\ h_offer_details r = None
    /\ h_car_number r = None
    /\ In (Spoke "Please drive to the pick-up window. Our team will help you there.")
          (events x).
Proof.
  intros Hs Hn. cbv zeta.
  pose proof (process_customer_queue cfg env st) as Hq. cbv zeta in Hq.
  assert (Hd : exists sa e1,
             (if use_continuous_listening cfg
              then get_customer_order_continuous cfg env
              else get_customer_order cfg env) (arrival env st)
             = (Ok (mk_order None None [] None None None), sa, e1)).
  { destruct (use_continuous_listening cfg) eqn:U.
    - unfold nothing_heard in Hn. rewrite U in Hn.
      rewrite continuous_order_run, listen_continuous_run.
      change (n_continuous (arrival env st)) with (n_continuous st).
      destruct (continuous env (n_continuous st)) as [[|p ps]|e]; try discriminate.
      now eauto.
    - destruct (get_customer_order_silent cfg env (arrival env st) U) as (sa & E & _).
      { unfold nothing_heard in *. now rewrite U in *. }
      now eauto. }
  destruct Hd as (sa & e1 & Hd).
  revert Hq. rewrite process_customer_run. unfold serve. rewrite Hs.
  unfold bind. rewrite announce_offers_run, Hd, handoff_to_operator_run.
  cbn [is_cancelled cancelled offer_details selected_offer full_order_text
       order_phrases car_number order_id truthy_opt].
  cbv zeta. unfold outcome, final, events. cbn [fst snd]. intros Hq.
  eexists. split; [reflexivity|]. split; [exact Hq|].
  repeat split.
  cbn [In]. rewrite !in_app_iff. cbn [In]. intuition.
Qed.

Lemma silent_customer_is_handed_off_witness :
  exists r,
    outcome (process_customer config_questions (world []) init_state)
    = Ok (OperatorInfo r)
    /\ h_full_order_text r = None.
Proof.
  destruct (silent_customer_is_handed_off config_questions (world []) init_state
              eq_refl eq_refl) as (r & H1 & _ & H2 & _).
  now exists r.
Defined.

(* ================================================================== *)
(** ** Choosing the voices *)
(* ================================================================== *)

Lemma best_voice_from_spec lang_pref voices best best_score :
  match best with
  | Some b => voice_score lang_pref b = best_score /\ 0 < best_score
  | None => best_score = 0
  end ->
  match best_voice_from lang_pref voices best best_score with
  | Some b =>
      (best = Some b \/ In b voices)
      /\ 0 < voice_score lang_pref b
      /\ best_score <= voice_score lang_pref b
      /\ Forall (fun v => voice_score lang_pref v <= voice_score lang_pref b) voices
  | None =>
      best = None /\ Forall (fun v => voice_score lang_pref v = 0) voices
  end.
Proof.
  revert best best_score. induction voices as [|v rest IH]; intros best best_score Hb.
  - simpl. destruct best as [b|].
    + destruct Hb as [<- Hpos]. repeat split; auto.
    + now split.
  - cbn [best_voice_from]. cbv zeta.
    destruct (best_score <? voice_score lang_pref v)%nat eqn:E.
    + apply Nat.ltb_lt in E.
      specialize (IH (Some v) (voice_score lang_pref v)).
      destruct (best_voice_from lang_pref rest (Some v) _) as [b|].
      * destruct IH as ([Hin|Hin] & Hpos & Hle & Hall); [split; [reflexivity|lia]| |].
        -- injection Hin as <-. repeat split; auto; try lia. right. now left.
        -- repeat split; auto; try lia. right. now right.
      * destruct IH as [Hn _]; [split; [reflexivity|lia]|discriminate].
    + apply Nat.ltb_ge in E.
      specialize (IH best best_score Hb).
      destruct (best_voice_from lang_pref rest best best_score) as [b|].
      * destruct IH as (Hin & Hpos & Hle & Hall).
        repeat split; auto; try lia.
        -- destruct Hin; [now left|right; now right].
        -- constructor; [lia|exact Hall].
      * destruct IH as [-> Hall]. split; [reflexivity|].
        constructor; [lia|exact Hall].
Qed.

(** X27.  Without a configured voice name the menu voice is a voice
    with the highest score, and none is chosen only when every voice
    scores zero; a score is at most 35. *)
Theorem menu_voice_is_best (lang_pref : string) (voices : list voice) :
  match menu_voice None lang_pref voices with
  | Some b =>
      In b voices /\ 0 < voice_score lang_pref b
      /\ Forall (fun v => voice_score lang_pref v <= voice_score lang_pref b) voices
  | None => Forall (fun v => voice_score lang_pref v = 0) voices
  end
  /\ Forall (fun v => voice_score lang_pref v <= 35) voices.
Proof.
  split.
  - unfold menu_voice.
    pose proof (best_voice_from_spec lang_pref voices None 0 eq_refl) as H.
    destruct (best_voice_from lang_pref voices None 0) as [b|].
    + destruct H as ([Hin|Hin] & Hpos & _ & Hall); [discriminate|]. now repeat split.
    + apply H.
  - apply Forall_forall. intros v _. unfold voice_score. cbv zeta.
    repeat match goal with |- context [if ?b then _ else _] => destruct b end; lia.
Qed.

(** X28.  The search for a male order voice looks for [male] inside
    the description, and [female] holds it: when the configured order
    voice is not installed, a voice described as female is taken as the
    male one if it comes first. *)
Theorem female_voice_sounds_male (name : string) (v : voice) (rest : list voice) :
  truthy name = true ->
  rest <> [] ->
  voice_named name (v :: rest) = None ->
  contains "female" (lower (description v)) = true ->
  order_voice (Some name) (v :: rest) = Some v.
Proof.
  intros Hname Hrest Hnone Hf. unfold order_voice.
  destruct name as [|c s]; [discriminate|].
  destruct rest as [|w rest]; [contradiction|]. cbn [List.length Nat.ltb Nat.leb].
  rewrite Hnone. cbn [find]. unfold sounds_male.
  apply contains_split in Hf as (a & b & ->).
  change "female" with ("fe" ++ "male" ++ EmptyString).
  rewrite !append_assoc, <- (append_assoc a "fe").
  now rewrite contains_app.
Qed.

Lemma female_voice_sounds_male_witness :
  order_voice (Some "Mark")
    [mk_voice "Microsoft Zira - Female" "Female" "409";
     mk_voice "Microsoft David" "Male" "409"]
  = Some (mk_voice "Microsoft Zira - Female" "Female" "409").
Proof.
  apply (female_voice_sounds_male "Mark"
           (mk_voice "Microsoft Zira - Female" "Female" "409")
           [mk_voice "Microsoft David" "Male" "409"]);
    [reflexivity|discriminate|reflexivity|reflexivity].
Defined.
